(** * Recovery-map mathematics (libs/jpegrecoverymap/recoverymapmath.cpp)

    A shallow embedding of the gain-map kernel of the JPEG/R codec: the
    gamut-conversion lookup, the gain encoder and decoder, the bilinear map
    sampler, the YUV420 pixel reader and the RGBA1010102 packer, followed
    by the luminances, the YUV/RGB conversions, the P010 pixel reader and
    the block samplers.  The transfer functions (sRGB, HLG, PQ) are left
    out: they are compositions of [pow], [log], [exp] and [sqrt] of the
    platform's libm, partly in double precision.

    C++ [float] is IEEE-754 binary32.  Every arithmetic operation of the
    source is one correctly rounded (round-to-nearest-even) binary32
    operation, taken from the standard library's [SpecFloat] at precision
    24 and maximal exponent 128; no operation is fused or carried out in a
    wider format, except in [encodeRecovery_contracted], which evaluates
    the encoder with the contraction that the language permits.  Conversions that C++ leaves undefined (a float outside
    the range of the integer type it is cast to, a read outside a buffer)
    are results [None]. *)

From Stdlib Require Import ZArith List Bool Lia QArith Qround Qabs Zpower.
From Stdlib Require Import Floats.SpecFloat.
From Stdlib Require Import Strings.Byte.
Import ListNotations.

Local Open Scope Z_scope.

(** ** IEEE-754 binary32 *)

Definition f32 : Type := spec_float.

Module F32.

Definition prec : Z := 24.
Definition emax : Z := 128.

(** A well-formed binary32 datum: the mantissa is canonical and the
    exponent is in range. *)
Definition wf (x : f32) : Prop := valid_binary prec emax x = true.

Definition add : f32 -> f32 -> f32 := SFadd prec emax.
Definition sub : f32 -> f32 -> f32 := SFsub prec emax.
Definition mul : f32 -> f32 -> f32 := SFmul prec emax.
Definition div : f32 -> f32 -> f32 := SFdiv prec emax.
Definition opp : f32 -> f32 := SFopp.
Definition eqb : f32 -> f32 -> bool := SFeqb.
Definition ltb : f32 -> f32 -> bool := SFltb.
Definition leb : f32 -> f32 -> bool := SFleb.

(** [m * 2^e] rounded to binary32. *)
Definition of_scaled (m e : Z) : f32 := binary_normalize prec emax m e false.

(** [static_cast<float>] of an integer. *)
Definition of_Z (z : Z) : f32 := of_scaled z 0.

Definition pzero : f32 := S754_zero false.
Definition nzero : f32 := S754_zero true.
Definition one : f32 := of_Z 1.
Definition two : f32 := of_Z 2.

(** A decimal literal [num/den] with the suffix [f]: the nearest binary32,
    obtained by one correctly rounded division of two exactly
    representable integers. *)
Definition lit (num den : Z) : f32 := div (of_Z num) (of_Z den).

(** Finite and strictly positive. *)
Definition finite_pos (x : f32) : bool :=
  match x with
  | S754_finite false _ _ => true
  | _ => false
  end.

(** The magnitude of a finite float, truncated to an integer. *)
Definition mag_trunc (m : positive) (e : Z) : Z :=
  if 0 <=? e then Z.shiftl (Zpos m) e else Z.shiftr (Zpos m) (- e).

(** Truncation toward zero; undefined on NaN and the infinities. *)
Definition trunc (x : f32) : option Z :=
  match x with
  | S754_zero _ => Some 0
  | S754_finite s m e => Some (if s then - mag_trunc m e else mag_trunc m e)
  | S754_infinity _ | S754_nan => None
  end.

(** [static_cast<U>(x)] for an unsigned integer type [U] of [bits] bits:
    the fractional part is discarded, and the behaviour is undefined when
    the truncated value is not a value of [U]. *)
Definition to_unsigned (bits : Z) (x : f32) : option Z :=
  match trunc x with
  | Some z => if (0 <=? z) && (z <? 2 ^ bits) then Some z else None
  | None => None
  end.

(** [floor] of <cmath>: exact, never rounds. *)
Definition floor (x : f32) : f32 :=
  match x with
  | S754_finite s m e =>
      if 0 <=? e then x
      else
        let q := Z.shiftr (Zpos m) (- e) in
        if Z.shiftl q (- e) =? Zpos m then x
        else if s then opp (of_Z (q + 1))
        else if q =? 0 then pzero else of_Z q
  | _ => x
  end.

(** The exact rational value of a finite float. *)
Definition value (x : f32) : option Q :=
  match x with
  | S754_zero _ => Some 0%Q
  | S754_finite s m e =>
      let a := if 0 <=? e then inject_Z (Z.shiftl (Zpos m) e)
               else Qmake (Zpos m) (Z.to_pos (2 ^ (- e))) in
      Some (if s then Qopp a else a)
  | S754_infinity _ | S754_nan => None
  end.

End F32.

(** Rounding a rational to an integer: toward zero, and to the nearest
    integer with ties away from zero (the C function [round]). *)
Definition Qtruncate (q : Q) : Z :=
  if Qle_bool 0 q then Qfloor q else Qceiling q.

Definition Qround_half_away (q : Q) : Z :=
  if Qle_bool 0 q then Qfloor (q + (1 # 2)) else Qceiling (q - (1 # 2)).

(** ** The C math library

    [log2] and [exp2] come from the platform's libm, which is not part of
    the repository: the program is parameterised by them.  On a [float]
    argument the calls resolve to the [float] overloads of <cmath>, so
    both functions map binary32 to binary32. *)

Record Libm : Type := {
  log2f : f32 -> f32;
  exp2f : f32 -> f32
}.

(** A reference libm, used to run the program on concrete inputs.  Both
    functions follow Annex F of the C standard on the special values and
    round the mathematical result, computed with 64 fractional bits and a
    sticky bit, to the nearest binary32. *)

Module RefLibm.

(** Working precision of the fixed-point computations. *)
Definition P : Z := 160.
(** Number of fractional result bits. *)
Definition N : nat := 64.

(** Binary logarithm of [Y / 2^P], for [2^P <= Y < 2^(P+1)], by repeated
    squaring: [n] fractional bits accumulated in [acc], together with
    the remaining significand. *)
Fixpoint log2_bits (n : nat) (Y acc : Z) : Z * Z :=
  match n with
  | O => (acc, Y)
  | S n' =>
      let Y2 := Z.shiftr (Y * Y) P in
      if 2 ^ (P + 1) <=? Y2
      then log2_bits n' (Z.shiftr Y2 1) (2 * acc + 1)
      else log2_bits n' Y2 (2 * acc)
  end.

Definition log2 (x : f32) : f32 :=
  match x with
  | S754_nan => S754_nan
  | S754_zero _ => S754_infinity true
  | S754_infinity false => x
  | S754_infinity true => S754_nan
  | S754_finite true _ _ => S754_nan
  | S754_finite false m e =>
      let d := Zpos (digits2_pos m) in
      let ip := e + d - 1 in
      let Y := Z.shiftl (Zpos m) (P - (d - 1)) in
      let '(acc, Yr) := log2_bits N Y 0 in
      let w := ip * 2 ^ Z.of_nat N + acc in
      let sticky := if Yr =? 2 ^ P then 0 else 1 in
      F32.of_scaled (2 * w + sticky) (- (Z.of_nat N + 1))
  end.

(** [exp2_frac n R fr acc]: multiplies [acc] by [2^(2^-i)] for every set
    bit of weight [2^-i] of the [n]-bit fraction [fr]; [R] is the
    fixed-point value of [2^(2^-(i-1))], whose square root is taken at
    each step. *)
Fixpoint exp2_frac (n : nat) (R fr acc : Z) : Z :=
  match n with
  | O => acc
  | S n' =>
      let R' := Z.sqrt (Z.shiftl R P) in
      let acc' :=
        if Z.testbit fr (Z.of_nat n') then Z.shiftr (acc * R') P else acc in
      exp2_frac n' R' fr acc'
  end.

Definition exp2 (x : f32) : f32 :=
  match x with
  | S754_nan => S754_nan
  | S754_zero _ => F32.one
  | S754_infinity false => x
  | S754_infinity true => F32.pzero
  | S754_finite s m e =>
      if 8 <? e then (if s then F32.pzero else S754_infinity false)
      else
        let k := e + Z.of_nat N in
        let mag := if 0 <=? k then Z.shiftl (Zpos m) k else Zpos m in
        let den := if 0 <=? k then 1 else 2 ^ (- k) in
        let X := (if s then - mag else mag) / den in
        let ip := Z.shiftr X (Z.of_nat N) in
        let fr := Z.land X (Z.ones (Z.of_nat N)) in
        if 300 <? ip then S754_infinity false
        else if ip <? -300 then F32.pzero
        else
          let v := exp2_frac N (2 ^ (P + 1)) fr (2 ^ P) in
          let sticky :=
            if (fr =? 0) && (X * den =? (if s then - mag else mag))
            then 0 else 1 in
          F32.of_scaled (2 * v + sticky) (ip - P - 1)
  end.

Definition libm : Libm := {| log2f := log2; exp2f := exp2 |}.

End RefLibm.

(** ** Machine integers, buffers and undefined behaviour *)

(** Unsigned wrap-around of [size_t] (64 bits) and [uint32_t]. *)
Definition size_t (z : Z) : Z := z mod 2 ^ 64.
Definition uint32_t (z : Z) : Z := z mod 2 ^ 32.

(** Operations that C++ leaves undefined yield [None]; [x <- e ;; k]
    sequences them. *)
Definition bind {A B : Type} (o : option A) (k : A -> option B) : option B :=
  match o with
  | Some a => k a
  | None => None
  end.

Notation "x <- e ;; k" := (bind e (fun x => k))
  (at level 61, e at next level, right associativity).

(** [reinterpret_cast<uint8_t*>(data)[i]]: a read outside the buffer is
    undefined. *)
Definition read_u8 (data : list byte) (i : Z) : option Z :=
  if i <? 0 then None
  else option_map (fun c => Z.of_N (Byte.to_N c)) (nth_error data (Z.to_nat i)).

(** ** Data model *)

(** Modelled from the spec: the enumeration [jpegr_color_gamut] is declared
    in a header that is not among the sources; its four values are the ones
    the lookup below switches over. *)
Inductive jpegr_color_gamut : Type :=
| JPEGR_COLORGAMUT_UNSPECIFIED
| JPEGR_COLORGAMUT_BT709
| JPEGR_COLORGAMUT_P3
| JPEGR_COLORGAMUT_BT2100.

(** Modelled from the spec: [Color] is declared in a header that is not
    among the sources; it holds three 32-bit floats, read as (r, g, b) or
    as (y, u, v). *)
Record Color : Type := mkColor { r : f32; g : f32; b : f32 }.

Definition y (e : Color) : f32 := r e.
Definition u (e : Color) : f32 := g e.
Definition v (e : Color) : f32 := b e.

(** Modelled from the spec: [jpegr_uncompressed_struct] is declared in a
    header that is not among the sources.  The descriptor carries the
    width, the height and the raw sample storage; the storage is the list
    of its bytes. *)
Record jpegr_uncompressed_struct : Type := {
  data : list byte;
  width : Z;
  height : Z
}.

Definition jr_uncompressed_ptr : Type := jpegr_uncompressed_struct.

(** ** Colour conversions *)

Module Import Consts.
Definition c127_5 : f32 := F32.of_scaled 255 (-1).
Definition c255 : f32 := F32.of_Z 255.
Definition c128 : f32 := F32.of_Z 128.
Definition c1023 : f32 := F32.of_Z 1023.
End Consts.

Section Conversions.
Import F32.

(** A row of a 3x3 matrix applied to a colour, with the source's
    association [(c1 * r + c2 * g) + c3 * b]. *)
Definition row (c1 c2 c3 : f32) (e : Color) : f32 :=
  add (add (mul c1 (r e)) (mul c2 (g e))) (mul c3 (b e)).

Definition bt709ToP3 (e : Color) : Color :=
  mkColor (row (lit 82254 100000) (lit 17755 100000) (lit 6 100000) e)
          (row (lit 3312 100000) (lit 96684 100000) (lit (-1) 100000) e)
          (row (lit 1706 100000) (lit 7240 100000) (lit 91049 100000) e).

Definition bt709ToBt2100 (e : Color) : Color :=
  mkColor (row (lit 62740 100000) (lit 32930 100000) (lit 4332 100000) e)
          (row (lit 6904 100000) (lit 91958 100000) (lit 1138 100000) e)
          (row (lit 1636 100000) (lit 8799 100000) (lit 89555 100000) e).

Definition p3ToBt709 (e : Color) : Color :=
  mkColor (row (lit 122482 100000) (lit (-22490) 100000) (lit (-7) 100000) e)
          (row (lit (-4196) 100000) (lit 104199 100000) (lit 1 100000) e)
          (row (lit (-1961) 100000) (lit (-7865) 100000) (lit 109831 100000) e).

Definition p3ToBt2100 (e : Color) : Color :=
  mkColor (row (lit 75378 100000) (lit 19862 100000) (lit 4754 100000) e)
          (row (lit 4576 100000) (lit 94177 100000) (lit 1250 100000) e)
          (row (lit (-121) 100000) (lit 1757 100000) (lit 98359 100000) e).

Definition bt2100ToBt709 (e : Color) : Color :=
  mkColor (row (lit 166045 100000) (lit (-58764) 100000) (lit (-7286) 100000) e)
          (row (lit (-12445) 100000) (lit 113282 100000) (lit (-837) 100000) e)
          (row (lit (-1811) 100000) (lit (-10057) 100000) (lit 111878 100000) e).

Definition bt2100ToP3 (e : Color) : Color :=
  mkColor (row (lit 134369 100000) (lit (-28223) 100000) (lit (-6135) 100000) e)
          (row (lit (-6533) 100000) (lit 107580 100000) (lit (-1051) 100000) e)
          (row (lit 283 100000) (lit (-1957) 100000) (lit 101679 100000) e).

(** Modelled from the spec: [identityConversion] is defined in the header
    that is not among the sources; "an identity transform is used when
    source and destination gamut match". *)
Definition identityConversion (e : Color) : Color := e.

End Conversions.

(** [ColorTransformFn] is a pointer to one of the seven conversion
    functions; the null pointer is [None]. *)
Inductive ColorTransformFn : Type :=
| fn_identityConversion
| fn_bt709ToP3
| fn_bt709ToBt2100
| fn_p3ToBt709
| fn_p3ToBt2100
| fn_bt2100ToBt709
| fn_bt2100ToP3.

(** Calling through the pointer. *)
Definition call (f : ColorTransformFn) : Color -> Color :=
  match f with
  | fn_identityConversion => identityConversion
  | fn_bt709ToP3 => bt709ToP3
  | fn_bt709ToBt2100 => bt709ToBt2100
  | fn_p3ToBt709 => p3ToBt709
  | fn_p3ToBt2100 => p3ToBt2100
  | fn_bt2100ToBt709 => bt2100ToBt709
  | fn_bt2100ToP3 => bt2100ToP3
  end.

Definition getHdrConversionFn (sdr_gamut hdr_gamut : jpegr_color_gamut)
  : option ColorTransformFn :=
  match sdr_gamut with
  | JPEGR_COLORGAMUT_BT709 =>
      match hdr_gamut with
      | JPEGR_COLORGAMUT_BT709 => Some fn_identityConversion
      | JPEGR_COLORGAMUT_P3 => Some fn_p3ToBt709
      | JPEGR_COLORGAMUT_BT2100 => Some fn_bt2100ToBt709
      | JPEGR_COLORGAMUT_UNSPECIFIED => None
      end
  | JPEGR_COLORGAMUT_P3 =>
      match hdr_gamut with
      | JPEGR_COLORGAMUT_BT709 => Some fn_bt709ToP3
      | JPEGR_COLORGAMUT_P3 => Some fn_identityConversion
      | JPEGR_COLORGAMUT_BT2100 => Some fn_bt2100ToP3
      | JPEGR_COLORGAMUT_UNSPECIFIED => None
      end
  | JPEGR_COLORGAMUT_BT2100 =>
      match hdr_gamut with
      | JPEGR_COLORGAMUT_BT709 => Some fn_bt709ToBt2100
      | JPEGR_COLORGAMUT_P3 => Some fn_p3ToBt2100
      | JPEGR_COLORGAMUT_BT2100 => Some fn_identityConversion
      | JPEGR_COLORGAMUT_UNSPECIFIED => None
      end
  | JPEGR_COLORGAMUT_UNSPECIFIED => None
  end.

(** ** Recovery map calculations *)

Section Recovery.
Import F32.

Variable M : Libm.

Definition encodeRecovery (y_sdr y_hdr hdr_ratio : f32) : option Z :=
  let gain := if ltb pzero y_sdr then div y_hdr y_sdr else one in
  let gain := if ltb gain (opp hdr_ratio) then opp hdr_ratio else gain in
  let gain := if ltb hdr_ratio gain then hdr_ratio else gain in
  to_unsigned 8
    (add (mul (div (log2f M gain) (log2f M hdr_ratio)) c127_5) c127_5).

(** The overload of [applyRecovery] on a single float. *)
Definition applyRecovery_float (e recovery hdr_ratio : f32) : f32 :=
  exp2f M (add (log2f M e) (mul recovery (log2f M hdr_ratio))).

Definition applyRecovery (e : Color) (recovery hdr_ratio : f32) : Color :=
  mkColor (applyRecovery_float (r e) recovery hdr_ratio)
          (applyRecovery_float (g e) recovery hdr_ratio)
          (applyRecovery_float (b e) recovery hdr_ratio).

End Recovery.

Section Sampling.
Import F32.

Definition clamp (val low high : Z) : Z :=
  if val <? low then low else if high <? val then high else val.

Definition mapUintToFloat (map_uint : Z) : f32 :=
  div (sub (of_Z map_uint) c127_5) c127_5.

(** The gain stored at cell [(cx, cy)] of the map, decoded:
    [mapUintToFloat(data[cx + cy * width])]. *)
Definition map_cell (map : jr_uncompressed_ptr) (cx cy : Z) : option f32 :=
  option_map mapUintToFloat
    (read_u8 (data map) (size_t (cx + size_t (cy * width map)))).

Definition sampleMap (map : jr_uncompressed_ptr) (map_scale_factor x y : Z)
  : option f32 :=
  let x_map := div (of_Z x) (of_Z map_scale_factor) in
  let y_map := div (of_Z y) (of_Z map_scale_factor) in
  x_lower <- to_unsigned 64 (floor x_map) ;;
  let x_upper := size_t (x_lower + 1) in
  y_lower <- to_unsigned 64 (floor y_map) ;;
  let y_upper := size_t (y_lower + 1) in
  let x_lower := clamp x_lower 0 (size_t (width map - 1)) in
  let x_upper := clamp x_upper 0 (size_t (width map - 1)) in
  let y_lower := clamp y_lower 0 (size_t (height map - 1)) in
  let y_upper := clamp y_upper 0 (size_t (height map - 1)) in
  let x_influence := sub x_map (of_Z x_lower) in
  let y_influence := sub y_map (of_Z y_lower) in
  e1 <- map_cell map x_lower y_lower ;;
  e2 <- map_cell map x_lower y_upper ;;
  e3 <- map_cell map x_upper y_lower ;;
  e4 <- map_cell map x_upper y_upper ;;
  Some
    (add (add (add
       (div (mul e1 (add x_influence y_influence)) two)
       (div (mul e2 (sub (add x_influence one) y_influence)) two))
       (div (mul e3 (add (sub one x_influence) y_influence)) two))
       (div (mul e4 (sub (add (sub one x_influence) one) y_influence)) two)).

Definition getYuv420Pixel (image : jr_uncompressed_ptr) (x y : Z)
  : option Color :=
  let pixel_count := size_t (width image * height image) in
  let pixel_y_idx := size_t (x + size_t (y * width image)) in
  let pixel_uv_idx :=
    size_t (x / 2 + size_t ((y / 2) * size_t (width image / 2))) in
  y_uint <- read_u8 (data image) pixel_y_idx ;;
  u_uint <- read_u8 (data image) (size_t (pixel_count + pixel_uv_idx)) ;;
  v_uint <- read_u8 (data image)
              (size_t (size_t (pixel_count * 5) / 4 + pixel_uv_idx)) ;;
  Some (mkColor (div (of_Z y_uint) c255)
                (div (sub (of_Z u_uint) c128) c255)
                (div (sub (of_Z v_uint) c128) c255)).

Definition colorToRgba1010102 (e_gamma : Color) : option Z :=
  ri <- to_unsigned 32 (mul (r e_gamma) c1023) ;;
  gi <- to_unsigned 32 (mul (g e_gamma) c1023) ;;
  bi <- to_unsigned 32 (mul (b e_gamma) c1023) ;;
  Some (Z.lor (Z.lor (Z.lor
          (Z.land 1023 ri)
          (uint32_t (Z.shiftl (Z.land 1023 gi) 10)))
          (uint32_t (Z.shiftl (Z.land 1023 bi) 20)))
          (uint32_t (Z.shiftl 3 30))).

End Sampling.

(** ** The gain encoder as the specification words it

    "ratio = HDR luminance / SDR luminance, with SDR luminance of exactly 0
    treated as ratio = 1.0.  Clamp ratio to [-hdr_ratio, hdr_ratio].
    Result byte = round(log2(ratio)/log2(hdr_ratio) * 127.5 + 127.5),
    truncated to an 8-bit unsigned range by the integer narrowing." *)

Module Spec.
Import F32.

Definition ratio (y_sdr y_hdr : f32) : f32 :=
  if eqb y_sdr pzero then one else div y_hdr y_sdr.

Definition clamp_ratio (hdr_ratio x : f32) : f32 :=
  if ltb x (opp hdr_ratio) then opp hdr_ratio
  else if ltb hdr_ratio x then hdr_ratio else x.

Definition scaled_gain (M : Libm) (x hdr_ratio : f32) : f32 :=
  add (mul (div (log2f M x) (log2f M hdr_ratio)) c127_5) c127_5.

Definition encode_gain (M : Libm) (y_sdr y_hdr hdr_ratio : f32) : option Z :=
  option_map (fun q => Qround_half_away q mod 256)
    (value (scaled_gain M (clamp_ratio hdr_ratio (ratio y_sdr y_hdr))
              hdr_ratio)).

End Spec.

(** ** Sample inputs *)

(** A 2x2 gain map whose cell (0, 0) stores 255 and whose other cells
    store 0. *)
Definition corner_map : jr_uncompressed_ptr :=
  {| data := [xff; x00; x00; x00]; width := 2; height := 2 |}.

(** A 2x2 gain map all of whose cells store 1. *)
Definition flat_map : jr_uncompressed_ptr :=
  {| data := [x01; x01; x01; x01]; width := 2; height := 2 |}.

(** A 2x2 YUV420 image: four luma bytes, one U byte, one V byte. *)
Definition tiny_image : jr_uncompressed_ptr :=
  {| data := [x10; x20; x30; x40; x50; x60]; width := 2; height := 2 |}.

(** The float [0x1.000002p-16], one unit in the last place above 2^-16. *)
Definition dark : f32 := S754_finite false 8388609 (-39).

Definition half : f32 := F32.lit 1 2.
Definition quarter : f32 := F32.lit 1 4.
Definition four : f32 := F32.of_Z 4.

(** ** The rest of the kernel *)

(** Modelled from the spec: the elementwise [operator+=] and [operator/]
    of [Color] are declared in the header that is not among the sources;
    "arithmetic (add, scalar-divide) is always elementwise". *)
Definition Color_add (lhs rhs : Color) : Color :=
  mkColor (F32.add (r lhs) (r rhs)) (F32.add (g lhs) (g rhs))
          (F32.add (b lhs) (b rhs)).

Definition Color_div (lhs : Color) (rhs : f32) : Color :=
  mkColor (F32.div (r lhs) rhs) (F32.div (g lhs) rhs) (F32.div (b lhs) rhs).

Section YuvRgb.
Import F32.

(** sRGB transformations *)
Definition kSrgbR : f32 := lit 299 1000.
Definition kSrgbG : f32 := lit 587 1000.
Definition kSrgbB : f32 := lit 114 1000.

Definition srgbLuminance (e : Color) : f32 :=
  add (add (mul kSrgbR (r e)) (mul kSrgbG (g e))) (mul kSrgbB (b e)).

Definition kSrgbRCr : f32 := lit 1402 1000.
Definition kSrgbGCb : f32 := lit 34414 100000.
Definition kSrgbGCr : f32 := lit 71414 100000.
Definition kSrgbBCb : f32 := lit 1772 1000.

Definition srgbYuvToRgb (e_gamma : Color) : Color :=
  mkColor (add (y e_gamma) (mul kSrgbRCr (v e_gamma)))
          (sub (sub (y e_gamma) (mul kSrgbGCb (u e_gamma)))
               (mul kSrgbGCr (v e_gamma)))
          (add (y e_gamma) (mul kSrgbBCb (u e_gamma))).

Definition kSrgbUR : f32 := opp (lit 1687 10000).
Definition kSrgbUG : f32 := opp (lit 3313 10000).
Definition kSrgbUB : f32 := lit 5 10.
Definition kSrgbVR : f32 := lit 5 10.
Definition kSrgbVG : f32 := opp (lit 4187 10000).
Definition kSrgbVB : f32 := opp (lit 813 10000).

Definition srgbRgbToYuv (e_gamma : Color) : Color :=
  mkColor (row kSrgbR kSrgbG kSrgbB e_gamma)
          (row kSrgbUR kSrgbUG kSrgbUB e_gamma)
          (row kSrgbVR kSrgbVG kSrgbVB e_gamma).

(** Display-P3 transformations *)
Definition kP3R : f32 := lit 22897 100000.
Definition kP3G : f32 := lit 69174 100000.
Definition kP3B : f32 := lit 7929 100000.

Definition p3Luminance (e : Color) : f32 :=
  add (add (mul kP3R (r e)) (mul kP3G (g e))) (mul kP3B (b e)).

(** BT.2100 transformations *)
Definition kBt2100R : f32 := lit 2627 10000.
Definition kBt2100G : f32 := lit 6780 10000.
Definition kBt2100B : f32 := lit 593 10000.

Definition bt2100Luminance (e : Color) : f32 :=
  add (add (mul kBt2100R (r e)) (mul kBt2100G (g e))) (mul kBt2100B (b e)).

Definition kBt2100Cb : f32 := lit 18814 10000.
Definition kBt2100Cr : f32 := lit 14746 10000.

Definition bt2100RgbToYuv (e_gamma : Color) : Color :=
  let y_gamma := bt2100Luminance e_gamma in
  mkColor y_gamma
          (div (sub (b e_gamma) y_gamma) kBt2100Cb)
          (div (sub (r e_gamma) y_gamma) kBt2100Cr).

Definition kBt2100GCb : f32 := div (mul kBt2100B kBt2100Cb) kBt2100G.
Definition kBt2100GCr : f32 := div (mul kBt2100R kBt2100Cr) kBt2100G.

Definition bt2100YuvToRgb (e_gamma : Color) : Color :=
  mkColor (add (y e_gamma) (mul kBt2100Cr (v e_gamma)))
          (sub (sub (y e_gamma) (mul kBt2100GCb (u e_gamma)))
               (mul kBt2100GCr (v e_gamma)))
          (add (y e_gamma) (mul kBt2100Cb (u e_gamma))).

End YuvRgb.

Section PixelSamplers.
Import F32.

(** [reinterpret_cast<uint16_t*>(data)[i]] on a little-endian target: the
    bytes [2i] and [2i + 1] of the storage, low byte first. *)
Definition read_u16 (data : list byte) (i : Z) : option Z :=
  lo <- read_u8 data (2 * i) ;;
  hi <- read_u8 data (2 * i + 1) ;;
  Some (lo + 256 * hi).

Definition c940 : f32 := of_Z 940.
Definition c64 : f32 := of_Z 64.
Definition c0_5 : f32 := lit 5 10.

Definition getP010Pixel (image : jr_uncompressed_ptr) (x y : Z)
  : option Color :=
  let pixel_count := size_t (width image * height image) in
  let pixel_y_idx := size_t (x + size_t (y * width image)) in
  let pixel_uv_idx :=
    size_t (x / 2 + size_t ((y / 2) * size_t (width image / 2))) in
  y_raw <- read_u16 (data image) pixel_y_idx ;;
  let y_uint := Z.shiftr y_raw 6 in
  u_raw <- read_u16 (data image)
             (size_t (pixel_count + size_t (pixel_uv_idx * 2))) ;;
  let u_uint := Z.shiftr u_raw 6 in
  v_raw <- read_u16 (data image)
             (size_t (size_t (pixel_count + size_t (pixel_uv_idx * 2)) + 1)) ;;
  let v_uint := Z.shiftr v_raw 6 in
  Some (mkColor (div (of_Z y_uint) c940)
                (sub (div (sub (of_Z u_uint) c64) c940) c0_5)
                (sub (div (sub (of_Z v_uint) c64) c940) c0_5)).

Definition getPixelFn : Type := jr_uncompressed_ptr -> Z -> Z -> option Color.

(** [for (size_t d = first; d < first + n; ++d) acc = body d acc], stopping
    at the first undefined step. *)
Fixpoint for_loop {A : Type} (n : nat) (d : Z) (body : Z -> A -> option A)
    (acc : A) : option A :=
  match n with
  | O => Some acc
  | S n' => acc' <- body d acc ;; for_loop n' (d + 1) body acc'
  end.

Definition samplePixels (image : jr_uncompressed_ptr)
    (map_scale_factor x y : Z) (get_pixel_fn : getPixelFn) : option Color :=
  let e := mkColor pzero pzero pzero in
  e <- for_loop (Z.to_nat map_scale_factor) 0
         (fun dy e =>
            for_loop (Z.to_nat map_scale_factor) 0
              (fun dx e =>
                 p <- get_pixel_fn image
                        (size_t (size_t (x * map_scale_factor) + dx))
                        (size_t (size_t (y * map_scale_factor) + dy)) ;;
                 Some (Color_add e p))
              e)
         e ;;
  Some (Color_div e (of_Z (size_t (map_scale_factor * map_scale_factor)))).

Definition sampleYuv420 (image : jr_uncompressed_ptr)
    (map_scale_factor x y : Z) : option Color :=
  samplePixels image map_scale_factor x y getYuv420Pixel.

Definition sampleP010 (image : jr_uncompressed_ptr)
    (map_scale_factor x y : Z) : option Color :=
  samplePixels image map_scale_factor x y getP010Pixel.

End PixelSamplers.

(** A float that is a zero or a finite number. *)
Definition is_finite (x : f32) : bool :=
  match x with
  | S754_zero _ | S754_finite _ _ _ => true
  | _ => false
  end.

(** The integers [0 .. n-1]. *)
Definition upto (n : nat) : list Z := map Z.of_nat (seq 0 n).

(** Two floats are the same datum (not merely equal as numbers: the two
    zeros differ). *)
Definition same (x y : f32) : bool :=
  match x, y with
  | S754_zero s, S754_zero t => Bool.eqb s t
  | S754_infinity s, S754_infinity t => Bool.eqb s t
  | S754_nan, S754_nan => true
  | S754_finite s m e, S754_finite t n f =>
      Bool.eqb s t && Pos.eqb m n && Z.eqb e f
  | _, _ => false
  end.

(** More sample inputs. *)

(** A 2x2 P010 image: four luma samples, one (U, V) pair, two bytes per
    sample, low byte first. *)
Definition tiny_p010 : jr_uncompressed_ptr :=
  {| data := [x00; x10; x40; x20; x80; x30; xc0; xeb; x00; x80; xc0; x9f];
     width := 2; height := 2 |}.

(** A 2x2 YUV420 image whose chroma bytes are both 128. *)
Definition grey_image : jr_uncompressed_ptr :=
  {| data := [x10; x20; x30; x40; x80; x80]; width := 2; height := 2 |}.

(** A 2x2 gain map with four different bytes. *)
Definition ramp_map : jr_uncompressed_ptr :=
  {| data := [x00; x40; x80; xff]; width := 2; height := 2 |}.

(** The canonical binary32 representation of a positive integer below
    2^24: the mantissa is shifted up to 24 digits. *)
Definition canon (n : Z) : f32 :=
  S754_finite false (Z.to_pos (n * 2 ^ (24 - Zdigits2 n))) (Zdigits2 n - 24).

(** ** Contraction of the encoder's multiply and add

    ISO C and C++ let an implementation contract a floating expression, that
    is, evaluate [a * b + c] as one fused operation that rounds once (the
    [FP_CONTRACT] pragma; compilers do so by default on targets that have
    the instruction).  The return statement of [encodeRecovery] holds the
    one such expression of the kernel whose result is then truncated. *)

(** The fused multiply-add of binary32: the exact [x * y + z], rounded
    once.  With a zero, an infinity or a NaN among [x] and [y] the product
    is exact, and so is a non-zero product added to a zero. *)
Definition fma (x y z : f32) : f32 :=
  match x, y, z with
  | S754_finite sx mx ex, S754_finite sy my ey, S754_finite sz mz ez =>
      let sp := xorb sx sy in
      let mp := (mx * my)%positive in
      let ep := ex + ey in
      let e := Z.min ep ez in
      binary_normalize F32.prec F32.emax
        (cond_Zopp sp (Zpos (fst (shl_align mp ep e)))
         + cond_Zopp sz (Zpos (fst (shl_align mz ez e))))
        e false
  | S754_finite _ _ _, S754_finite _ _ _, S754_zero _ => F32.mul x y
  | _, _, _ => F32.add (F32.mul x y) z
  end.

(** [encodeRecovery] with the multiplication and the addition of its
    return statement contracted. *)
Definition encodeRecovery_contracted (M : Libm) (y_sdr y_hdr hdr_ratio : f32)
  : option Z :=
  let gain := if F32.ltb F32.pzero y_sdr then F32.div y_hdr y_sdr else F32.one in
  let gain := if F32.ltb gain (F32.opp hdr_ratio) then F32.opp hdr_ratio else gain in
  let gain := if F32.ltb hdr_ratio gain then hdr_ratio else gain in
  F32.to_unsigned 8
    (fma (F32.div (log2f M gain) (log2f M hdr_ratio)) c127_5 c127_5).

(** ** Floats as integers

    For the error analysis of the sampler. *)

(** The value of a float in units of 2^-298: an integer for every finite
    float whose exponent is at least -298. *)
Definition scaled (x : f32) : Z :=
  match x with
  | S754_finite s m e => (if s then - Zpos m else Zpos m) * 2 ^ (e + 298)
  | _ => 0
  end.

(** A zero, or a finite float whose exponent is not below that of the
    subnormal numbers. *)
Definition fin (x : f32) : bool :=
  match x with
  | S754_zero _ => true
  | S754_finite _ _ e => -149 <=? e
  | _ => false
  end.

(** One, in the units of [scaled]. *)
Definition unit298 : Z := 2 ^ 298.

(** The error of one rounding of a result of magnitude at most 4, in the
    units of [scaled]: 4 * 2^-23 relative, plus twice the subnormal unit. *)
Definition eps : Z := 2 ^ 277 + 2 ^ 150.

(** * Properties

    ** Digits and shifts *)

Lemma digits2_pos_size (p : positive) : digits2_pos p = Pos.size p.
Proof. induction p; simpl; congruence. Qed.

Lemma Zdigits2_log2 (n : Z) : 0 < n -> Zdigits2 n = Z.log2 n + 1.
Proof.
  destruct n as [| p | p]; try lia. intros _. simpl.
  destruct p; simpl; rewrite ?digits2_pos_size; lia.
Qed.

Lemma Zdigits2_bounds (n : Z) :
  0 < n -> 2 ^ (Zdigits2 n - 1) <= n < 2 ^ Zdigits2 n.
Proof.
  intros Hn. rewrite Zdigits2_log2 by assumption.
  replace (Z.log2 n + 1 - 1) with (Z.log2 n) by lia.
  pose proof (Z.log2_spec n Hn). lia.
Qed.

Lemma iter_pos_nat {A} (f : A -> A) (p : positive) (x : A) :
  iter_pos f p x = Nat.iter (Pos.to_nat p) f x.
Proof.
  revert x. induction p as [p IH | p IH |]; intros x; cbn [iter_pos].
  - rewrite !IH. rewrite Pos2Nat.inj_xI.
    replace (2 * Pos.to_nat p)%nat with (Pos.to_nat p + Pos.to_nat p)%nat by lia.
    rewrite <- Nat.add_1_r, !Nat.iter_add. reflexivity.
  - rewrite !IH. rewrite Pos2Nat.inj_xO.
    replace (2 * Pos.to_nat p)%nat with (Pos.to_nat p + Pos.to_nat p)%nat by lia.
    rewrite Nat.iter_add. reflexivity.
  - reflexivity.
Qed.

Lemma shr_1_nonneg (m : Z) (r s : bool) :
  0 <= m ->
  shr_1 (Build_shr_record m r s) = Build_shr_record (m / 2) (Z.odd m) (r || s).
Proof.
  intros Hm. rewrite <- Z.div2_div.
  destruct m as [| p | p]; [reflexivity | | lia].
  destruct p; reflexivity.
Qed.

Lemma shr_iter_spec (n : nat) (m : Z) :
  0 <= m ->
  let mrs := Nat.iter n shr_1 (Build_shr_record m false false) in
  shr_m mrs = m / 2 ^ Z.of_nat n /\
  (shr_r mrs || shr_s mrs = negb (m mod 2 ^ Z.of_nat n =? 0)).
Proof.
  intros Hm. induction n as [| n IH].
  - simpl. rewrite Z.div_1_r, Z.mod_1_r. split; reflexivity.
  - cbn zeta in *. rewrite Nat.iter_succ.
    destruct (Nat.iter n shr_1 _) as [m' r' s'] eqn:E.
    simpl in IH. destruct IH as [IHm IHrs].
    assert (Hpos : 0 < 2 ^ Z.of_nat n) by (apply Z.pow_pos_nonneg; lia).
    assert (Hm' : 0 <= m') by (subst m'; apply Z.div_pos; lia).
    rewrite shr_1_nonneg by assumption. cbn [shr_m shr_r shr_s].
    rewrite Nat2Z.inj_succ, Z.pow_succ_r by lia.
    rewrite (Z.mul_comm 2).
    split.
    + rewrite <- Z.div_div by lia. now subst m'.
    + rewrite Z.rem_mul_r by lia. rewrite IHrs, IHm.
      pose proof (Z.mod_pos_bound m (2 ^ Z.of_nat n) Hpos) as Hb.
      rewrite Zodd_mod.
      pose proof (Z.mod_pos_bound (m / 2 ^ Z.of_nat n) 2 ltac:(lia)) as Hb2.
      destruct (Z.eqb_spec (m mod 2 ^ Z.of_nat n) 0) as [E0 | E0];
        destruct (Z.eqb_spec ((m / 2 ^ Z.of_nat n) mod 2) 1) as [E1 | E1];
        destruct (Z.eqb_spec
                    (m mod 2 ^ Z.of_nat n
                     + 2 ^ Z.of_nat n * ((m / 2 ^ Z.of_nat n) mod 2)) 0)
          as [E2 | E2];
        simpl; try reflexivity; exfalso; nia.
Qed.

Lemma shr_spec (m e n : Z) :
  0 <= m -> 0 <= n ->
  exists rr ss,
    shr (Build_shr_record m false false) e n
      = (Build_shr_record (m / 2 ^ n) rr ss, e + n) /\
    (rr || ss = negb (m mod 2 ^ n =? 0)).
Proof.
  intros Hm Hn. destruct n as [| p | p]; [| | lia].
  - exists false, false. simpl. rewrite Z.div_1_r, Z.mod_1_r, Z.add_0_r. auto.
  - unfold shr. rewrite iter_pos_nat.
    pose proof (shr_iter_spec (Pos.to_nat p) m Hm) as H. cbn zeta in H.
    rewrite positive_nat_Z in H.
    destruct (Nat.iter _ _ _) as [m' r' s']. simpl in H. destruct H as [-> H].
    exists r', s'. auto.
Qed.

Lemma round_nearest_even_bounds (m : Z) (rr ss : bool) :
  let m' := round_nearest_even m (loc_of_shr_record (Build_shr_record m rr ss)) in
  m <= m' <= m + 1 /\ (rr || ss = false -> m' = m).
Proof.
  destruct rr, ss; simpl; try (split; [lia | intros; (discriminate || reflexivity)]).
  destruct (Z.even m); split; try lia; discriminate.
Qed.

Lemma fexp32_eq (e : Z) : fexp F32.prec F32.emax e = Z.max (e - 24) (-149).
Proof. reflexivity. Qed.

Lemma shr_nonpos (mrs : shr_record) (e n : Z) : n <= 0 -> shr mrs e n = (mrs, e).
Proof. destruct n; [reflexivity | lia | reflexivity]. Qed.

(** First rounding step: the mantissa is cut to at most 24 digits. *)
Lemma shr_fexp_spec (M E : Z) :
  0 < M ->
  let e1 := Z.max E (fexp F32.prec F32.emax (Zdigits2 M + E)) in
  exists rr ss,
    shr_fexp F32.prec F32.emax M E loc_Exact
      = (Build_shr_record (M / 2 ^ (e1 - E)) rr ss, e1) /\
    (rr || ss = negb (M mod 2 ^ (e1 - E) =? 0)) /\
    M / 2 ^ (e1 - E) < 2 ^ 24.
Proof.
  intros HM e1. unfold shr_fexp. cbn [shr_record_of_loc].
  set (n := fexp F32.prec F32.emax (Zdigits2 M + E) - E).
  pose proof (Zdigits2_bounds M HM) as [_ Hd].
  destruct (Z_le_gt_dec n 0) as [Hn | Hn].
  - exists false, false. rewrite shr_nonpos by assumption.
    assert (He : e1 = E) by (unfold e1; lia).
    rewrite He, Z.sub_diag. simpl (2 ^ 0). rewrite Z.div_1_r, Z.mod_1_r.
    repeat split.
    unfold n in Hn. rewrite fexp32_eq in Hn.
    assert (Zdigits2 M <= 24) by lia.
    apply Z.lt_le_trans with (1 := Hd). apply Z.pow_le_mono_r; lia.
  - destruct (shr_spec M E n) as (rr & ss & Hs & Hrs); try lia.
    assert (He : e1 - E = n) by (unfold e1, n; lia).
    exists rr, ss. rewrite Hs, He. replace (E + n) with e1 by lia.
    repeat split; try assumption.
    apply Z.div_lt_upper_bound; [apply Z.pow_pos_nonneg; lia |].
    rewrite <- Z.pow_add_r by lia.
    apply Z.lt_le_trans with (1 := Hd). apply Z.pow_le_mono_r; [lia |].
    unfold n. rewrite fexp32_eq. lia.
Qed.

(** Second rounding step: only a carry out of the 24th digit shifts. *)
Lemma shr_fexp_again (m2 e1 : Z) :
  0 <= m2 <= 2 ^ 24 -> -149 <= e1 ->
  shr_fexp F32.prec F32.emax m2 e1 loc_Exact
    = if m2 =? 2 ^ 24 then (Build_shr_record (2 ^ 23) false false, e1 + 1)
      else (Build_shr_record m2 false false, e1).
Proof.
  intros Hm He. unfold shr_fexp. cbn [shr_record_of_loc].
  destruct (Z.eqb_spec m2 (2 ^ 24)) as [-> | Hne].
  - change (Zdigits2 (2 ^ 24)) with 25. rewrite fexp32_eq.
    replace (Z.max (25 + e1 - 24) (-149) - e1) with 1 by lia. reflexivity.
  - apply shr_nonpos. rewrite fexp32_eq.
    destruct (Z.eq_dec m2 0) as [-> | Hz]; [simpl (Zdigits2 0); lia |].
    assert (Zdigits2 m2 <= 24).
    { rewrite Zdigits2_log2 by lia.
      assert (Z.log2 m2 < 24) by (apply Z.log2_lt_pow2; lia). lia. }
    lia.
Qed.

(** Rounding [M * 2^E] to binary32. *)
Lemma binary_round_aux_spec (sx : bool) (M E : Z) :
  0 < M ->
  let e1 := Z.max E (fexp F32.prec F32.emax (Zdigits2 M + E)) in
  exists m2,
    (M / 2 ^ (e1 - E) <= m2 <= M / 2 ^ (e1 - E) + 1) /\
    (M mod 2 ^ (e1 - E) = 0 -> m2 = M / 2 ^ (e1 - E)) /\
    m2 <= 2 ^ 24 /\
    binary_round_aux F32.prec F32.emax sx M E loc_Exact =
      if m2 =? 0 then S754_zero sx
      else if m2 =? 2 ^ 24
           then (if e1 + 1 <=? 104 then S754_finite sx (2 ^ 23) (e1 + 1)
                 else S754_infinity sx)
           else (if e1 <=? 104 then S754_finite sx (Z.to_pos m2) e1
                 else S754_infinity sx).
Proof.
  intros HM e1.
  destruct (shr_fexp_spec M E HM) as (rr & ss & Hs & Hrs & Hlt).
  fold e1 in Hs, Hrs, Hlt.
  set (m1 := M / 2 ^ (e1 - E)) in *.
  assert (Hm1 : 0 <= m1).
  { apply Z.div_pos; [lia | apply Z.pow_pos_nonneg; unfold e1; lia]. }
  pose proof (round_nearest_even_bounds m1 rr ss) as [Hb Hex]. cbn zeta in Hb, Hex.
  set (m2 := round_nearest_even m1 _) in *.
  assert (He1 : -149 <= e1) by (unfold e1; rewrite fexp32_eq; lia).
  exists m2. repeat split; try lia.
  - intros H0. apply Hex. rewrite Hrs. apply Z.eqb_eq in H0. now rewrite H0.
  - unfold binary_round_aux. rewrite Hs. cbn [shr_m]. fold m2.
    rewrite shr_fexp_again by lia.
    destruct (Z.eqb_spec m2 (2 ^ 24)) as [E24 | E24].
    + rewrite E24. reflexivity.
    + cbn [shr_m]. destruct (Z.eqb_spec m2 0) as [-> | Hz]; [reflexivity |].
      destruct m2 as [| p | p]; try lia. reflexivity.
Qed.

(** ** Exact rounding *)

Lemma Zdigits2_mul_pow2 (n j : Z) :
  0 < n -> 0 <= j -> Zdigits2 (n * 2 ^ j) = Zdigits2 n + j.
Proof.
  intros Hn Hj.
  assert (0 < 2 ^ j) by (apply Z.pow_pos_nonneg; lia).
  rewrite !Zdigits2_log2 by nia.
  rewrite Z.log2_mul_pow2 by lia. lia.
Qed.

Lemma Zdigits2_le (n d : Z) : 0 < n -> n < 2 ^ d -> Zdigits2 n <= d.
Proof.
  intros Hn Hd. rewrite Zdigits2_log2 by assumption.
  assert (0 <= d).
  { destruct (Z_lt_le_dec d 0); [| assumption]. rewrite Z.pow_neg_r in Hd; lia. }
  assert (Z.log2 n < d) by (apply Z.log2_lt_pow2; lia). lia.
Qed.

Lemma Zdigits2_pos (n : Z) : 0 < n -> 0 < Zdigits2 n.
Proof.
  intros Hn. rewrite Zdigits2_log2 by assumption.
  pose proof (Z.log2_nonneg n). lia.
Qed.

Lemma shl_align_spec (p : positive) (e e' : Z) :
  shl_align p e e'
    = (Z.to_pos (Zpos p * 2 ^ (e - Z.min e e')), Z.min e e').
Proof.
  unfold shl_align. destruct (e' - e) as [| d | d] eqn:Hd.
  - replace (Z.min e e') with e by lia. rewrite Z.sub_diag. simpl (2 ^ 0).
    rewrite Z.mul_1_r. reflexivity.
  - replace (Z.min e e') with e by lia. rewrite Z.sub_diag. simpl (2 ^ 0).
    rewrite Z.mul_1_r. reflexivity.
  - replace (Z.min e e') with e' by lia.
    replace (e - e') with (Zpos d) by lia.
    f_equal. fold (shift_pos d p).
    apply Pos2Z.inj. rewrite shift_pos_correct.
    rewrite Z2Pos.id; [rewrite Z.mul_comm; reflexivity |].
    assert (0 < 2 ^ Zpos d) by (apply Z.pow_pos_nonneg; lia). lia.
Qed.

(** Rounding a number that fits: no bit is lost. *)
Lemma binary_round_aux_exact (sx : bool) (M E : Z) :
  0 < M ->
  let e1 := Z.max E (fexp F32.prec F32.emax (Zdigits2 M + E)) in
  M mod 2 ^ (e1 - E) = 0 -> e1 <= 104 ->
  binary_round_aux F32.prec F32.emax sx M E loc_Exact
    = S754_finite sx (Z.to_pos (M / 2 ^ (e1 - E))) e1.
Proof.
  intros HM e1 Hmod He1.
  destruct (binary_round_aux_spec sx M E HM) as (m2 & Hb & Hex & Hle & Hr).
  fold e1 in Hb, Hex, Hr. rewrite Hr. specialize (Hex Hmod).
  pose proof (shr_fexp_spec M E HM) as (_ & _ & _ & _ & Hlt). fold e1 in Hlt.
  assert (Hp : 0 < 2 ^ (e1 - E)) by (apply Z.pow_pos_nonneg; unfold e1; lia).
  assert (0 < M / 2 ^ (e1 - E)).
  { apply Z.div_str_pos. split; [assumption |].
    apply Z.divide_pos_le; [assumption |]. apply Z.mod_divide; lia. }
  destruct (Z.eqb_spec m2 0); [lia |].
  destruct (Z.eqb_spec m2 (2 ^ 24)); [lia |].
  destruct (Z.leb_spec e1 104); [| lia]. now rewrite Hex.
Qed.


Lemma of_Z_canon (n : Z) : 0 < n < 2 ^ 24 -> F32.of_Z n = canon n.
Proof.
  intros [Hn Hlt]. destruct n as [| p | p]; try lia.
  unfold F32.of_Z, F32.of_scaled, binary_normalize, binary_round.
  rewrite shl_align_spec. rewrite Z.add_0_r.
  change (Zpos (digits2_pos p)) with (Zdigits2 (Zpos p)).
  set (d := Zdigits2 (Zpos p)).
  assert (Hd : 0 < d <= 24).
  { split; [apply Zdigits2_pos; lia | apply Zdigits2_le; lia]. }
  rewrite fexp32_eq.
  replace (Z.min 0 (Z.max (d - 24) (-149))) with (d - 24) by lia.
  replace (0 - (d - 24)) with (24 - d) by lia.
  assert (Hp : 0 < 2 ^ (24 - d)) by (apply Z.pow_pos_nonneg; lia).
  rewrite Z2Pos.id by nia.
  rewrite binary_round_aux_exact; rewrite ?Zdigits2_mul_pow2, ?fexp32_eq by lia;
    fold d.
  - replace (Z.max (d - 24) (Z.max (d + (24 - d) + (d - 24) - 24) (-149)) - (d - 24))
      with 0 by lia.
    simpl (2 ^ 0). rewrite Z.div_1_r. unfold canon. fold d. f_equal. lia.
  - nia.
  - replace (Z.max (d - 24) (Z.max (d + (24 - d) + (d - 24) - 24) (-149)) - (d - 24))
      with 0 by lia.
    simpl (2 ^ 0). apply Z.mod_1_r.
  - lia.
Qed.

(** ** Small integers in binary32 *)

Lemma new_location_zero (nb : Z) : new_location nb 0 = loc_Exact.
Proof. unfold new_location. destruct (Z.even nb); reflexivity. Qed.

Lemma div_eucl_exact (a b q : Z) : 0 < b -> a = q * b -> Z.div_eucl a b = (q, 0).
Proof.
  intros Hb ->. pose proof (Z.div_eucl_eq (q * b) b ltac:(lia)) as H.
  pose proof (Z.mod_pos_bound (q * b) b Hb) as Hm.
  pose proof (Z_div_mult q b ltac:(lia)) as Hq.
  pose proof (Z_mod_mult q b) as Hr.
  unfold Z.div, Z.modulo in *. destruct (Z.div_eucl (q * b) b) as [q' r'].
  congruence.
Qed.

Lemma canon_mantissa (n : Z) :
  0 < n < 2 ^ 24 ->
  Zpos (Z.to_pos (n * 2 ^ (24 - Zdigits2 n))) = n * 2 ^ (24 - Zdigits2 n) /\
  Zdigits2 (n * 2 ^ (24 - Zdigits2 n)) = 24.
Proof.
  intros [Hn Hlt].
  assert (Hd : 0 < Zdigits2 n <= 24).
  { split; [apply Zdigits2_pos; lia | apply Zdigits2_le; lia]. }
  assert (Hp : 0 < 2 ^ (24 - Zdigits2 n)) by (apply Z.pow_pos_nonneg; lia).
  split; [apply Z2Pos.id; nia | rewrite Zdigits2_mul_pow2; lia].
Qed.

(** An integer quotient of two small integers is computed exactly. *)
Lemma div_of_Z_exact (k s : Z) :
  0 < s < 2 ^ 24 -> 0 <= k -> k * s < 2 ^ 24 ->
  F32.div (F32.of_Z (k * s)) (F32.of_Z s) = F32.of_Z k.
Proof.
  intros [Hs Hs24] Hk Hks.
  rewrite (of_Z_canon s) by lia.
  destruct (Z.eq_dec k 0) as [-> | Hk0]; [reflexivity |].
  assert (Hk24 : k < 2 ^ 24) by nia.
  rewrite (of_Z_canon (k * s)), (of_Z_canon k) by nia.
  unfold canon, F32.div, SFdiv.
  destruct (canon_mantissa (k * s)) as [Ea Da]; [nia |].
  destruct (canon_mantissa s) as [Ec Dc]; [lia |].
  destruct (canon_mantissa k) as [Eb Db]; [lia |].
  set (a := Zdigits2 (k * s)) in *. set (c := Zdigits2 s) in *.
  set (b := Zdigits2 k) in *.
  assert (Ha : 0 < a <= 24) by (split; [apply Zdigits2_pos; nia | apply Zdigits2_le; nia]).
  assert (Hc : 0 < c <= 24) by (split; [apply Zdigits2_pos; lia | apply Zdigits2_le; lia]).
  assert (Hb : 0 < b <= 24) by (split; [apply Zdigits2_pos; lia | apply Zdigits2_le; lia]).
  assert (Hab : a <= b + c).
  { apply Zdigits2_le; [nia |].
    pose proof (Zdigits2_bounds k ltac:(lia)) as [_ Hkb].
    pose proof (Zdigits2_bounds s ltac:(lia)) as [_ Hsb].
    fold b in Hkb. fold c in Hsb. rewrite Z.pow_add_r by lia. nia. }
  assert (Hca : c <= a).
  { unfold a, c. rewrite !Zdigits2_log2 by nia.
    pose proof (Z.log2_le_mono s (k * s) ltac:(nia)). lia. }
  unfold SFdiv_core_binary. rewrite Ea, Ec, Da, Dc, fexp32_eq.
  replace (Z.min (Z.max (24 + (a - 24) - (24 + (c - 24)) - 24) (-149))
                 (a - 24 - (c - 24))) with (a - c - 24) by lia.
  replace (a - 24 - (c - 24) - (a - c - 24)) with 24 by lia.
  cbv iota. rewrite Z.shiftl_mul_pow2 by lia.
  assert (P1 : 0 < 2 ^ (24 - a)) by (apply Z.pow_pos_nonneg; lia).
  assert (P2 : 0 < 2 ^ (24 - c)) by (apply Z.pow_pos_nonneg; lia).
  assert (P3 : 0 < 2 ^ (24 + c - a)) by (apply Z.pow_pos_nonneg; lia).
  rewrite (div_eucl_exact _ _ (k * 2 ^ (24 + c - a))); [| nia |].
  2:{ replace (2 ^ 24) with (2 ^ (24 + c - a) * 2 ^ (a - c)).
      2:{ rewrite <- Z.pow_add_r by lia. f_equal. lia. }
      replace (2 ^ (24 - c)) with (2 ^ (24 - a) * 2 ^ (a - c)).
      2:{ rewrite <- Z.pow_add_r by lia. f_equal. lia. }
      ring. }
  rewrite new_location_zero.
  assert (HM : 0 < k * 2 ^ (24 + c - a)) by nia.
  assert (HD : Zdigits2 (k * 2 ^ (24 + c - a)) = b + (24 + c - a)).
  { apply Zdigits2_mul_pow2; lia. }
  assert (P4 : 0 < 2 ^ (b + c - a)) by (apply Z.pow_pos_nonneg; lia).
  assert (P5 : 0 < 2 ^ (24 - b)) by (apply Z.pow_pos_nonneg; lia).
  assert (Hsplit : k * 2 ^ (24 + c - a) = k * 2 ^ (24 - b) * 2 ^ (b + c - a)).
  { rewrite <- Z.mul_assoc, <- Z.pow_add_r by lia. do 2 f_equal. lia. }
  rewrite binary_round_aux_exact; rewrite ?HD, ?fexp32_eq; try assumption;
    replace (Z.max (a - c - 24) (Z.max (b + (24 + c - a) + (a - c - 24) - 24) (-149)))
      with (b - 24) by lia;
    replace (b - 24 - (a - c - 24)) with (b + c - a) by lia.
  - rewrite Hsplit, Z_div_mult by lia. reflexivity.
  - rewrite Hsplit. apply Z_mod_mult.
  - lia.
Qed.

(** An integer below 2^24 survives the round trip through [float]. *)
Lemma floor_of_Z (k : Z) : 0 <= k < 2 ^ 24 -> F32.floor (F32.of_Z k) = F32.of_Z k.
Proof.
  intros [Hk Hlt]. destruct (Z.eq_dec k 0) as [-> | Hk0]; [reflexivity |].
  rewrite of_Z_canon by lia. unfold canon, F32.floor.
  destruct (canon_mantissa k) as [Eb Db]; [lia |].
  set (b := Zdigits2 k) in *.
  assert (Hb : 0 < b <= 24) by (split; [apply Zdigits2_pos; lia | apply Zdigits2_le; lia]).
  destruct (Z.leb_spec 0 (b - 24)); [reflexivity |].
  rewrite Eb, Z.shiftr_div_pow2, Z.shiftl_mul_pow2 by lia.
  replace (- (b - 24)) with (24 - b) by lia.
  assert (0 < 2 ^ (24 - b)) by (apply Z.pow_pos_nonneg; lia).
  rewrite Z_div_mult by lia. now rewrite Z.eqb_refl.
Qed.

Lemma trunc_of_Z (k : Z) : 0 <= k < 2 ^ 24 -> F32.trunc (F32.of_Z k) = Some k.
Proof.
  intros [Hk Hlt]. destruct (Z.eq_dec k 0) as [-> | Hk0]; [reflexivity |].
  rewrite of_Z_canon by lia. unfold canon, F32.trunc, F32.mag_trunc.
  destruct (canon_mantissa k) as [Eb Db]; [lia |].
  set (b := Zdigits2 k) in *.
  assert (Hb : 0 < b <= 24) by (split; [apply Zdigits2_pos; lia | apply Zdigits2_le; lia]).
  rewrite Eb. f_equal.
  destruct (Z.leb_spec 0 (b - 24)).
  - replace (b - 24) with 0 by lia. replace (24 - b) with 0 by lia.
    rewrite Z.shiftl_0_r. simpl (2 ^ 0). lia.
  - rewrite Z.shiftr_div_pow2 by lia.
    replace (- (b - 24)) with (24 - b) by lia.
    assert (0 < 2 ^ (24 - b)) by (apply Z.pow_pos_nonneg; lia).
    apply Z_div_mult; lia.
Qed.

Lemma to_unsigned_of_Z (bits k : Z) :
  24 <= bits -> 0 <= k < 2 ^ 24 -> F32.to_unsigned bits (F32.of_Z k) = Some k.
Proof.
  intros Hbits Hk. unfold F32.to_unsigned. rewrite trunc_of_Z by assumption.
  assert (2 ^ 24 <= 2 ^ bits) by (apply Z.pow_le_mono_r; lia).
  destruct (Z.leb_spec 0 k); [| lia]. destruct (Z.ltb_spec k (2 ^ bits)); [| lia].
  reflexivity.
Qed.

Lemma sub_of_Z_diag (k : Z) : 0 <= k < 2 ^ 24 -> F32.sub (F32.of_Z k) (F32.of_Z k) = F32.pzero.
Proof.
  intros [Hk Hlt]. destruct (Z.eq_dec k 0) as [-> | Hk0]; [reflexivity |].
  rewrite of_Z_canon by lia. unfold canon, F32.sub, SFsub.
  rewrite Z.min_id, shl_align_spec, Z.sub_diag. reflexivity.
Qed.

(** ** Floats of the unit interval scaled by 1023 *)

Lemma one_eq : F32.one = S754_finite false 8388608 (-23).
Proof. reflexivity. Qed.

Lemma c1023_eq : c1023 = S754_finite false 16760832 (-14).
Proof. reflexivity. Qed.

Lemma wf_finite_digits (s : bool) (m : positive) (e : Z) :
  F32.wf (S754_finite s m e) -> Zpos m < 2 ^ 24 /\ -149 <= e <= 104.
Proof.
  unfold F32.wf, valid_binary, bounded, canonical_mantissa.
  intros H. apply andb_true_iff in H as [Hc He].
  apply Z.eqb_eq in Hc. apply Z.leb_le in He. rewrite fexp32_eq in Hc.
  change (Zpos (digits2_pos m)) with (Zdigits2 (Zpos m)) in Hc.
  pose proof (Zdigits2_bounds (Zpos m) ltac:(lia)) as [_ Hd].
  split; [| change (F32.emax - F32.prec) with 104 in He; lia].
  apply Z.lt_le_trans with (1 := Hd). apply Z.pow_le_mono_r; lia.
Qed.

Lemma leb_finite_cases (m n : positive) (e f : Z) :
  F32.leb (S754_finite false m e) (S754_finite false n f) = true ->
  e < f \/ (e = f /\ Zpos m <= Zpos n).
Proof.
  unfold F32.leb, SFleb. cbn [SFcompare].
  destruct (Z.compare_spec e f) as [Heq | Hlt | Hgt]; intros H1.
  - right. split; [assumption |]. intros Hc.
    change (PosDef.Pos.compare_cont Eq m n = Gt) in Hc.
    rewrite Hc in H1. discriminate.
  - now left.
  - discriminate.
Qed.

(** A well-formed float in [0, 1]: either a zero, or [m * 2^e] with
    [m <= 2^(-e)]. *)
Lemma unit_interval_cases (c : f32) :
  F32.wf c -> F32.leb F32.pzero c = true -> F32.leb c F32.one = true ->
  (exists s, c = S754_zero s) \/
  (exists m e, c = S754_finite false m e /\ e <= -23 /\ Zpos m <= 2 ^ (- e)).
Proof.
  intros Hwf H0 H1. rewrite one_eq in H1. destruct c as [s | s | | s m e].
  - left. now exists s.
  - destruct s; discriminate.
  - discriminate.
  - right. destruct s; [discriminate |]. exists m, e. split; [reflexivity |].
    apply wf_finite_digits in Hwf as [Hm He].
    apply leb_finite_cases in H1 as [Hlt | [-> Hle]].
    + split; [lia |]. apply Z.le_trans with (2 ^ 24); [lia |].
      apply Z.pow_le_mono_r; lia.
    + split; [lia |]. exact Hle.
Qed.

Lemma channel_scaled (c : f32) :
  F32.wf c -> F32.leb F32.pzero c = true -> F32.leb c F32.one = true ->
  exists ci, F32.trunc (F32.mul c c1023) = Some ci /\ 0 <= ci <= 1023.
Proof.
  intros Hwf H0 H1.
  destruct (unit_interval_cases c Hwf H0 H1) as [[s ->] | (m & e & -> & He & Hm)].
  - exists 0. split; [reflexivity | lia].
  - rewrite c1023_eq. unfold F32.mul. cbn [SFmul xorb].
    fold F32.prec F32.emax.
    rewrite Pos2Z.inj_mul.
    set (M := Zpos m * Zpos 16760832). set (E := e + -14).
    assert (HM : 0 < M) by (unfold M; lia).
    assert (HE : 0 < 2 ^ (- E)) by (apply Z.pow_pos_nonneg; unfold E; lia).
    assert (HMle : M <= 1023 * 2 ^ (- E)).
    { unfold M, E. replace (- (e + -14)) with (- e + 14) by lia.
      rewrite Z.pow_add_r by lia. change (2 ^ 14) with 16384.
      change (Zpos 16760832) with (1023 * 16384).
      assert (Zpos m * (1023 * 16384) <= 2 ^ (- e) * (1023 * 16384))
        by (apply Z.mul_le_mono_nonneg_r; lia).
      lia. }
    destruct (binary_round_aux_spec false M E HM) as (m2 & Hb & Hex & Hle & Hr).
    set (e1 := Z.max E (fexp F32.prec F32.emax (Zdigits2 M + E))) in *.
    assert (HdM : Zdigits2 M <= 10 - E).
    { apply Zdigits2_le; [assumption |].
      replace (10 - E) with (10 + - E) by lia.
      rewrite Z.pow_add_r by (unfold E; lia). change (2 ^ 10) with 1024. lia. }
    assert (He1 : E <= e1 <= -14).
    { unfold e1. rewrite fexp32_eq. unfold E in *. lia. }
    set (n := e1 - E) in *.
    assert (Hn : 0 < 2 ^ n) by (apply Z.pow_pos_nonneg; unfold n; lia).
    assert (He1p : 0 < 2 ^ (- e1)) by (apply Z.pow_pos_nonneg; lia).
    assert (Hsplit : 2 ^ (- E) = 2 ^ (- e1) * 2 ^ n).
    { rewrite <- Z.pow_add_r by (unfold n; lia). f_equal. unfold n. lia. }
    rewrite Hsplit in HMle.
    assert (Hm2 : 0 <= m2 <= 1023 * 2 ^ (- e1)).
    { pose proof (Z.div_mod M (2 ^ n) ltac:(lia)) as Hdm.
      pose proof (Z.mod_pos_bound M (2 ^ n) Hn) as Hmb.
      assert (0 <= M / 2 ^ n) by (apply Z.div_pos; lia).
      split; [lia |].
      destruct (Z.eq_dec (M mod 2 ^ n) 0) as [Hz | Hnz].
      - rewrite (Hex Hz). apply Z.div_le_upper_bound; lia.
      - assert (M / 2 ^ n < 1023 * 2 ^ (- e1)); [| lia].
        apply (Z.mul_lt_mono_pos_l (2 ^ n)); lia. }
    rewrite Hr. clear Hr.
    destruct (Z.eqb_spec m2 0) as [-> | Hz].
    { exists 0. split; [reflexivity | lia]. }
    destruct (Z.eqb_spec m2 (2 ^ 24)) as [E24 | E24].
    + destruct (Z.leb_spec (e1 + 1) 104); [| lia].
      cbn [F32.trunc]. unfold F32.mag_trunc.
      destruct (Z.leb_spec 0 (e1 + 1)); [lia |].
      eexists. split; [reflexivity |].
      rewrite Z.shiftr_div_pow2 by lia.
      assert (Hp : 0 < 2 ^ (- (e1 + 1))) by (apply Z.pow_pos_nonneg; lia).
      assert (Hhalf : 2 ^ (- e1) = 2 * 2 ^ (- (e1 + 1))).
      { rewrite <- Z.pow_succ_r by lia. f_equal. lia. }
      split; [apply Z.div_pos; lia |].
      apply Z.div_le_upper_bound; [lia |].
      rewrite E24, Hhalf in Hm2. change (2 ^ 24) with (2 * Zpos (2 ^ 23)) in Hm2.
      lia.
    + destruct (Z.leb_spec e1 104); [| lia].
      cbn [F32.trunc]. unfold F32.mag_trunc.
      destruct (Z.leb_spec 0 e1); [lia |].
      eexists. split; [reflexivity |].
      rewrite Z.shiftr_div_pow2 by lia. rewrite Z2Pos.id by lia.
      split; [apply Z.div_pos; lia |].
      apply Z.div_le_upper_bound; lia.
Qed.

(** ** Truncation and bit fields *)


Lemma trunc_value (x : f32) :
  F32.trunc x = option_map Qtruncate (F32.value x).
Proof.
  destruct x as [s | s | | s m e]; try reflexivity.
  unfold F32.trunc, F32.value, F32.mag_trunc, option_map. f_equal.
  destruct (Z.leb_spec 0 e) as [He | He].
  - rewrite Z.shiftl_mul_pow2 by assumption.
    assert (Hp : 0 < 2 ^ e) by (apply Z.pow_pos_nonneg; lia).
    set (A := Zpos m * 2 ^ e). assert (HA : 0 < A) by (unfold A; nia).
    destruct s; unfold Qtruncate, Qle_bool, Qceiling, Qfloor, Qopp, inject_Z;
      cbn [Qnum Qden].
    + destruct (Z.leb_spec (0 * 1) (- A * 1)); [lia |].
      rewrite Z.opp_involutive, Z.div_1_r. reflexivity.
    + destruct (Z.leb_spec (0 * 1) (A * 1)); [| lia]. now rewrite Z.div_1_r.
  - rewrite Z.shiftr_div_pow2 by lia.
    assert (Hp : 0 < 2 ^ (- e)) by (apply Z.pow_pos_nonneg; lia).
    destruct s; unfold Qtruncate, Qle_bool, Qceiling, Qfloor, Qopp;
      cbn [Qnum Qden]; rewrite ?Z2Pos.id by assumption.
    + destruct (Z.leb_spec (0 * 2 ^ (- e)) (- Zpos m * 1)); [lia |].
      rewrite Z.opp_involutive. reflexivity.
    + destruct (Z.leb_spec (0 * 2 ^ (- e)) (Zpos m * 1)); [| lia]. reflexivity.
Qed.

Lemma lor_shiftl_disjoint (a c n : Z) :
  0 <= a < 2 ^ n -> 0 <= n -> Z.lor a (Z.shiftl c n) = a + c * 2 ^ n.
Proof.
  intros Ha Hn.
  assert (Hd : Z.land a (Z.shiftl c n) = 0).
  { apply Z.bits_inj'. intros i Hi. rewrite Z.land_spec, Z.bits_0.
    destruct (Z.lt_ge_cases i n) as [Hlt | Hge].
    - rewrite Z.shiftl_spec_low by assumption. apply andb_false_r.
    - rewrite <- (Z.mod_small a (2 ^ n)) by assumption.
      rewrite Z.mod_pow2_bits_high by lia. reflexivity. }
  rewrite <- Z.lxor_lor, <- Z.add_nocarry_lxor by assumption.
  now rewrite Z.shiftl_mul_pow2.
Qed.

Lemma pack_fields (ri gi bi : Z) :
  0 <= ri <= 1023 -> 0 <= gi <= 1023 -> 0 <= bi <= 1023 ->
  let w :=
    Z.lor (Z.lor (Z.lor (Z.land 1023 ri)
                        (uint32_t (Z.shiftl (Z.land 1023 gi) 10)))
                 (uint32_t (Z.shiftl (Z.land 1023 bi) 20)))
          (uint32_t (Z.shiftl 3 30)) in
  w = ri + gi * 2 ^ 10 + bi * 2 ^ 20 + 3 * 2 ^ 30.
Proof.
  intros Hr Hg Hb.
  assert (Hmask : forall z, 0 <= z <= 1023 -> Z.land 1023 z = z).
  { intros z Hz. rewrite Z.land_comm. change 1023 with (Z.ones 10).
    rewrite Z.land_ones by lia. apply Z.mod_small. change (2 ^ 10) with 1024. lia. }
  cbn zeta. rewrite !Hmask by assumption.
  rewrite !Z.shiftl_mul_pow2 by lia. unfold uint32_t.
  change (2 ^ 10) with 1024. change (2 ^ 20) with 1048576.
  change (2 ^ 30) with 1073741824. change (2 ^ 32) with 4294967296.
  rewrite !Z.mod_small by lia.
  change (gi * 1024) with (gi * 2 ^ 10).
  rewrite <- (Z.shiftl_mul_pow2 gi 10), lor_shiftl_disjoint by (change (2 ^ 10) with 1024; lia).
  change (bi * 1048576) with (bi * 2 ^ 20).
  rewrite <- (Z.shiftl_mul_pow2 bi 20), lor_shiftl_disjoint
    by (change (2 ^ 10) with 1024; change (2 ^ 20) with 1048576; lia).
  change (3 * 1073741824) with (3 * 2 ^ 30).
  rewrite <- (Z.shiftl_mul_pow2 3 30), lor_shiftl_disjoint
    by (change (2 ^ 10) with 1024; change (2 ^ 20) with 1048576;
        change (2 ^ 30) with 1073741824; lia).
  rewrite !Z.shiftl_mul_pow2 by lia. reflexivity.
Qed.

Lemma unpack_fields (ri gi bi : Z) :
  0 <= ri <= 1023 -> 0 <= gi <= 1023 -> 0 <= bi <= 1023 ->
  let w := ri + gi * 2 ^ 10 + bi * 2 ^ 20 + 3 * 2 ^ 30 in
  Z.land w 1023 = ri /\
  Z.land (Z.shiftr w 10) 1023 = gi /\
  Z.land (Z.shiftr w 20) 1023 = bi /\
  Z.shiftr w 30 = 3 /\
  0 <= w < 2 ^ 32.
Proof.
  intros Hr Hg Hb w. change 1023 with (Z.ones 10).
  rewrite !Z.land_ones, !Z.shiftr_div_pow2 by lia. subst w.
  change (2 ^ 10) with 1024. change (2 ^ 20) with 1048576.
  change (2 ^ 30) with 1073741824. change (2 ^ 32) with 4294967296.
  change (Z.ones 10) with 1023 in *.
  repeat split; try lia.
  - symmetry. apply (Z.mod_unique_pos _ _ (gi + bi * 1024 + 3 * 1048576)); lia.
  - symmetry.
    apply (Z.mod_unique_pos _ _ (bi + 3 * 1024)); [lia |].
    symmetry. symmetry.
    assert ((ri + gi * 1024 + bi * 1048576 + 3 * 1073741824) / 1024
            = gi + bi * 1024 + 3 * 1048576) as ->; [| lia].
    symmetry. apply (Z.div_unique_pos _ _ _ ri); lia.
  - symmetry. apply (Z.mod_unique_pos _ _ 3); [lia |].
    assert ((ri + gi * 1024 + bi * 1048576 + 3 * 1073741824) / 1048576
            = bi + 3 * 1024) as ->; [| lia].
    symmetry. apply (Z.div_unique_pos _ _ _ (ri + gi * 1024)); lia.
  - symmetry. apply (Z.div_unique_pos _ _ _ (ri + gi * 1024 + bi * 1048576)); lia.
Qed.


(** ** Comparisons and the clamp of the encoder *)



Lemma div_self (m : positive) (e : Z) (s : bool) :
  F32.div (S754_finite s m e) (S754_finite s m e) = F32.one.
Proof.
  unfold F32.div, SFdiv, SFdiv_core_binary.
  rewrite !Z.sub_diag. rewrite fexp32_eq.
  change (Z.min (Z.max (0 - 24) (-149)) 0) with (-24).
  change (0 - -24) with 24. cbv iota.
  rewrite Z.shiftl_mul_pow2 by lia.
  rewrite (div_eucl_exact _ _ (2 ^ 24)) by lia.
  rewrite new_location_zero, xorb_nilpotent. reflexivity.
Qed.

Lemma ltb_antisym (x y : f32) : F32.ltb x y = true -> F32.ltb y x = false.
Proof.
  unfold F32.ltb, SFltb.
  destruct x as [sx | sx | | sx mx ex], y as [sy | sy | | sy my ey];
    cbn [SFcompare]; try discriminate; try reflexivity;
    try (destruct sx; try discriminate; try reflexivity);
    try (destruct sy; try discriminate; try reflexivity).
  - rewrite (Z.compare_antisym ex ey).
    destruct (ex ?= ey); cbn [CompOpp]; try discriminate; try reflexivity.
    pose proof (Pos.compare_cont_antisym mx my Eq) as Ha. cbn [CompOpp] in Ha.
    rewrite <- Ha.
    destruct (PosDef.Pos.compare_cont Eq mx my); cbn; try discriminate; reflexivity.
  - rewrite (Z.compare_antisym ex ey).
    destruct (ex ?= ey); cbn [CompOpp]; try discriminate; try reflexivity.
    pose proof (Pos.compare_cont_antisym mx my Eq) as Ha. cbn [CompOpp] in Ha.
    rewrite <- Ha.
    destruct (PosDef.Pos.compare_cont Eq mx my); cbn; try discriminate; reflexivity.
Qed.

(** A ratio above one is positive, and so is below its own negation. *)
Lemma gt_one_cases (x : f32) :
  F32.ltb F32.one x = true ->
  x = S754_infinity false \/ exists m e, x = S754_finite false m e.
Proof.
  rewrite one_eq. destruct x as [s | s | | s m e]; try discriminate.
  - destruct s; [discriminate | now left].
  - destruct s; [discriminate |]. right. now exists m, e.
Qed.

Lemma ltb_opp_gt_one (x hdr_ratio : f32) :
  F32.ltb F32.one hdr_ratio = true ->
  F32.ltb hdr_ratio (F32.opp hdr_ratio) = false /\
  F32.ltb F32.one (F32.opp hdr_ratio) = false /\
  F32.ltb hdr_ratio F32.one = false.
Proof.
  intros H. split; [| split; [| now apply ltb_antisym]].
  - destruct (gt_one_cases _ H) as [-> | (m & e & ->)]; reflexivity.
  - rewrite one_eq. destruct (gt_one_cases _ H) as [-> | (m & e & ->)]; reflexivity.
Qed.

Lemma clamp_sequential (hdr_ratio x : f32) :
  F32.ltb F32.one hdr_ratio = true ->
  (let gain := if F32.ltb x (F32.opp hdr_ratio) then F32.opp hdr_ratio else x in
   if F32.ltb hdr_ratio gain then hdr_ratio else gain)
  = Spec.clamp_ratio hdr_ratio x.
Proof.
  intros H. unfold Spec.clamp_ratio. cbn zeta.
  destruct (F32.ltb x (F32.opp hdr_ratio)); [| reflexivity].
  destruct (ltb_opp_gt_one x hdr_ratio H) as [-> _]. reflexivity.
Qed.

Lemma to_unsigned_value (bits : Z) (x : f32) (z : Z) :
  F32.to_unsigned bits x = Some z <->
  exists q, F32.value x = Some q /\ z = Qtruncate q /\ 0 <= z < 2 ^ bits.
Proof.
  unfold F32.to_unsigned. rewrite trunc_value.
  destruct (F32.value x) as [q |]; cbn [option_map].
  - destruct (Z.leb_spec 0 (Qtruncate q)); destruct (Z.ltb_spec (Qtruncate q) (2 ^ bits));
      cbn [andb]; split.
    all: try (intros [= <-]; exists q; repeat split; (reflexivity || lia)).
    all: try discriminate.
    all: intros (q' & [= <-] & -> & Hr); (reflexivity || lia).
  - split; [discriminate | intros (q' & Hq & _); discriminate].
Qed.


(** ** A gain of zero and a ratio of one *)

Lemma add_pzero_r (x : f32) : x <> F32.nzero -> F32.add x F32.pzero = x.
Proof.
  intros Hx. destruct x as [s | s | | s m e]; try reflexivity.
  destruct s; [now elim Hx | reflexivity].
Qed.

Lemma finite_pos_inv (x : f32) :
  F32.finite_pos x = true -> exists m e, x = S754_finite false m e.
Proof.
  destruct x as [s | s | | s m e]; try discriminate.
  destruct s; [discriminate |]. intros _. now exists m, e.
Qed.

Lemma applyRecovery_float_zero_gain (M : Libm) (c hdr_ratio : f32) :
  F32.finite_pos (log2f M hdr_ratio) = true -> log2f M c <> F32.nzero ->
  applyRecovery_float M c F32.pzero hdr_ratio = exp2f M (log2f M c).
Proof.
  intros HL Hc. unfold applyRecovery_float.
  destruct (finite_pos_inv _ HL) as (m & e & ->).
  change (F32.mul F32.pzero (S754_finite false m e)) with F32.pzero.
  now rewrite add_pzero_r.
Qed.

Lemma encodeRecovery_unit_ratio (M : Libm) (hdr_ratio y_sdr : f32) :
  F32.ltb F32.one hdr_ratio = true ->
  log2f M F32.one = F32.pzero ->
  F32.finite_pos (log2f M hdr_ratio) = true ->
  F32.finite_pos y_sdr = true ->
  encodeRecovery M y_sdr y_sdr hdr_ratio = Some 127.
Proof.
  intros HR H1 HL Hy. unfold encodeRecovery.
  destruct (finite_pos_inv _ Hy) as (m & e & ->).
  change (F32.ltb F32.pzero (S754_finite false m e)) with true. cbv iota zeta.
  rewrite div_self.
  destruct (ltb_opp_gt_one F32.one hdr_ratio HR) as (_ & -> & ->).
  rewrite H1. destruct (finite_pos_inv _ HL) as (mL & eL & ->).
  reflexivity.
Qed.


(** ** Uniform gain maps *)


(** With the weights 0, 1/2, 1/2 and 1 four equal gains add up to twice
    the gain, for each of the 256 bytes. *)
Lemma uniform_sum (c : byte) :
  let e := mapUintToFloat (Z.of_N (Byte.to_N c)) in
  F32.add (F32.add (F32.add
     (F32.div (F32.mul e F32.pzero) F32.two)
     (F32.div (F32.mul e F32.one) F32.two))
     (F32.div (F32.mul e F32.one) F32.two))
     (F32.div (F32.mul e F32.two) F32.two)
  = F32.mul F32.two e.
Proof. destruct c; vm_compute; reflexivity. Qed.

Lemma clamp_id (val high : Z) : 0 <= val <= high -> clamp val 0 high = val.
Proof.
  intros Hv. unfold clamp.
  destruct (Z.ltb_spec val 0); [lia |]. destruct (Z.ltb_spec high val); lia.
Qed.

Lemma size_t_small (z : Z) : 0 <= z < 2 ^ 64 -> size_t z = z.
Proof. intros H. unfold size_t. now apply Z.mod_small. Qed.

Lemma read_u8_uniform (buf : list byte) (c : byte) (i : Z) :
  Forall (eq c) buf -> 0 <= i < Z.of_nat (length buf) ->
  read_u8 buf i = Some (Z.of_N (Byte.to_N c)).
Proof.
  intros Hall Hi. unfold read_u8.
  destruct (Z.ltb_spec i 0); [lia |].
  destruct (nth_error buf (Z.to_nat i)) as [c' |] eqn:E.
  - apply nth_error_In in E. rewrite Forall_forall in Hall.
    now rewrite (Hall c' E).
  - apply nth_error_None in E. lia.
Qed.

Lemma map_cell_uniform (map : jr_uncompressed_ptr) (c : byte) (cx cy : Z) :
  Forall (eq c) (data map) ->
  Z.of_nat (length (data map)) = width map * height map ->
  width map * height map < 2 ^ 64 ->
  0 <= cx < width map -> 0 <= cy < height map ->
  map_cell map cx cy = Some (mapUintToFloat (Z.of_N (Byte.to_N c))).
Proof.
  intros Hall Hlen Hfit Hx Hy. unfold map_cell.
  assert (0 <= cy * width map /\ cx + cy * width map < width map * height map) by nia.
  rewrite (size_t_small (cy * width map)) by nia.
  rewrite size_t_small by nia.
  rewrite (read_u8_uniform _ c) by (try assumption; lia). reflexivity.
Qed.

Lemma clamp_min (val high : Z) :
  0 <= val -> 0 <= high -> clamp val 0 high = Z.min val high.
Proof.
  intros Hv Hh. unfold clamp.
  destruct (Z.ltb_spec val 0); [lia |]. destruct (Z.ltb_spec high val); lia.
Qed.

(** At coordinates on the grid of the map both influences are +0, and the
    four corners are weighted by 0, 1/2, 1/2 and 1: the aligned cell
    itself does not contribute. *)
Lemma sampleMap_on_grid (map : jr_uncompressed_ptr) (map_scale_factor x y : Z) :
  0 < width map < 2 ^ 64 -> 0 < height map < 2 ^ 64 ->
  0 < map_scale_factor < 2 ^ 24 -> 0 <= x < 2 ^ 24 -> 0 <= y < 2 ^ 24 ->
  (map_scale_factor | x) -> (map_scale_factor | y) ->
  x / map_scale_factor < width map -> y / map_scale_factor < height map ->
  let cx := x / map_scale_factor in
  let cy := y / map_scale_factor in
  let cx' := Z.min (cx + 1) (width map - 1) in
  let cy' := Z.min (cy + 1) (height map - 1) in
  sampleMap map map_scale_factor x y =
    (e1 <- map_cell map cx cy ;;
     e2 <- map_cell map cx cy' ;;
     e3 <- map_cell map cx' cy ;;
     e4 <- map_cell map cx' cy' ;;
     Some (F32.add (F32.add (F32.add
             (F32.div (F32.mul e1 F32.pzero) F32.two)
             (F32.div (F32.mul e2 F32.one) F32.two))
             (F32.div (F32.mul e3 F32.one) F32.two))
             (F32.div (F32.mul e4 F32.two) F32.two))).
Proof.
  intros Hw Hh Hs Hx Hy [kx Ex] [ky Ey] Hxw Hyh.
  subst x y. rewrite Z_div_mult in Hxw, Hyh by lia. cbv zeta.
  rewrite !Z_div_mult by lia.
  assert (Hkx : 0 <= kx < 2 ^ 24) by nia.
  assert (Hky : 0 <= ky < 2 ^ 24) by nia.
  unfold sampleMap.
  rewrite !div_of_Z_exact, !floor_of_Z, !to_unsigned_of_Z by lia.
  cbn [bind].
  rewrite !(size_t_small (_ + 1)), !(size_t_small (_ - 1)) by lia.
  rewrite (clamp_id kx), (clamp_id ky) by lia.
  rewrite !clamp_min by lia.
  rewrite !sub_of_Z_diag by lia.
  reflexivity.
Qed.


(** ** Reads in a planar buffer *)

Lemma read_u8_in_range (buf : list byte) (i : Z) :
  0 <= i < Z.of_nat (length buf) -> exists c, read_u8 buf i = Some c.
Proof.
  intros Hi. unfold read_u8. destruct (Z.ltb_spec i 0); [lia |].
  destruct (nth_error buf (Z.to_nat i)) as [c |] eqn:E.
  - eexists. reflexivity.
  - apply nth_error_None in E. lia.
Qed.

Lemma read_u8_skipn (buf : list byte) (off i : Z) :
  0 <= off -> 0 <= i ->
  read_u8 (skipn (Z.to_nat off) buf) i = read_u8 buf (off + i).
Proof.
  intros Hoff Hi. unfold read_u8.
  destruct (Z.ltb_spec i 0); [lia |]. destruct (Z.ltb_spec (off + i) 0); [lia |].
  rewrite nth_error_skipn, Z2Nat.inj_add by assumption. reflexivity.
Qed.

Lemma read_u8_firstn (buf : list byte) (len i : Z) :
  0 <= i < len -> read_u8 (firstn (Z.to_nat len) buf) i = read_u8 buf i.
Proof.
  intros Hi. unfold read_u8. destruct (Z.ltb_spec i 0); [lia |].
  rewrite nth_error_firstn.
  destruct (Nat.ltb_spec (Z.to_nat i) (Z.to_nat len)); [reflexivity | lia].
Qed.


(** * The claims *)

(** ** Gamut-conversion lookup *)

(** C7.  For each of the gamuts BT.709, Display-P3 and BT.2100, looking up
    the conversion from the gamut to itself returns the identity
    transform, and calling the returned transform on any colour gives back
    that colour, every channel unchanged. *)
Theorem getHdrConversionFn_same_gamut (G : jpegr_color_gamut) :
  In G [JPEGR_COLORGAMUT_BT709; JPEGR_COLORGAMUT_P3; JPEGR_COLORGAMUT_BT2100] ->
  exists f,
    getHdrConversionFn G G = Some f /\
    f = fn_identityConversion /\
    forall e : Color,
      call f e = e /\
      r (call f e) = r e /\ g (call f e) = g e /\ b (call f e) = b e.
Proof.
  intros HG. exists fn_identityConversion.
  split; [| split; [reflexivity | intros e; repeat split]].
  simpl in HG.
  destruct HG as [<- | [<- | [<- | []]]]; reflexivity.
Qed.

Lemma getHdrConversionFn_same_gamut_witness :
  exists f,
    getHdrConversionFn JPEGR_COLORGAMUT_P3 JPEGR_COLORGAMUT_P3 = Some f /\
    f = fn_identityConversion /\
    forall e : Color,
      call f e = e /\
      r (call f e) = r e /\ g (call f e) = g e /\ b (call f e) = b e.
Proof.
  apply (getHdrConversionFn_same_gamut JPEGR_COLORGAMUT_P3).
  simpl. right. left. reflexivity.
Defined.

(** C8.  The lookup returns the null pointer exactly when one of the two
    gamuts is unspecified; in particular a pair involving the unspecified
    gamut never yields the identity transform. *)
Theorem getHdrConversionFn_null_iff_unspecified
    (sdr_gamut hdr_gamut : jpegr_color_gamut) :
  (getHdrConversionFn sdr_gamut hdr_gamut = None <->
     sdr_gamut = JPEGR_COLORGAMUT_UNSPECIFIED \/
     hdr_gamut = JPEGR_COLORGAMUT_UNSPECIFIED) /\
  (sdr_gamut = JPEGR_COLORGAMUT_UNSPECIFIED \/
   hdr_gamut = JPEGR_COLORGAMUT_UNSPECIFIED ->
     getHdrConversionFn sdr_gamut hdr_gamut <> Some fn_identityConversion).
Proof.
  split; [split |].
  - destruct sdr_gamut, hdr_gamut; simpl; intros H;
      first [discriminate H | now left | now right].
  - intros [-> | ->]; [reflexivity | destruct sdr_gamut; reflexivity].
  - intros [-> | ->]; [| destruct sdr_gamut]; discriminate.
Qed.

Lemma getHdrConversionFn_null_iff_unspecified_witness :
  getHdrConversionFn JPEGR_COLORGAMUT_BT709 JPEGR_COLORGAMUT_UNSPECIFIED = None /\
  getHdrConversionFn JPEGR_COLORGAMUT_BT709 JPEGR_COLORGAMUT_UNSPECIFIED
    <> Some fn_identityConversion.
Proof.
  pose proof (getHdrConversionFn_null_iff_unspecified
                JPEGR_COLORGAMUT_BT709 JPEGR_COLORGAMUT_UNSPECIFIED) as [[_ H1] H2].
  split; [apply H1 | apply H2]; right; reflexivity.
Defined.

(** ** Gain encoding *)

(** C3, as stated, fails: for [y_sdr = 1], [y_hdr = 0.5] and
    [hdr_ratio = 4] the scaled gain is exactly 63.75; the specification's
    rounded byte is 64, the code returns 63.  For equal luminances the
    scaled gain is 127.5: rounded 128, returned 127. *)
Lemma encodeRecovery_not_rounded :
  F32.value (Spec.scaled_gain RefLibm.libm half four) = Some (16711680 # 262144) /\
  encodeRecovery RefLibm.libm F32.one half four = Some 63 /\
  Spec.encode_gain RefLibm.libm F32.one half four = Some 64 /\
  encodeRecovery RefLibm.libm F32.one F32.one F32.two = Some 127 /\
  Spec.encode_gain RefLibm.libm F32.one F32.one F32.two = Some 128 /\
  encodeRecovery RefLibm.libm F32.one half four
    <> Spec.encode_gain RefLibm.libm F32.one half four.
Proof.
  repeat split; try (vm_compute; reflexivity).
  vm_compute. discriminate.
Qed.

(** C3, amended.  For every [hdr_ratio > 1], with the ratio
    [y_hdr / y_sdr] when [y_sdr > 0] and 1.0 otherwise, clamped to
    [[-hdr_ratio, hdr_ratio]], [encodeRecovery] returns a byte exactly when
    the scaled gain [log2(ratio)/log2(hdr_ratio) * 127.5 + 127.5] is finite
    and its truncation toward zero lies in [0, 255]; that truncation, not
    the rounding to nearest, is the byte. *)
Theorem encodeRecovery_truncates
    (M : Libm) (y_sdr y_hdr hdr_ratio : f32) (gain_byte : Z) :
  F32.ltb F32.one hdr_ratio = true ->
  (encodeRecovery M y_sdr y_hdr hdr_ratio = Some gain_byte <->
   exists q,
     F32.value
       (Spec.scaled_gain M
          (Spec.clamp_ratio hdr_ratio
             (if F32.ltb F32.pzero y_sdr then F32.div y_hdr y_sdr else F32.one))
          hdr_ratio) = Some q /\
     gain_byte = Qtruncate q /\ 0 <= gain_byte <= 255).
Proof.
  intros HR. unfold encodeRecovery. cbv zeta.
  pose proof (clamp_sequential hdr_ratio
                (if F32.ltb F32.pzero y_sdr then F32.div y_hdr y_sdr else F32.one)
                HR) as Hc.
  cbv zeta in Hc. rewrite Hc.
  fold (Spec.scaled_gain M
          (Spec.clamp_ratio hdr_ratio
             (if F32.ltb F32.pzero y_sdr then F32.div y_hdr y_sdr else F32.one))
          hdr_ratio).
  rewrite to_unsigned_value. change (2 ^ 8) with 256.
  split; intros (q & Hq & Hb & Hr); exists q; repeat split; (assumption || lia).
Qed.

Lemma encodeRecovery_truncates_witness :
  encodeRecovery RefLibm.libm half F32.one four = Some 191 <->
  exists q,
    F32.value
      (Spec.scaled_gain RefLibm.libm
         (Spec.clamp_ratio four
            (if F32.ltb F32.pzero half then F32.div F32.one half else F32.one))
         four) = Some q /\
    191 = Qtruncate q /\ 0 <= 191 <= 255.
Proof.
  apply (encodeRecovery_truncates RefLibm.libm half F32.one four 191).
  reflexivity.
Defined.

(** C6.  With a libm whose [log2] is exact at 2 and at 4,
    [encodeRecovery(0.5, 1.0, 4.0)] returns the byte 191: the ratio is 2,
    the normalised gain 0.5, the scaled gain 191.25. *)
Theorem encodeRecovery_example (M : Libm) :
  log2f M F32.two = F32.one -> log2f M four = F32.two ->
  encodeRecovery M half F32.one four = Some 191.
Proof.
  intros H2 H4. unfold encodeRecovery.
  change (F32.ltb F32.pzero half) with true. cbv iota zeta.
  change (F32.div F32.one half) with F32.two.
  change (F32.ltb F32.two (F32.opp four)) with false. cbv iota.
  change (F32.ltb four F32.two) with false. cbv iota.
  rewrite H2, H4. reflexivity.
Qed.

Lemma encodeRecovery_example_witness :
  encodeRecovery RefLibm.libm half F32.one four = Some 191.
Proof. apply (encodeRecovery_example RefLibm.libm); reflexivity. Defined.

(** ** Gain decoding *)

(** Two base values whose logarithms round to the same float cannot both
    be recovered, whatever the libm. *)
Lemma applyRecovery_float_collision (M : Libm) (c c' recovery hdr_ratio : f32) :
  c <> c' -> log2f M c = log2f M c' ->
  ~ (applyRecovery_float M c recovery hdr_ratio = c /\
     applyRecovery_float M c' recovery hdr_ratio = c').
Proof.
  intros Hne Hlog [H1 H2]. unfold applyRecovery_float in H1, H2.
  rewrite Hlog in H1. congruence.
Qed.

(** C5, as stated, fails in its second half: the base value
    [0x1.000002p-16] has the binary logarithm -16 + 1.7e-7, which rounds to
    -16, and [exp2(-16)] is [2^-16]: the red channel comes back one unit in
    the last place lower. *)
Lemma applyRecovery_zero_gain_changes_color :
  log2f RefLibm.libm dark = F32.of_Z (-16) /\
  applyRecovery RefLibm.libm (mkColor dark half F32.one) F32.pzero four
    = mkColor (F32.of_scaled 1 (-16)) half F32.one /\
  applyRecovery RefLibm.libm (mkColor dark half F32.one) F32.pzero four
    <> mkColor dark half F32.one.
Proof.
  split; [| split]; [vm_compute; reflexivity | vm_compute; reflexivity |].
  vm_compute. discriminate.
Qed.

(** C5, amended.  Fix [hdr_ratio > 1] and a libm with [log2(1) = +0] and
    [log2(hdr_ratio)] finite and positive.  (a) For every finite
    [y_sdr > 0], [encodeRecovery(y_sdr, y_sdr, hdr_ratio)] returns the
    byte 127.  (b) For every colour whose channels do not have the
    logarithm -0, [applyRecovery(e, 0, hdr_ratio)] is
    [exp2(log2(c))] in every channel [c]: the gain term vanishes, and the
    colour comes back unchanged exactly when the libm round trip
    [exp2(log2(c)) = c] is exact in each channel. *)
Theorem recovery_unit_ratio_and_zero_gain
    (M : Libm) (hdr_ratio y_sdr : f32) (e : Color) :
  F32.ltb F32.one hdr_ratio = true ->
  log2f M F32.one = F32.pzero ->
  F32.finite_pos (log2f M hdr_ratio) = true ->
  F32.finite_pos y_sdr = true ->
  log2f M (r e) <> F32.nzero -> log2f M (g e) <> F32.nzero ->
  log2f M (b e) <> F32.nzero ->
  encodeRecovery M y_sdr y_sdr hdr_ratio = Some 127 /\
  applyRecovery M e F32.pzero hdr_ratio
    = mkColor (exp2f M (log2f M (r e))) (exp2f M (log2f M (g e)))
              (exp2f M (log2f M (b e))) /\
  (applyRecovery M e F32.pzero hdr_ratio = e <->
     exp2f M (log2f M (r e)) = r e /\ exp2f M (log2f M (g e)) = g e /\
     exp2f M (log2f M (b e)) = b e).
Proof.
  intros HR H1 HL Hy Hr Hg Hb.
  assert (Ha : applyRecovery M e F32.pzero hdr_ratio
               = mkColor (exp2f M (log2f M (r e))) (exp2f M (log2f M (g e)))
                         (exp2f M (log2f M (b e)))).
  { unfold applyRecovery. now rewrite !applyRecovery_float_zero_gain. }
  split; [now apply encodeRecovery_unit_ratio | split; [exact Ha |]].
  rewrite Ha. destruct e as [er eg eb]. cbn [r g b]. split.
  - intros [= -> -> ->]. auto.
  - intros (-> & -> & ->). reflexivity.
Qed.

Lemma recovery_unit_ratio_and_zero_gain_witness :
  encodeRecovery RefLibm.libm half half four = Some 127 /\
  applyRecovery RefLibm.libm (mkColor half F32.one quarter) F32.pzero four
    = mkColor half F32.one quarter.
Proof.
  destruct (recovery_unit_ratio_and_zero_gain RefLibm.libm four half
              (mkColor half F32.one quarter)) as (Ha & _ & Hc).
  - vm_compute. reflexivity.
  - vm_compute. reflexivity.
  - vm_compute. reflexivity.
  - vm_compute. reflexivity.
  - vm_compute. discriminate.
  - vm_compute. discriminate.
  - vm_compute. discriminate.
  - split; [exact Ha |]. apply Hc. repeat split; vm_compute; reflexivity.
Defined.

(** ** Map sampling *)

(** C1.  At the grid-aligned coordinates (0, 0) of [corner_map], sampled
    at scale factor 1, the stored cell decodes to 1.0 while [sampleMap]
    returns -2.0: the aligned cell has weight 0 and its three neighbours,
    each decoding to -1.0, have the weights 1/2, 1/2 and 1. *)
Theorem sampleMap_grid_aligned_ignores_cell :
  map_cell corner_map 0 0 = Some F32.one /\
  map_cell corner_map 1 0 = Some (F32.of_Z (-1)) /\
  map_cell corner_map 0 1 = Some (F32.of_Z (-1)) /\
  map_cell corner_map 1 1 = Some (F32.of_Z (-1)) /\
  sampleMap corner_map 1 0 0 = Some (F32.of_Z (-2)) /\
  sampleMap corner_map 1 0 0 <> map_cell corner_map 0 0.
Proof.
  repeat split; try (vm_compute; reflexivity).
  vm_compute. discriminate.
Qed.

(** C2, as stated, fails off the grid: on the uniform map of byte 1,
    sampled at scale factor 2 at (0, 1), the result is one unit in the last
    place away from twice the decoded gain. *)
Lemma sampleMap_uniform_off_grid :
  sampleMap flat_map 2 0 1 = Some (S754_finite true 16645629 (-23)) /\
  F32.mul F32.two (mapUintToFloat 1) = S754_finite true 16645630 (-23) /\
  sampleMap flat_map 2 0 1 <> Some (F32.mul F32.two (mapUintToFloat 1)).
Proof.
  split; [| split]; [vm_compute; reflexivity | vm_compute; reflexivity |].
  vm_compute. discriminate.
Qed.

(** The amended statement on uniform maps needs the rounding analysis of
    the sampler; it is proved at the end, in the part on uniform maps. *)

(** ** Packing *)

(** C4, as stated, fails: the colour (1.0, 0.0, 1.0) does not pack to
    0xC00003FF, a word whose bits 20-29 are zero. *)
Lemma colorToRgba1010102_example_not_C00003FF :
  colorToRgba1010102 (mkColor F32.one F32.pzero F32.one) <> Some 0xC00003FF.
Proof. vm_compute. discriminate. Qed.

(** C4, amended.  The colour (1.0, 0.0, 1.0) packs to 0xFFF003FF: 1023 in
    bits 0-9, 0 in bits 10-19, 1023 in bits 20-29 and 3 in bits 30-31. *)
Theorem colorToRgba1010102_example :
  colorToRgba1010102 (mkColor F32.one F32.pzero F32.one) = Some 0xFFF003FF /\
  Z.land 0xFFF003FF 1023 = 1023 /\
  Z.land (Z.shiftr 0xFFF003FF 10) 1023 = 0 /\
  Z.land (Z.shiftr 0xFFF003FF 20) 1023 = 1023 /\
  Z.shiftr 0xFFF003FF 30 = 3.
Proof. repeat split; vm_compute; reflexivity. Qed.

(** Truncation, not rounding: 0.5 * 1023 = 511.5 is stored as 511. *)
Lemma colorToRgba1010102_half_truncated :
  colorToRgba1010102 (mkColor half half half)
    = Some (511 + 511 * 2 ^ 10 + 511 * 2 ^ 20 + 3 * 2 ^ 30).
Proof. vm_compute. reflexivity. Qed.

(** C9.  For every colour whose channels are well-formed floats of
    [[0, 1]], the packed word exists; each channel is multiplied by 1023
    and truncated toward zero, which gives an integer of [[0, 1023]];
    masked to 10 bits, red is in bits 0-9, green in bits 10-19 and blue in
    bits 20-29, and bits 30-31 hold 3. *)
Theorem colorToRgba1010102_layout (e_gamma : Color) :
  F32.wf (r e_gamma) -> F32.wf (g e_gamma) -> F32.wf (b e_gamma) ->
  F32.leb F32.pzero (r e_gamma) = true -> F32.leb (r e_gamma) F32.one = true ->
  F32.leb F32.pzero (g e_gamma) = true -> F32.leb (g e_gamma) F32.one = true ->
  F32.leb F32.pzero (b e_gamma) = true -> F32.leb (b e_gamma) F32.one = true ->
  exists qr qg qb w,
    F32.value (F32.mul (r e_gamma) c1023) = Some qr /\
    F32.value (F32.mul (g e_gamma) c1023) = Some qg /\
    F32.value (F32.mul (b e_gamma) c1023) = Some qb /\
    colorToRgba1010102 e_gamma = Some w /\
    Z.land w 1023 = Z.land (Qtruncate qr) 1023 /\
    Z.land (Z.shiftr w 10) 1023 = Z.land (Qtruncate qg) 1023 /\
    Z.land (Z.shiftr w 20) 1023 = Z.land (Qtruncate qb) 1023 /\
    Z.shiftr w 30 = 3 /\
    0 <= w < 2 ^ 32 /\
    0 <= Qtruncate qr <= 1023 /\ 0 <= Qtruncate qg <= 1023 /\
    0 <= Qtruncate qb <= 1023.
Proof.
  intros Wr Wg Wb Hr0 Hr1 Hg0 Hg1 Hb0 Hb1.
  destruct (channel_scaled _ Wr Hr0 Hr1) as (ri & Tr & Rr).
  destruct (channel_scaled _ Wg Hg0 Hg1) as (gi & Tg & Rg).
  destruct (channel_scaled _ Wb Hb0 Hb1) as (bi & Tb & Rb).
  pose proof Tr as Vr. pose proof Tg as Vg. pose proof Tb as Vb.
  rewrite trunc_value in Vr, Vg, Vb.
  destruct (F32.value (F32.mul (r e_gamma) c1023)) as [qr |]; [| discriminate].
  destruct (F32.value (F32.mul (g e_gamma) c1023)) as [qg |]; [| discriminate].
  destruct (F32.value (F32.mul (b e_gamma) c1023)) as [qb |]; [| discriminate].
  cbn [option_map] in Vr, Vg, Vb.
  injection Vr as Vr. injection Vg as Vg. injection Vb as Vb.
  exists qr, qg, qb, (ri + gi * 2 ^ 10 + bi * 2 ^ 20 + 3 * 2 ^ 30).
  rewrite Vr, Vg, Vb.
  pose proof (unpack_fields ri gi bi Rr Rg Rb) as (U1 & U2 & U3 & U4 & U5).
  cbn zeta in U1, U2, U3, U4, U5.
  assert (Hmask : forall z, 0 <= z <= 1023 -> Z.land z 1023 = z).
  { intros z Hz. change 1023 with (Z.ones 10).
    rewrite Z.land_ones by lia. apply Z.mod_small. change (2 ^ 10) with 1024. lia. }
  rewrite (Hmask ri Rr), (Hmask gi Rg), (Hmask bi Rb).
  repeat split; try assumption; try lia.
  unfold colorToRgba1010102, F32.to_unsigned. rewrite Tr, Tg, Tb.
  change (2 ^ 32) with 4294967296.
  destruct (Z.leb_spec 0 ri); [| lia]. destruct (Z.ltb_spec ri 4294967296); [| lia].
  destruct (Z.leb_spec 0 gi); [| lia]. destruct (Z.ltb_spec gi 4294967296); [| lia].
  destruct (Z.leb_spec 0 bi); [| lia]. destruct (Z.ltb_spec bi 4294967296); [| lia].
  cbn [andb bind]. f_equal. apply pack_fields; assumption.
Qed.

Lemma colorToRgba1010102_layout_witness :
  exists qr qg qb w,
    F32.value (F32.mul half c1023) = Some qr /\
    F32.value (F32.mul F32.pzero c1023) = Some qg /\
    F32.value (F32.mul F32.one c1023) = Some qb /\
    colorToRgba1010102 (mkColor half F32.pzero F32.one) = Some w /\
    Z.land w 1023 = Z.land (Qtruncate qr) 1023 /\
    Z.land (Z.shiftr w 10) 1023 = Z.land (Qtruncate qg) 1023 /\
    Z.land (Z.shiftr w 20) 1023 = Z.land (Qtruncate qb) 1023 /\
    Z.shiftr w 30 = 3 /\
    0 <= w < 2 ^ 32 /\
    0 <= Qtruncate qr <= 1023 /\ 0 <= Qtruncate qg <= 1023 /\
    0 <= Qtruncate qb <= 1023.
Proof.
  apply (colorToRgba1010102_layout (mkColor half F32.pzero F32.one));
    vm_compute; reflexivity.
Defined.

(** ** Pixel access *)

(** C10.  For an image of width [w] and height [h] and in-range
    coordinates whose three reads fall inside the buffer, the luma byte
    is read at index [x + y * w] of the first [w * h] bytes, the U byte at
    index [x/2 + (y/2) * (w/2)] of the bytes from offset [w * h] on, the
    V byte at the same index of the bytes from offset [w * h * 5 / 4] on,
    and the colour is [(Y/255, (U - 128)/255, (V - 128)/255)]. *)
Theorem getYuv420Pixel_planes (image : jr_uncompressed_ptr) (x y : Z) :
  let w := width image in
  let h := height image in
  let cidx := x / 2 + (y / 2) * (w / 2) in
  0 <= x < w -> 0 <= y < h -> w * h * 5 < 2 ^ 64 ->
  w * h * 5 / 4 + cidx < Z.of_nat (length (data image)) ->
  exists Y U V,
    read_u8 (firstn (Z.to_nat (w * h)) (data image)) (x + y * w) = Some Y /\
    read_u8 (skipn (Z.to_nat (w * h)) (data image)) cidx = Some U /\
    read_u8 (skipn (Z.to_nat (w * h * 5 / 4)) (data image)) cidx = Some V /\
    getYuv420Pixel image x y
      = Some (mkColor (F32.div (F32.of_Z Y) c255)
                      (F32.div (F32.sub (F32.of_Z U) c128) c255)
                      (F32.div (F32.sub (F32.of_Z V) c128) c255)).
Proof.
  intros w h cidx Hx Hy Hfit Hlen.
  pose proof size_t_small as Hsmall.
  remember (2 ^ 64) as P eqn:HP in Hfit, Hsmall. clear HP.
  assert (Hw2 : 0 <= w / 2 <= w) by (split; [apply Z.div_pos | apply Z.div_le_upper_bound]; lia).
  assert (Hx2 : 0 <= x / 2 <= x) by (split; [apply Z.div_pos | apply Z.div_le_upper_bound]; lia).
  assert (Hy2 : 0 <= y / 2 <= y) by (split; [apply Z.div_pos | apply Z.div_le_upper_bound]; lia).
  assert (Hyw : 0 <= y * w /\ x + y * w < w * h) by nia.
  assert (Hwh : 0 <= w * h) by nia.
  assert (Hw64 : w <= w * h) by nia.
  assert (Hcu : 0 <= y / 2 * (w / 2) <= y * w) by nia.
  assert (Hc : 0 <= cidx < w * h) by (unfold cidx; lia).
  assert (H54 : w * h <= w * h * 5 / 4 /\ w * h * 5 / 4 + w * h <= w * h * 5).
  { split; [apply Z.div_le_lower_bound; lia |].
    pose proof (Z.mul_div_le (w * h * 5) 4 ltac:(lia)). lia. }
  destruct (read_u8_in_range (data image) (x + y * w)) as [Y HY]; [lia |].
  destruct (read_u8_in_range (data image) (w * h + cidx)) as [U HU]; [lia |].
  destruct (read_u8_in_range (data image) (w * h * 5 / 4 + cidx)) as [V HV]; [lia |].
  exists Y, U, V.
  rewrite read_u8_firstn, !read_u8_skipn by lia.
  repeat split; try assumption.
  unfold getYuv420Pixel. fold w h.
  rewrite (Hsmall (w * h)) by (split; lia).
  rewrite (Hsmall (y * w)) by (split; lia).
  rewrite (Hsmall (x + y * w)) by (split; lia).
  rewrite (Hsmall (w / 2)) by (split; lia).
  rewrite (Hsmall (y / 2 * (w / 2))) by (split; lia).
  fold cidx. rewrite (Hsmall cidx) by (split; lia).
  rewrite (Hsmall (w * h + cidx)) by (split; lia).
  rewrite (Hsmall (w * h * 5)) by (split; lia).
  rewrite (Hsmall (w * h * 5 / 4 + cidx)) by (split; lia).
  rewrite HY, HU, HV. reflexivity.
Qed.

Lemma getYuv420Pixel_planes_witness :
  exists Y U V,
    read_u8 (firstn (Z.to_nat (2 * 2)) (data tiny_image)) (1 + 1 * 2) = Some Y /\
    read_u8 (skipn (Z.to_nat (2 * 2)) (data tiny_image))
            (1 / 2 + 1 / 2 * (2 / 2)) = Some U /\
    read_u8 (skipn (Z.to_nat (2 * 2 * 5 / 4)) (data tiny_image))
            (1 / 2 + 1 / 2 * (2 / 2)) = Some V /\
    getYuv420Pixel tiny_image 1 1
      = Some (mkColor (F32.div (F32.of_Z Y) c255)
                      (F32.div (F32.sub (F32.of_Z U) c128) c255)
                      (F32.div (F32.sub (F32.of_Z V) c128) c255)).
Proof.
  apply (getYuv420Pixel_planes tiny_image 1 1);
    cbn [tiny_image data width height length].
  - split; [discriminate | reflexivity].
  - split; [discriminate | reflexivity].
  - reflexivity.
  - reflexivity.
Defined.


(** * Further properties of the kernel

    ** Enumerating small ranges *)

Lemma upto_spec (n : nat) (f : Z -> bool) :
  forallb f (upto n) = true -> forall i, 0 <= i < Z.of_nat n -> f i = true.
Proof.
  intros H i Hi. rewrite forallb_forall in H. apply H.
  unfold upto. apply in_map_iff. exists (Z.to_nat i). split; [lia |].
  apply in_seq. lia.
Qed.

Lemma nth_upto {A} (f : Z -> A) (n : nat) (i : Z) (d : A) :
  0 <= i < Z.of_nat n -> nth (Z.to_nat i) (map f (upto n)) d = f i.
Proof.
  intros Hi. unfold upto. rewrite map_map.
  rewrite (nth_indep _ d (f (Z.of_nat 0)))
    by (rewrite length_map, length_seq; lia).
  rewrite (map_nth (fun k => f (Z.of_nat k))), seq_nth by lia.
  f_equal. lia.
Qed.

Lemma byte_range (c : byte) : 0 <= Z.of_N (Byte.to_N c) < 256.
Proof. destruct c; vm_compute; split; congruence. Qed.

Lemma same_eq (x y : f32) : same x y = true -> x = y.
Proof.
  destruct x as [s | s | | s m e], y as [t | t | | t n f]; try discriminate.
  - intros H. apply eqb_prop in H. now subst.
  - intros H. apply eqb_prop in H. now subst.
  - reflexivity.
  - cbn. intros H. apply andb_prop in H as [H He]. apply andb_prop in H as [Hs Hm].
    apply eqb_prop in Hs. apply Pos.eqb_eq in Hm. apply Z.eqb_eq in He.
    now subst.
Qed.

(** ** Undefined steps *)

Lemma some_inj {A} (a a' : A) : Some a = Some a' -> a = a'.
Proof. congruence. Qed.

Lemma bind_some {A B} (o : option A) (k : A -> option B) (b : B) :
  bind o k = Some b -> exists a, o = Some a /\ k a = Some b.
Proof. destruct o as [a |]; [eauto | discriminate]. Qed.

Lemma read_u8_byte (buf : list byte) (i z : Z) :
  read_u8 buf i = Some z -> exists c : byte, z = Z.of_N (Byte.to_N c).
Proof.
  unfold read_u8. destruct (i <? 0); [discriminate |].
  destruct (nth_error buf (Z.to_nat i)) as [c |]; [| discriminate].
  intros H. apply some_inj in H. exists c. now subst.
Qed.

Lemma read_u8_some_range (buf : list byte) (i z : Z) :
  read_u8 buf i = Some z -> 0 <= i < Z.of_nat (length buf).
Proof.
  unfold read_u8. destruct (Z.ltb_spec i 0); [discriminate |].
  destruct (nth_error buf (Z.to_nat i)) eqn:E; [| discriminate].
  intros _. assert (nth_error buf (Z.to_nat i) <> None) as Hn by congruence.
  apply nth_error_Some in Hn. lia.
Qed.

(** ** Decoding a gain byte *)

(** X1.  Every byte decodes to a well-formed finite float that is not a
    zero and lies between -1 and 1; byte 0 decodes to exactly -1 and byte
    255 to exactly 1. *)
Theorem mapUintToFloat_range (c : byte) :
  let d := mapUintToFloat (Z.of_N (Byte.to_N c)) in
  F32.wf d /\ F32.leb (F32.of_Z (-1)) d = true /\ F32.leb d F32.one = true /\
  (exists s m e, d = S754_finite s m e) /\
  mapUintToFloat 0 = F32.of_Z (-1) /\ mapUintToFloat 255 = F32.one.
Proof.
  destruct c; vm_compute; (repeat split; try reflexivity);
    do 3 eexists; reflexivity.
Qed.

(** X2.  Decoding is strictly increasing: a larger byte decodes to a
    strictly larger gain, so no two bytes decode to the same gain. *)
Theorem mapUintToFloat_increasing (i j : Z) :
  0 <= i -> i < j -> j <= 255 ->
  F32.ltb (mapUintToFloat i) (mapUintToFloat j) = true.
Proof.
  intros Hi Hij Hj.
  assert (H : (let tbl := map mapUintToFloat (upto 256) in
               forallb (fun i => forallb (fun j =>
                 implb (i <? j)
                   (F32.ltb (nth (Z.to_nat i) tbl F32.pzero)
                            (nth (Z.to_nat j) tbl F32.pzero)))
                 (upto 256)) (upto 256)) = true) by (vm_compute; reflexivity).
  cbv zeta in H.
  pose proof (upto_spec _ _ H i ltac:(lia)) as H1. cbv beta in H1.
  pose proof (upto_spec _ _ H1 j ltac:(lia)) as H2. cbv beta in H2.
  rewrite !nth_upto in H2 by lia.
  destruct (Z.ltb_spec i j); [exact H2 | lia].
Qed.

Lemma mapUintToFloat_increasing_witness :
  F32.ltb (mapUintToFloat 127) (mapUintToFloat 128) = true.
Proof. apply (mapUintToFloat_increasing 127 128); lia. Defined.

(** X3.  Decoding is symmetric about the midpoint 127.5: the bytes [c] and
    [255 - c] decode to gains that are exact opposites. *)
Theorem mapUintToFloat_antisymmetric (c : byte) :
  mapUintToFloat (255 - Z.of_N (Byte.to_N c))
    = F32.opp (mapUintToFloat (Z.of_N (Byte.to_N c))).
Proof. destruct c; vm_compute; reflexivity. Qed.

(** ** The gain encoder *)

(** The affine map [g * 127.5 + 127.5] followed by the narrowing cast
    undoes the decoding of each of the 256 bytes. *)
Lemma affine_round_trip (c : byte) :
  F32.to_unsigned 8
    (F32.add (F32.mul (mapUintToFloat (Z.of_N (Byte.to_N c))) c127_5) c127_5)
  = Some (Z.of_N (Byte.to_N c)).
Proof. destruct c; vm_compute; reflexivity. Qed.

(** The same affine map contracted into one fused multiply-add, rounded
    once, loses one for the bytes 1 to 63: there the decoded gain is
    rounded away from zero, and the exact sum falls just short of the
    integer. *)
Lemma affine_round_trip_contracted (c : byte) :
  let n := Z.of_N (Byte.to_N c) in
  F32.to_unsigned 8 (fma (mapUintToFloat n) c127_5 c127_5)
  = Some (if (1 <=? n) && (n <=? 63) then n - 1 else n).
Proof. destruct c; vm_compute; reflexivity. Qed.

(** X4.  The encoder against the decoder: whenever the normalised log
    ratio [log2(gain) / log2(hdr_ratio)] of the clamped gain is the float
    that a byte [c] decodes to, the encoder evaluated as written, every
    operation rounded to binary32, returns exactly [c]; evaluated with the
    multiplication and the addition contracted into one fused operation it
    returns [c - 1] for the bytes 1 to 63 and [c] for all others.  In both
    evaluations the byte returned is [c] or [c - 1]. *)
Theorem encodeRecovery_recovers_byte
    (M : Libm) (y_sdr y_hdr hdr_ratio : f32) (c : byte) :
  F32.ltb F32.one hdr_ratio = true ->
  F32.div
    (log2f M (Spec.clamp_ratio hdr_ratio
                (if F32.ltb F32.pzero y_sdr then F32.div y_hdr y_sdr
                 else F32.one)))
    (log2f M hdr_ratio)
    = mapUintToFloat (Z.of_N (Byte.to_N c)) ->
  let n := Z.of_N (Byte.to_N c) in
  encodeRecovery M y_sdr y_hdr hdr_ratio = Some n /\
  encodeRecovery_contracted M y_sdr y_hdr hdr_ratio
    = Some (if (1 <=? n) && (n <=? 63) then n - 1 else n).
Proof.
  intros HR H n.
  pose proof (clamp_sequential hdr_ratio
    (if F32.ltb F32.pzero y_sdr then F32.div y_hdr y_sdr else F32.one) HR) as Hc.
  cbv zeta in Hc. split.
  - unfold encodeRecovery. cbv zeta. rewrite Hc, H. apply affine_round_trip.
  - unfold encodeRecovery_contracted. cbv zeta. rewrite Hc, H.
    apply affine_round_trip_contracted.
Qed.

Lemma encodeRecovery_recovers_byte_witness :
  encodeRecovery RefLibm.libm (F32.of_Z 8) F32.one (F32.of_Z 32) = Some 51 /\
  encodeRecovery_contracted RefLibm.libm (F32.of_Z 8) F32.one (F32.of_Z 32)
    = Some 50.
Proof.
  apply (encodeRecovery_recovers_byte RefLibm.libm
           (F32.of_Z 8) F32.one (F32.of_Z 32) x33).
  - vm_compute. reflexivity.
  - vm_compute. reflexivity.
Defined.

(** X5.  When the SDR luminance is not greater than zero (a zero of either
    sign, a negative number or a NaN) the gain is taken to be 1 and the
    encoder returns 127, whatever the HDR luminance is. *)
Theorem encodeRecovery_nonpositive_sdr
    (M : Libm) (y_sdr y_hdr hdr_ratio : f32) :
  F32.ltb F32.one hdr_ratio = true ->
  log2f M F32.one = F32.pzero ->
  F32.finite_pos (log2f M hdr_ratio) = true ->
  F32.ltb F32.pzero y_sdr = false ->
  encodeRecovery M y_sdr y_hdr hdr_ratio = Some 127.
Proof.
  intros HR H1 HL Hy. unfold encodeRecovery. rewrite Hy. cbv iota zeta.
  destruct (ltb_opp_gt_one F32.one hdr_ratio HR) as (_ & -> & ->).
  rewrite H1. destruct (finite_pos_inv _ HL) as (mL & eL & ->).
  reflexivity.
Qed.

Lemma encodeRecovery_nonpositive_sdr_witness :
  encodeRecovery RefLibm.libm F32.pzero (S754_infinity false) four = Some 127 /\
  encodeRecovery RefLibm.libm S754_nan S754_nan four = Some 127.
Proof.
  split.
  - apply (encodeRecovery_nonpositive_sdr RefLibm.libm F32.pzero
             (S754_infinity false) four).
    + vm_compute. reflexivity.
    + vm_compute. reflexivity.
    + vm_compute. reflexivity.
    + vm_compute. reflexivity.
  - apply (encodeRecovery_nonpositive_sdr RefLibm.libm S754_nan S754_nan four).
    + vm_compute. reflexivity.
    + vm_compute. reflexivity.
    + vm_compute. reflexivity.
    + vm_compute. reflexivity.
Defined.

Lemma ltb_pos_opp (x hdr_ratio : f32) :
  F32.ltb F32.one hdr_ratio = true -> F32.ltb hdr_ratio x = true ->
  F32.ltb x (F32.opp hdr_ratio) = false.
Proof.
  intros HR Hx.
  destruct (gt_one_cases _ HR) as [-> | (m & e & ->)].
  - destruct x as [s | s | | s mx ex]; try discriminate; destruct s; discriminate.
  - destruct x as [s | s | | s mx ex]; try discriminate;
      destruct s; try discriminate; reflexivity.
Qed.

(** X6.  The encoder saturates: when the ratio [y_hdr / y_sdr] exceeds
    [hdr_ratio] (also when it is infinite) the gain is clamped to
    [hdr_ratio] and the result is the byte 255. *)
Theorem encodeRecovery_saturates
    (M : Libm) (y_sdr y_hdr hdr_ratio : f32) :
  F32.ltb F32.one hdr_ratio = true ->
  F32.finite_pos (log2f M hdr_ratio) = true ->
  F32.ltb F32.pzero y_sdr = true ->
  F32.ltb hdr_ratio (F32.div y_hdr y_sdr) = true ->
  encodeRecovery M y_sdr y_hdr hdr_ratio = Some 255.
Proof.
  intros HR HL Hy Hgt. unfold encodeRecovery. rewrite Hy. cbv iota zeta.
  rewrite (ltb_pos_opp _ _ HR Hgt), Hgt.
  destruct (finite_pos_inv _ HL) as (mL & eL & ->).
  rewrite div_self. reflexivity.
Qed.

Lemma encodeRecovery_saturates_witness :
  encodeRecovery RefLibm.libm quarter (S754_infinity false) four = Some 255 /\
  encodeRecovery RefLibm.libm quarter four four = Some 255.
Proof.
  split.
  - apply (encodeRecovery_saturates RefLibm.libm quarter (S754_infinity false) four).
    + vm_compute. reflexivity.
    + vm_compute. reflexivity.
    + vm_compute. reflexivity.
    + vm_compute. reflexivity.
  - apply (encodeRecovery_saturates RefLibm.libm quarter four four).
    + vm_compute. reflexivity.
    + vm_compute. reflexivity.
    + vm_compute. reflexivity.
    + vm_compute. reflexivity.
Defined.

(** X7.  There is no clamp from below: for a positive SDR luminance and an
    HDR luminance of zero the ratio is zero, its logarithm is minus
    infinity, and the narrowing cast to a byte is undefined. *)
Theorem encodeRecovery_black_hdr_undefined
    (M : Libm) (y_sdr hdr_ratio : f32) (s : bool) :
  F32.ltb F32.one hdr_ratio = true ->
  F32.finite_pos (log2f M hdr_ratio) = true ->
  log2f M (S754_zero s) = S754_infinity true ->
  F32.finite_pos y_sdr = true ->
  encodeRecovery M y_sdr (S754_zero s) hdr_ratio = None.
Proof.
  intros HR HL H0 Hy. unfold encodeRecovery.
  destruct (finite_pos_inv _ Hy) as (m & e & ->).
  change (F32.ltb F32.pzero (S754_finite false m e)) with true. cbv iota zeta.
  replace (F32.div (S754_zero s) (S754_finite false m e)) with (S754_zero s)
    by (destruct s; reflexivity).
  assert (H1 : F32.ltb (S754_zero s) (F32.opp hdr_ratio) = false).
  { destruct (gt_one_cases _ HR) as [-> | (mr & er & ->)]; reflexivity. }
  assert (H2 : F32.ltb hdr_ratio (S754_zero s) = false).
  { destruct (gt_one_cases _ HR) as [-> | (mr & er & ->)]; reflexivity. }
  rewrite H1, H2, H0.
  destruct (finite_pos_inv _ HL) as (mL & eL & ->). reflexivity.
Qed.

Lemma encodeRecovery_black_hdr_undefined_witness :
  encodeRecovery RefLibm.libm half F32.pzero four = None.
Proof.
  apply (encodeRecovery_black_hdr_undefined RefLibm.libm half four false).
  - vm_compute. reflexivity.
  - vm_compute. reflexivity.
  - vm_compute. reflexivity.
  - vm_compute. reflexivity.
Defined.

(** ** The gain decoder *)

Lemma applyRecovery_float_zero (M : Libm) (recovery hdr_ratio : f32) :
  log2f M F32.pzero = S754_infinity true ->
  exp2f M (S754_infinity true) = F32.pzero ->
  is_finite (F32.mul recovery (log2f M hdr_ratio)) = true ->
  applyRecovery_float M F32.pzero recovery hdr_ratio = F32.pzero.
Proof.
  intros H0 He Hf. unfold applyRecovery_float. rewrite H0.
  assert (Ha : F32.add (S754_infinity true) (F32.mul recovery (log2f M hdr_ratio))
               = S754_infinity true).
  { destruct (F32.mul recovery (log2f M hdr_ratio)); try discriminate; reflexivity. }
  now rewrite Ha.
Qed.

(** X8.  Black stays black: a channel that is +0 is +0 after the gain is
    applied, for every gain whose product with [log2(hdr_ratio)] is
    finite, because [log2(0)] is minus infinity and [exp2] of minus
    infinity is +0. *)
Theorem applyRecovery_black_stays_black
    (M : Libm) (e : Color) (recovery hdr_ratio : f32) :
  log2f M F32.pzero = S754_infinity true ->
  exp2f M (S754_infinity true) = F32.pzero ->
  is_finite (F32.mul recovery (log2f M hdr_ratio)) = true ->
  (r e = F32.pzero -> r (applyRecovery M e recovery hdr_ratio) = F32.pzero) /\
  (g e = F32.pzero -> g (applyRecovery M e recovery hdr_ratio) = F32.pzero) /\
  (b e = F32.pzero -> b (applyRecovery M e recovery hdr_ratio) = F32.pzero).
Proof.
  intros H0 He Hf. unfold applyRecovery. cbn [r g b].
  repeat split; intros ->; now apply applyRecovery_float_zero.
Qed.

Lemma applyRecovery_black_stays_black_witness :
  (r (mkColor F32.pzero half F32.pzero) = F32.pzero ->
   r (applyRecovery RefLibm.libm (mkColor F32.pzero half F32.pzero) F32.one four)
     = F32.pzero) /\
  (g (mkColor F32.pzero half F32.pzero) = F32.pzero ->
   g (applyRecovery RefLibm.libm (mkColor F32.pzero half F32.pzero) F32.one four)
     = F32.pzero) /\
  (b (mkColor F32.pzero half F32.pzero) = F32.pzero ->
   b (applyRecovery RefLibm.libm (mkColor F32.pzero half F32.pzero) F32.one four)
     = F32.pzero).
Proof.
  apply (applyRecovery_black_stays_black RefLibm.libm
           (mkColor F32.pzero half F32.pzero) F32.one four).
  - vm_compute. reflexivity.
  - vm_compute. reflexivity.
  - vm_compute. reflexivity.
Defined.

(** ** The gamut-conversion lookup *)

(** X9.  The lookup returns the identity transform exactly for two equal,
    specified gamuts, and off the diagonal it is injective: no two
    different pairs of gamuts share a conversion. *)
Theorem getHdrConversionFn_table
    (sdr_gamut hdr_gamut sdr_gamut' hdr_gamut' : jpegr_color_gamut)
    (f : ColorTransformFn) :
  (getHdrConversionFn sdr_gamut hdr_gamut = Some fn_identityConversion <->
     sdr_gamut = hdr_gamut /\ sdr_gamut <> JPEGR_COLORGAMUT_UNSPECIFIED) /\
  (getHdrConversionFn sdr_gamut hdr_gamut = Some f ->
   getHdrConversionFn sdr_gamut' hdr_gamut' = Some f ->
   f <> fn_identityConversion ->
   sdr_gamut = sdr_gamut' /\ hdr_gamut = hdr_gamut').
Proof.
  split.
  - destruct sdr_gamut, hdr_gamut; cbn; split;
      try discriminate; try (intros [E N]; congruence);
      intros _; split; congruence.
  - destruct sdr_gamut, hdr_gamut; cbn; try discriminate;
      intros E; injection E as <-;
      destruct sdr_gamut', hdr_gamut'; cbn; try discriminate;
      intros E' N; try (now split); congruence.
Qed.

(** ** Rounding a result that is not exact *)

Lemma shr_iter_m (n : nat) (mrs : shr_record) :
  0 <= shr_m mrs ->
  shr_m (Nat.iter n shr_1 mrs) = shr_m mrs / 2 ^ Z.of_nat n.
Proof.
  intros Hm. induction n as [| n IH].
  - simpl. now rewrite Z.div_1_r.
  - rewrite Nat.iter_succ.
    destruct (Nat.iter n shr_1 mrs) as [m' r' s'] eqn:E.
    cbn [shr_m] in IH.
    assert (Hpos : 0 < 2 ^ Z.of_nat n) by (apply Z.pow_pos_nonneg; lia).
    assert (Hm' : 0 <= m') by (subst m'; apply Z.div_pos; lia).
    rewrite shr_1_nonneg by assumption. cbn [shr_m].
    rewrite Nat2Z.inj_succ, Z.pow_succ_r by lia.
    rewrite (Z.mul_comm 2), <- Z.div_div by lia. now subst m'.
Qed.

Lemma shr_m_spec (mrs : shr_record) (e n : Z) :
  0 <= shr_m mrs -> 0 <= n ->
  exists rr ss,
    shr mrs e n = (Build_shr_record (shr_m mrs / 2 ^ n) rr ss, e + n).
Proof.
  intros Hm Hn. destruct n as [| p | p]; [| | lia].
  - destruct mrs as [m r s]. exists r, s. simpl.
    now rewrite Z.div_1_r, Z.add_0_r.
  - unfold shr. rewrite iter_pos_nat.
    pose proof (shr_iter_m (Pos.to_nat p) mrs Hm) as H.
    rewrite positive_nat_Z in H.
    destruct (Nat.iter _ _ _) as [m' r' s']. cbn [shr_m] in H. subst m'.
    now exists r', s'.
Qed.

Lemma shr_m_of_loc (m : Z) (l : location) : shr_m (shr_record_of_loc m l) = m.
Proof. destruct l as [| []]; reflexivity. Qed.

(** The first rounding step, whatever lies below the last digit. *)
Lemma shr_fexp_any (M E : Z) (l : location) :
  0 < M ->
  let e1 := Z.max E (fexp F32.prec F32.emax (Zdigits2 M + E)) in
  exists rr ss,
    shr_fexp F32.prec F32.emax M E l
      = (Build_shr_record (M / 2 ^ (e1 - E)) rr ss, e1) /\
    M / 2 ^ (e1 - E) < 2 ^ 24.
Proof.
  intros HM e1. unfold shr_fexp.
  set (n := fexp F32.prec F32.emax (Zdigits2 M + E) - E).
  pose proof (Zdigits2_bounds M HM) as [_ Hd].
  destruct (Z_le_gt_dec n 0) as [Hn | Hn].
  - rewrite shr_nonpos by assumption.
    assert (He : e1 = E) by (unfold e1; lia).
    rewrite He, Z.sub_diag. simpl (2 ^ 0). rewrite Z.div_1_r.
    destruct l as [| []]; do 2 eexists; (split; [reflexivity |]);
      unfold n in Hn; rewrite fexp32_eq in Hn;
      (apply Z.lt_le_trans with (1 := Hd)); apply Z.pow_le_mono_r; lia.
  - destruct (shr_m_spec (shr_record_of_loc M l) E n) as (rr & ss & Hs);
      try (rewrite ?shr_m_of_loc; lia).
    rewrite shr_m_of_loc in Hs.
    assert (He : e1 - E = n) by (unfold e1, n; lia).
    exists rr, ss. rewrite Hs, He. replace (E + n) with e1 by lia.
    split; [reflexivity |].
    apply Z.div_lt_upper_bound; [apply Z.pow_pos_nonneg; lia |].
    rewrite <- Z.pow_add_r by lia.
    apply Z.lt_le_trans with (1 := Hd). apply Z.pow_le_mono_r; [lia |].
    unfold n. rewrite fexp32_eq. lia.
Qed.

(** Rounding [M * 2^E] plus a remainder below one unit of [2^E]. *)
Lemma binary_round_aux_any (sx : bool) (M E : Z) (l : location) :
  0 < M ->
  let e1 := Z.max E (fexp F32.prec F32.emax (Zdigits2 M + E)) in
  exists m2,
    (M / 2 ^ (e1 - E) <= m2 <= M / 2 ^ (e1 - E) + 1) /\
    m2 <= 2 ^ 24 /\
    binary_round_aux F32.prec F32.emax sx M E l =
      if m2 =? 0 then S754_zero sx
      else if m2 =? 2 ^ 24
           then (if e1 + 1 <=? 104 then S754_finite sx (2 ^ 23) (e1 + 1)
                 else S754_infinity sx)
           else (if e1 <=? 104 then S754_finite sx (Z.to_pos m2) e1
                 else S754_infinity sx).
Proof.
  intros HM e1.
  destruct (shr_fexp_any M E l HM) as (rr & ss & Hs & Hlt).
  fold e1 in Hs, Hlt.
  set (m1 := M / 2 ^ (e1 - E)) in *.
  assert (Hm1 : 0 <= m1).
  { apply Z.div_pos; [lia | apply Z.pow_pos_nonneg; unfold e1; lia]. }
  pose proof (round_nearest_even_bounds m1 rr ss) as [Hb _]. cbn zeta in Hb.
  set (m2 := round_nearest_even m1 _) in *.
  assert (He1 : -149 <= e1) by (unfold e1; rewrite fexp32_eq; lia).
  exists m2. repeat split; try lia.
  unfold binary_round_aux. rewrite Hs. cbn [shr_m]. fold m2.
  rewrite shr_fexp_again by lia.
  destruct (Z.eqb_spec m2 (2 ^ 24)) as [E24 | E24].
  - rewrite E24. reflexivity.
  - cbn [shr_m]. destruct (Z.eqb_spec m2 0) as [-> | Hz]; [reflexivity |].
    destruct m2 as [| p | p]; try lia. reflexivity.
Qed.

(** The sign of a rounded result is the sign it was given. *)
Lemma binary_round_aux_sign (sx : bool) (M E : Z) (l : location) :
  0 < M ->
  binary_round_aux F32.prec F32.emax sx M E l = S754_zero sx \/
  binary_round_aux F32.prec F32.emax sx M E l = S754_infinity sx \/
  exists m e, binary_round_aux F32.prec F32.emax sx M E l = S754_finite sx m e.
Proof.
  intros HM.
  destruct (binary_round_aux_any sx M E l HM) as (m2 & _ & _ & ->).
  destruct (m2 =? 0); [now left |].
  destruct (m2 =? 2 ^ 24).
  - destruct (_ <=? 104); [right; right; eauto | right; now left].
  - destruct (_ <=? 104); [right; right; eauto | right; now left].
Qed.

(** ** Non-negative floats *)

Lemma leb_pzero_cases (x : f32) :
  F32.leb F32.pzero x = true <->
  (exists s, x = S754_zero s) \/ x = S754_infinity false \/
  exists m e, x = S754_finite false m e.
Proof.
  split.
  - destruct x as [s | [] | | [] m e]; try discriminate; intros _;
      [left; eauto | right; now left | right; right; eauto].
  - intros [[s ->] | [-> | (m & e & ->)]]; reflexivity.
Qed.

Lemma mul_nonneg (k x : f32) :
  F32.finite_pos k = true -> F32.leb F32.pzero x = true ->
  F32.leb F32.pzero (F32.mul k x) = true.
Proof.
  intros Hk Hx. destruct (finite_pos_inv _ Hk) as (mk & ek & ->).
  apply leb_pzero_cases in Hx. apply leb_pzero_cases.
  destruct Hx as [[s ->] | [-> | (m & e & ->)]].
  - left. eexists. reflexivity.
  - right. now left.
  - unfold F32.mul, SFmul. cbn [xorb].
    destruct (binary_round_aux_sign false (Zpos (mk * m)) (ek + e) loc_Exact)
      as [-> | [-> | (m' & e' & ->)]]; [lia | left | right; left | right; right];
      eauto.
Qed.

Lemma add_nonneg (x y : f32) :
  F32.leb F32.pzero x = true -> F32.leb F32.pzero y = true ->
  F32.leb F32.pzero (F32.add x y) = true.
Proof.
  intros Hx Hy. apply leb_pzero_cases in Hx, Hy. apply leb_pzero_cases.
  destruct Hx as [[sx ->] | [-> | (mx & ex & ->)]];
    destruct Hy as [[sy ->] | [-> | (my & ey & ->)]];
    try (left; eexists; reflexivity);
    try (right; left; reflexivity);
    try (right; right; do 2 eexists; reflexivity).
  - left. destruct sx, sy; eexists; reflexivity.
  - unfold F32.add, SFadd. cbn [cond_Zopp].
    rewrite <- Pos2Z.inj_add. unfold binary_normalize, binary_round.
    destruct (shl_align _ _ _) as [mz ez'].
    destruct (binary_round_aux_sign false (Zpos mz) ez' loc_Exact)
      as [-> | [-> | (m' & e' & ->)]]; [lia | left | right; left | right; right];
      eauto.
Qed.


(** ** Colours without negative channels *)

(** X10.  The conversion from BT.709 to BT.2100 has no negative
    coefficient: a colour whose channels are all non-negative (zeros and
    +infinity included) is converted to a colour whose channels are all
    non-negative, never to a NaN. *)
Theorem bt709ToBt2100_nonneg (e : Color) :
  F32.leb F32.pzero (r e) = true -> F32.leb F32.pzero (g e) = true ->
  F32.leb F32.pzero (b e) = true ->
  F32.leb F32.pzero (r (bt709ToBt2100 e)) = true /\
  F32.leb F32.pzero (g (bt709ToBt2100 e)) = true /\
  F32.leb F32.pzero (b (bt709ToBt2100 e)) = true.
Proof.
  intros Hr Hg Hb. unfold bt709ToBt2100, row. cbn [r g b].
  repeat split;
    (apply add_nonneg; [apply add_nonneg |]); apply mul_nonneg;
    first [assumption | reflexivity].
Qed.

Lemma bt709ToBt2100_nonneg_witness :
  F32.leb F32.pzero (r (bt709ToBt2100 (mkColor half F32.nzero F32.one))) = true /\
  F32.leb F32.pzero (g (bt709ToBt2100 (mkColor half F32.nzero F32.one))) = true /\
  F32.leb F32.pzero (b (bt709ToBt2100 (mkColor half F32.nzero F32.one))) = true.
Proof.
  apply (bt709ToBt2100_nonneg (mkColor half F32.nzero F32.one));
    vm_compute; reflexivity.
Defined.

(** X11.  The luminance of a colour whose channels are all non-negative is
    non-negative and not a NaN, in each of the three gamuts. *)
Theorem luminance_nonneg (e : Color) :
  F32.leb F32.pzero (r e) = true -> F32.leb F32.pzero (g e) = true ->
  F32.leb F32.pzero (b e) = true ->
  F32.leb F32.pzero (srgbLuminance e) = true /\
  F32.leb F32.pzero (p3Luminance e) = true /\
  F32.leb F32.pzero (bt2100Luminance e) = true.
Proof.
  intros Hr Hg Hb.
  unfold srgbLuminance, p3Luminance, bt2100Luminance.
  repeat split;
    (apply add_nonneg; [apply add_nonneg |]); apply mul_nonneg;
    first [assumption | reflexivity].
Qed.

Lemma luminance_nonneg_witness :
  F32.leb F32.pzero (srgbLuminance (mkColor half F32.nzero (S754_infinity false)))
    = true /\
  F32.leb F32.pzero (p3Luminance (mkColor half F32.nzero (S754_infinity false)))
    = true /\
  F32.leb F32.pzero (bt2100Luminance (mkColor half F32.nzero (S754_infinity false)))
    = true.
Proof.
  apply (luminance_nonneg (mkColor half F32.nzero (S754_infinity false)));
    vm_compute; reflexivity.
Defined.

(** ** Neutral chroma *)

Lemma sub_pzero_r (x : f32) : F32.sub x F32.pzero = x.
Proof. destruct x as [[] | [] | | s m e]; reflexivity. Qed.

(** With both chroma channels +0 the two YUV-to-RGB conversions return
    the luma in every channel. *)
Lemma neutral_chroma (l : f32) :
  l <> F32.nzero ->
  srgbYuvToRgb (mkColor l F32.pzero F32.pzero) = mkColor l l l /\
  bt2100YuvToRgb (mkColor l F32.pzero F32.pzero) = mkColor l l l.
Proof.
  intros Hl. unfold srgbYuvToRgb, bt2100YuvToRgb, y, u, v. cbn [r g b].
  change (F32.mul kSrgbRCr F32.pzero) with F32.pzero.
  change (F32.mul kSrgbGCb F32.pzero) with F32.pzero.
  change (F32.mul kSrgbGCr F32.pzero) with F32.pzero.
  change (F32.mul kSrgbBCb F32.pzero) with F32.pzero.
  change (F32.mul kBt2100Cr F32.pzero) with F32.pzero.
  change (F32.mul kBt2100GCb F32.pzero) with F32.pzero.
  change (F32.mul kBt2100GCr F32.pzero) with F32.pzero.
  change (F32.mul kBt2100Cb F32.pzero) with F32.pzero.
  rewrite !sub_pzero_r, !add_pzero_r by assumption. split; reflexivity.
Qed.


(** ** Quotients of small integers *)

Lemma div_normal (sx sy : bool) (mx my : positive) (ex ey : Z) :
  Zdigits2 (Zpos mx) = 24 -> Zdigits2 (Zpos my) = 24 ->
  -100 <= ex - ey <= 100 ->
  exists m e,
    F32.div (S754_finite sx mx ex) (S754_finite sy my ey)
      = S754_finite (xorb sx sy) m e /\
    Zpos m < 2 ^ 24 /\ e <= ex - ey - 22.
Proof.
  intros Dx Dy He.
  unfold F32.div, SFdiv, SFdiv_core_binary. rewrite Dx, Dy, fexp32_eq.
  replace (Z.min (Z.max (24 + ex - (24 + ey) - 24) (-149)) (ex - ey))
    with (ex - ey - 24) by lia.
  replace (ex - ey - (ex - ey - 24)) with 24 by lia. cbv iota.
  rewrite Z.shiftl_mul_pow2 by lia.
  pose proof (Zdigits2_bounds (Zpos mx) ltac:(lia)) as Bx.
  pose proof (Zdigits2_bounds (Zpos my) ltac:(lia)) as By.
  rewrite Dx in Bx. rewrite Dy in By.
  change (2 ^ (24 - 1)) with 8388608 in *. change (2 ^ 24) with 16777216 in *.
  pose proof (Z_div_mod (Zpos mx * 16777216) (Zpos my) ltac:(lia)) as Hdm.
  destruct (Z.div_eucl (Zpos mx * 16777216) (Zpos my)) as [q rem].
  destruct Hdm as [Hq Hrem].
  assert (Hq1 : 8388608 <= q) by nia.
  assert (Hq2 : q < 33554432) by nia.
  destruct (binary_round_aux_any (xorb sx sy) q (ex - ey - 24)
              (new_location (Zpos my) rem) ltac:(lia))
    as (m2 & Hm2 & Hle & ->).
  assert (Dq : 24 <= Zdigits2 q <= 25).
  { rewrite Zdigits2_log2 by lia.
    pose proof (Z.log2_le_mono 8388608 q ltac:(lia)) as L1.
    change (Z.log2 8388608) with 23 in L1.
    assert (Z.log2 q < 25) by (apply Z.log2_lt_pow2; lia). lia. }
  rewrite fexp32_eq in *.
  replace (Z.max (ex - ey - 24) (Z.max (Zdigits2 q + (ex - ey - 24) - 24) (-149)))
    with (Zdigits2 q + (ex - ey - 24) - 24) in * by lia.
  replace (Zdigits2 q + (ex - ey - 24) - 24 - (ex - ey - 24))
    with (Zdigits2 q - 24) in * by lia.
  assert (Hm1 : 4194304 <= q / 2 ^ (Zdigits2 q - 24)).
  { destruct (Z.eq_dec (Zdigits2 q) 24) as [-> | Hne].
    - simpl (2 ^ (24 - 24)). rewrite Z.div_1_r. lia.
    - replace (Zdigits2 q) with 25 by lia. simpl (2 ^ (25 - 24)).
      apply Z.div_le_lower_bound; lia. }
  change (2 ^ 24) with 16777216 in *.
  destruct (Z.eqb_spec m2 0); [lia |].
  destruct (Z.eqb_spec m2 16777216).
  - destruct (Z.leb_spec (Zdigits2 q + (ex - ey - 24) - 24 + 1) 104); [| lia].
    do 2 eexists. split; [reflexivity |]. split; [reflexivity | lia].
  - destruct (Z.leb_spec (Zdigits2 q + (ex - ey - 24) - 24) 104); [| lia].
    do 2 eexists. split; [reflexivity |]. rewrite Z2Pos.id by lia.
    split; lia.
Qed.

Lemma floor_to_unsigned (m : positive) (e : Z) :
  Zpos m < 2 ^ 24 -> e <= 2 ->
  exists k, F32.to_unsigned 64 (F32.floor (S754_finite false m e)) = Some k /\
            0 <= k < 2 ^ 26.
Proof.
  intros Hm He. unfold F32.floor.
  destruct (Z.leb_spec 0 e) as [H0 | H0].
  - unfold F32.to_unsigned, F32.trunc, F32.mag_trunc.
    destruct (Z.leb_spec 0 e); [| lia].
    rewrite Z.shiftl_mul_pow2 by lia.
    assert (Hp : 0 < 2 ^ e <= 4).
    { split; [apply Z.pow_pos_nonneg; lia |].
      change 4 with (2 ^ 2). apply Z.pow_le_mono_r; lia. }
    change (2 ^ 24) with 16777216 in *. change (2 ^ 26) with 67108864.
    exists (Zpos m * 2 ^ e).
    destruct (Z.leb_spec 0 (Zpos m * 2 ^ e)); [| nia].
    destruct (Z.ltb_spec (Zpos m * 2 ^ e) (2 ^ 64)); [| nia].
    split; [reflexivity | nia].
  - rewrite Z.shiftr_div_pow2, Z.shiftl_mul_pow2 by lia.
    assert (Hp : 0 < 2 ^ (- e)) by (apply Z.pow_pos_nonneg; lia).
    assert (Hq : 0 <= Zpos m / 2 ^ (- e) < 2 ^ 24).
    { split; [apply Z.div_pos; lia |].
      apply Z.div_lt_upper_bound; [lia |].
      change (2 ^ 24) with 16777216 in *. nia. }
    set (q := Zpos m / 2 ^ (- e)) in *.
    assert (H26 : 2 ^ 24 < 2 ^ 26) by reflexivity.
    destruct (Z.eqb_spec (q * 2 ^ (- e)) (Zpos m)).
    + exists q. unfold F32.to_unsigned, F32.trunc, F32.mag_trunc.
      destruct (Z.leb_spec 0 e); [lia |].
      rewrite Z.shiftr_div_pow2 by lia. fold q.
      destruct (Z.leb_spec 0 q); [| lia].
      destruct (Z.ltb_spec q (2 ^ 64)); [| change (2 ^ 24) with 16777216 in *;
                                            change (2 ^ 64) with 18446744073709551616 in *; lia].
      split; [reflexivity | lia].
    + destruct (Z.eqb_spec q 0).
      * exists 0. split; [reflexivity | lia].
      * exists q. rewrite to_unsigned_of_Z by lia. split; [reflexivity | lia].
Qed.

Lemma canon_digits (n : Z) :
  0 < n < 2 ^ 24 ->
  exists m, canon n = S754_finite false m (Zdigits2 n - 24) /\
            Zdigits2 (Zpos m) = 24 /\ 0 < Zdigits2 n <= 24.
Proof.
  intros Hn. destruct (canon_mantissa n Hn) as [Em Dm].
  eexists. split; [reflexivity |]. rewrite Em. split; [exact Dm |].
  split; [apply Zdigits2_pos; lia | apply Zdigits2_le; lia].
Qed.

(** The cell coordinate [floor(x / scale)] is always a value of [size_t]. *)
Lemma cell_coordinate (x s : Z) :
  0 <= x < 2 ^ 24 -> 0 < s < 2 ^ 24 ->
  exists k,
    F32.to_unsigned 64 (F32.floor (F32.div (F32.of_Z x) (F32.of_Z s))) = Some k /\
    0 <= k < 2 ^ 26.
Proof.
  intros Hx Hs. rewrite (of_Z_canon s) by lia.
  destruct (canon_digits s Hs) as (ms & -> & Ds & Hds).
  destruct (Z.eq_dec x 0) as [-> | Hx0].
  - exists 0. split; [reflexivity | lia].
  - rewrite (of_Z_canon x) by lia.
    destruct (canon_digits x ltac:(lia)) as (mx & -> & Dx & Hdx).
    destruct (div_normal false false mx ms (Zdigits2 x - 24) (Zdigits2 s - 24)
                Dx Ds ltac:(lia)) as (m & e & -> & Hm & He).
    cbn [xorb]. apply floor_to_unsigned; lia.
Qed.

(** ** The bilinear sampler is defined everywhere *)

Lemma map_cell_defined (map : jr_uncompressed_ptr) (cx cy : Z) :
  width map * height map <= Z.of_nat (length (data map)) ->
  width map * height map < 2 ^ 64 ->
  0 <= cx < width map -> 0 <= cy < height map ->
  exists c : byte, map_cell map cx cy = Some (mapUintToFloat (Z.of_N (Byte.to_N c))).
Proof.
  intros Hlen Hsz Hcx Hcy. unfold map_cell.
  assert (Hi : 0 <= cx + cy * width map < width map * height map) by nia.
  rewrite (size_t_small (cy * width map)) by nia.
  rewrite size_t_small by lia.
  destruct (read_u8_in_range (data map) (cx + cy * width map)) as (z & Hz); [lia |].
  rewrite Hz. destruct (read_u8_byte _ _ _ Hz) as (c & ->). now exists c.
Qed.

(** X13.  The bilinear sampler is defined everywhere: for a map that holds
    [width * height] bytes, a scale factor and coordinates below 2^24, the
    casts of the cell coordinates are in range and the four reads stay
    inside the buffer, also for coordinates beyond the last cell, where the
    indices are clamped to the edge. *)
Theorem sampleMap_defined (map : jr_uncompressed_ptr) (map_scale_factor x y : Z) :
  0 < width map -> 0 < height map ->
  width map * height map <= Z.of_nat (length (data map)) ->
  width map * height map < 2 ^ 64 ->
  0 < map_scale_factor < 2 ^ 24 -> 0 <= x < 2 ^ 24 -> 0 <= y < 2 ^ 24 ->
  exists gain, sampleMap map map_scale_factor x y = Some gain.
Proof.
  intros Hw Hh Hlen Hsz Hs Hx Hy. unfold sampleMap.
  destruct (cell_coordinate x map_scale_factor Hx Hs) as (kx & -> & Hkx).
  destruct (cell_coordinate y map_scale_factor Hy Hs) as (ky & -> & Hky).
  cbn [bind].
  assert (H26 : 2 ^ 26 < 2 ^ 64) by reflexivity.
  assert (Hw64 : width map < 2 ^ 64) by nia.
  assert (Hh64 : height map < 2 ^ 64) by nia.
  rewrite !(size_t_small (_ + 1)), !(size_t_small (_ - 1)) by lia.
  rewrite !clamp_min by lia.
  destruct (map_cell_defined map (Z.min kx (width map - 1))
              (Z.min ky (height map - 1))) as (c1 & ->); try lia.
  destruct (map_cell_defined map (Z.min kx (width map - 1))
              (Z.min (ky + 1) (height map - 1))) as (c2 & ->); try lia.
  destruct (map_cell_defined map (Z.min (kx + 1) (width map - 1))
              (Z.min ky (height map - 1))) as (c3 & ->); try lia.
  destruct (map_cell_defined map (Z.min (kx + 1) (width map - 1))
              (Z.min (ky + 1) (height map - 1))) as (c4 & ->); try lia.
  cbn [bind]. eexists. reflexivity.
Qed.

Lemma sampleMap_defined_witness :
  exists gain, sampleMap ramp_map 3 1000 7 = Some gain.
Proof.
  apply (sampleMap_defined ramp_map 3 1000 7); vm_compute; try split; congruence.
Defined.

Lemma aligned_weights (c1 c2 c3 c4 : byte) :
  let e1 := mapUintToFloat (Z.of_N (Byte.to_N c1)) in
  let e2 := mapUintToFloat (Z.of_N (Byte.to_N c2)) in
  let e3 := mapUintToFloat (Z.of_N (Byte.to_N c3)) in
  let e4 := mapUintToFloat (Z.of_N (Byte.to_N c4)) in
  F32.add (F32.add (F32.add
     (F32.div (F32.mul e1 F32.pzero) F32.two)
     (F32.div (F32.mul e2 F32.one) F32.two))
     (F32.div (F32.mul e3 F32.one) F32.two))
     (F32.div (F32.mul e4 F32.two) F32.two)
  = F32.add (F32.add (F32.div e2 F32.two) (F32.div e3 F32.two)) e4.
Proof.
  intros e1 e2 e3 e4.
  assert (H1 : exists s, F32.div (F32.mul e1 F32.pzero) F32.two = S754_zero s).
  { unfold e1. destruct c1; vm_compute; eexists; reflexivity. }
  assert (H2 : F32.mul e2 F32.one = e2).
  { unfold e2. destruct c2; vm_compute; reflexivity. }
  assert (H3 : F32.mul e3 F32.one = e3).
  { unfold e3. destruct c3; vm_compute; reflexivity. }
  assert (H4 : F32.div (F32.mul e4 F32.two) F32.two = e4).
  { unfold e4. destruct c4; vm_compute; reflexivity. }
  assert (H5 : exists s m e, F32.div e2 F32.two = S754_finite s m e).
  { unfold e2. destruct c2; vm_compute; do 3 eexists; reflexivity. }
  destruct H1 as (s1 & ->). rewrite H2, H3, H4.
  destruct H5 as (s & m & e & ->). destruct s1; reflexivity.
Qed.

Lemma map_cell_agree (map map' : jr_uncompressed_ptr) (cx cy i : Z) :
  width map' = width map ->
  width map * height map < 2 ^ 64 ->
  0 <= cx < width map -> 0 <= cy < height map ->
  cx + cy * width map <> i ->
  (forall j, j <> i -> read_u8 (data map') j = read_u8 (data map) j) ->
  map_cell map' cx cy = map_cell map cx cy.
Proof.
  intros Ew Hsz Hcx Hcy Hi Hag. unfold map_cell. rewrite Ew.
  assert (0 <= cx + cy * width map < width map * height map) by nia.
  rewrite (size_t_small (cy * width map)) by nia.
  rewrite size_t_small by lia.
  rewrite Hag by assumption. reflexivity.
Qed.

(** X14.  At coordinates that the scale factor divides, the sample is
    [e2 / 2 + e3 / 2 + e4], where [e2], [e3] and [e4] are the gains of the
    cells below, to the right of and diagonally after the aligned cell,
    clamped to the edge of the map (so that on the last row or column they
    can be the aligned cell itself).  When the aligned cell is on neither
    the last row nor the last column, its own byte has no influence: a map
    that differs from [map] at most in that byte has the same sample. *)
Theorem sampleMap_aligned_neighbours
    (map : jr_uncompressed_ptr) (map_scale_factor x y : Z) :
  0 < width map -> 0 < height map ->
  width map * height map <= Z.of_nat (length (data map)) ->
  width map * height map < 2 ^ 64 ->
  0 < map_scale_factor < 2 ^ 24 -> 0 <= x < 2 ^ 24 -> 0 <= y < 2 ^ 24 ->
  (map_scale_factor | x) -> (map_scale_factor | y) ->
  x / map_scale_factor < width map -> y / map_scale_factor < height map ->
  let cx := x / map_scale_factor in
  let cy := y / map_scale_factor in
  let cx' := Z.min (cx + 1) (width map - 1) in
  let cy' := Z.min (cy + 1) (height map - 1) in
  (exists e2 e3 e4,
     map_cell map cx cy' = Some e2 /\
     map_cell map cx' cy = Some e3 /\
     map_cell map cx' cy' = Some e4 /\
     sampleMap map map_scale_factor x y
       = Some (F32.add (F32.add (F32.div e2 F32.two) (F32.div e3 F32.two)) e4)) /\
  (cx + 1 < width map -> cy + 1 < height map ->
   forall map' : jr_uncompressed_ptr,
     width map' = width map -> height map' = height map ->
     width map * height map <= Z.of_nat (length (data map')) ->
     (forall i, i <> cx + cy * width map ->
        read_u8 (data map') i = read_u8 (data map) i) ->
     sampleMap map' map_scale_factor x y = sampleMap map map_scale_factor x y).
Proof.
  intros Hw Hh Hlen Hsz Hs Hx Hy Dx Dy Hxw Hyh cx cy cx' cy'.
  assert (Hw64 : width map < 2 ^ 64) by nia.
  assert (Hh64 : height map < 2 ^ 64) by nia.
  assert (Hcx : 0 <= cx) by (apply Z.div_pos; lia).
  assert (Hcy : 0 <= cy) by (apply Z.div_pos; lia).
  split.
  - rewrite sampleMap_on_grid by (assumption || lia).
    fold cx cy. fold cx' cy'.
    destruct (map_cell_defined map cx cy) as (c1 & ->); try lia.
    destruct (map_cell_defined map cx cy') as (c2 & ->); try lia.
    destruct (map_cell_defined map cx' cy) as (c3 & ->); try lia.
    destruct (map_cell_defined map cx' cy') as (c4 & ->); try lia.
    cbn [bind]. do 3 eexists. repeat split. f_equal. apply aligned_weights.
  - intros Ix Iy map' Ew Eh Hlen' Hag.
    rewrite (sampleMap_on_grid map) by (assumption || lia).
    rewrite (sampleMap_on_grid map') by (rewrite ?Ew, ?Eh; assumption || lia).
    rewrite Ew, Eh. fold cx cy. fold cx' cy'.
    assert (Ex : cx' = cx + 1) by (unfold cx'; lia).
    assert (Ey : cy' = cy + 1) by (unfold cy'; lia).
    rewrite (map_cell_agree map map' cx cy' (cx + cy * width map));
      [| assumption | assumption | lia | lia | nia | intros; now apply Hag].
    rewrite (map_cell_agree map map' cx' cy (cx + cy * width map));
      [| assumption | assumption | lia | lia | nia | intros; now apply Hag].
    rewrite (map_cell_agree map map' cx' cy' (cx + cy * width map));
      [| assumption | assumption | lia | lia | nia | intros; now apply Hag].
    destruct (map_cell_defined map' cx cy) as (c1' & ->);
      rewrite ?Ew, ?Eh; try lia.
    destruct (map_cell_defined map cx cy) as (c1 & ->); try lia.
    destruct (map_cell_defined map cx cy') as (c2 & ->); try lia.
    destruct (map_cell_defined map cx' cy) as (c3 & ->); try lia.
    destruct (map_cell_defined map cx' cy') as (c4 & ->); try lia.
    cbn [bind]. f_equal.
    transitivity (F32.add (F32.add
        (F32.div (mapUintToFloat (Z.of_N (Byte.to_N c2))) F32.two)
        (F32.div (mapUintToFloat (Z.of_N (Byte.to_N c3))) F32.two))
        (mapUintToFloat (Z.of_N (Byte.to_N c4)))).
    + apply aligned_weights.
    + symmetry. apply aligned_weights.
Qed.

Lemma sampleMap_aligned_neighbours_witness :
  (exists e2 e3 e4,
     map_cell ramp_map 0 1 = Some e2 /\
     map_cell ramp_map 1 0 = Some e3 /\
     map_cell ramp_map 1 1 = Some e4 /\
     sampleMap ramp_map 4 0 0
       = Some (F32.add (F32.add (F32.div e2 F32.two) (F32.div e3 F32.two)) e4)) /\
  (0 + 1 < 2 -> 0 + 1 < 2 ->
   forall map' : jr_uncompressed_ptr,
     width map' = 2 -> height map' = 2 ->
     2 * 2 <= Z.of_nat (length (data map')) ->
     (forall i, i <> 0 + 0 * 2 ->
        read_u8 (data map') i = read_u8 (data ramp_map) i) ->
     sampleMap map' 4 0 0 = sampleMap ramp_map 4 0 0).
Proof.
  apply (sampleMap_aligned_neighbours ramp_map 4 0 0);
    try (vm_compute; try split; congruence);
    exists 0; reflexivity.
Defined.

(** X25.  On the last column the byte of the aligned cell does count: the
    clamped right-hand neighbour is the aligned cell itself.  The two 2x2
    maps below differ only at cell (1, 0), and their samples at the aligned
    coordinates (4, 0), scale factor 4, differ. *)
Theorem sampleMap_aligned_edge_cell_counts :
  let map' := {| data := [x00; x41; x80; xff]; width := 2; height := 2 |} in
  (forall i, i <> 1 -> read_u8 (data map') i = read_u8 (data ramp_map) i) /\
  sampleMap ramp_map 4 4 0 = Some (S754_finite false 10493984 (-23)) /\
  sampleMap map' 4 4 0 = Some (S754_finite false 10526880 (-23)) /\
  sampleMap map' 4 4 0 <> sampleMap ramp_map 4 4 0.
Proof.
  cbv zeta. split; [| split; [| split]].
  - intros i Hi. unfold read_u8. cbn [data ramp_map].
    destruct (Z.ltb_spec i 0) as [Hn | Hn]; [reflexivity |].
    destruct (Z.to_nat i) as [| [| [| [| n]]]] eqn:E; try reflexivity.
    lia.
  - vm_compute. reflexivity.
  - vm_compute. reflexivity.
  - vm_compute. discriminate.
Qed.


(** ** The YUV420 pixel reader *)

(** The three indices of the reader, when nothing wraps around. *)
Lemma getYuv420Pixel_indices (image : jr_uncompressed_ptr) (x y : Z) :
  let w := width image in
  let h := height image in
  let cidx := x / 2 + (y / 2) * (w / 2) in
  0 <= x < w -> 0 <= y < h -> w * h * 5 < 2 ^ 64 ->
  (0 <= x + y * w < w * h /\ 0 <= cidx /\
   w * h + cidx <= w * h * 5 / 4 + cidx) /\
  getYuv420Pixel image x y =
    (Y <- read_u8 (data image) (x + y * w) ;;
     U <- read_u8 (data image) (w * h + cidx) ;;
     V <- read_u8 (data image) (w * h * 5 / 4 + cidx) ;;
     Some (mkColor (F32.div (F32.of_Z Y) c255)
                   (F32.div (F32.sub (F32.of_Z U) c128) c255)
                   (F32.div (F32.sub (F32.of_Z V) c128) c255))).
Proof.
  intros w h cidx Hx Hy Hfit.
  pose proof size_t_small as Hsmall.
  remember (2 ^ 64) as P eqn:HP in Hfit, Hsmall. clear HP.
  assert (Hw2 : 0 <= w / 2 <= w) by (split; [apply Z.div_pos | apply Z.div_le_upper_bound]; lia).
  assert (Hx2 : 0 <= x / 2 <= x) by (split; [apply Z.div_pos | apply Z.div_le_upper_bound]; lia).
  assert (Hy2 : 0 <= y / 2 <= y) by (split; [apply Z.div_pos | apply Z.div_le_upper_bound]; lia).
  assert (Hyw : 0 <= y * w /\ x + y * w < w * h) by nia.
  assert (Hwh : 0 <= w * h) by nia.
  assert (Hw64 : w <= w * h) by nia.
  assert (Hcu : 0 <= y / 2 * (w / 2) <= y * w) by nia.
  assert (Hc : 0 <= cidx < w * h) by (unfold cidx; lia).
  assert (H54 : w * h <= w * h * 5 / 4 /\ w * h * 5 / 4 + w * h <= w * h * 5).
  { split; [apply Z.div_le_lower_bound; lia |].
    pose proof (Z.mul_div_le (w * h * 5) 4 ltac:(lia)). lia. }
  split; [lia |].
  unfold getYuv420Pixel. fold w h.
  rewrite (Hsmall (w * h)) by (split; lia).
  rewrite (Hsmall (y * w)) by (split; lia).
  rewrite (Hsmall (x + y * w)) by (split; lia).
  rewrite (Hsmall (w / 2)) by (split; lia).
  rewrite (Hsmall (y / 2 * (w / 2))) by (split; lia).
  fold cidx. rewrite (Hsmall cidx) by (split; lia).
  rewrite (Hsmall (w * h + cidx)) by (split; lia).
  rewrite (Hsmall (w * h * 5)) by (split; lia).
  rewrite (Hsmall (w * h * 5 / 4 + cidx)) by (split; lia).
  reflexivity.
Qed.

(** X15.  For in-range coordinates the YUV420 reader is defined exactly
    when the buffer reaches the V sample: the byte at index
    [w * h * 5 / 4 + cidx] is the last one it reads, so a shorter buffer
    is read out of bounds and a buffer that holds it never is. *)
Theorem getYuv420Pixel_defined_iff (image : jr_uncompressed_ptr) (px py : Z) :
  let w := width image in
  let h := height image in
  let cidx := px / 2 + (py / 2) * (w / 2) in
  0 <= px < w -> 0 <= py < h -> w * h * 5 < 2 ^ 64 ->
  ((exists c, getYuv420Pixel image px py = Some c) <->
   w * h * 5 / 4 + cidx < Z.of_nat (length (data image))).
Proof.
  intros w h cidx Hx Hy Hfit.
  destruct (getYuv420Pixel_indices image px py Hx Hy Hfit) as [Hi ->].
  fold w h in Hi |- *. fold cidx in Hi |- *.
  split.
  - intros (c & Hc).
    apply bind_some in Hc as (Y & _ & Hc).
    apply bind_some in Hc as (U & _ & Hc).
    apply bind_some in Hc as (V & HV & _).
    apply read_u8_some_range in HV. lia.
  - intros Hlen.
    destruct (read_u8_in_range (data image) (px + py * w)) as [Y ->]; [lia |].
    destruct (read_u8_in_range (data image) (w * h + cidx)) as [U ->]; [lia |].
    destruct (read_u8_in_range (data image) (w * h * 5 / 4 + cidx)) as [V ->];
      [lia |].
    eexists. reflexivity.
Qed.

Lemma getYuv420Pixel_defined_iff_witness :
  (exists c, getYuv420Pixel tiny_image 1 1 = Some c) <->
  2 * 2 * 5 / 4 + (1 / 2 + 1 / 2 * (2 / 2)) < Z.of_nat (length (data tiny_image)).
Proof.
  apply (getYuv420Pixel_defined_iff tiny_image 1 1);
    vm_compute; try split; congruence.
Defined.

(** The luma of each of the 256 bytes. *)
Lemma yuv420_luma (c : byte) :
  let l := F32.div (F32.of_Z (Z.of_N (Byte.to_N c))) c255 in
  F32.leb F32.pzero l = true /\ F32.leb l F32.one = true /\ l <> F32.nzero /\
  F32.add F32.pzero l = l /\ F32.div l F32.one = l.
Proof. destruct c; vm_compute; repeat split; congruence. Qed.

(** The chroma of each of the 256 bytes. *)
Lemma yuv420_chroma (c : byte) :
  let k := F32.div (F32.sub (F32.of_Z (Z.of_N (Byte.to_N c))) c128) c255 in
  F32.leb (F32.lit (-128) 255) k = true /\ F32.leb k (F32.lit 127 255) = true /\
  F32.add F32.pzero k = k /\ F32.div k F32.one = k /\
  (k = F32.pzero <-> c = x80).
Proof. destruct c; vm_compute; repeat split; congruence. Qed.

Lemma getYuv420Pixel_bytes (image : jr_uncompressed_ptr) (x y : Z) (c : Color) :
  getYuv420Pixel image x y = Some c ->
  exists Y U V : byte,
    c = mkColor (F32.div (F32.of_Z (Z.of_N (Byte.to_N Y))) c255)
                (F32.div (F32.sub (F32.of_Z (Z.of_N (Byte.to_N U))) c128) c255)
                (F32.div (F32.sub (F32.of_Z (Z.of_N (Byte.to_N V))) c128) c255).
Proof.
  unfold getYuv420Pixel. intros H.
  apply bind_some in H as (Y & HY & H).
  apply bind_some in H as (U & HU & H).
  apply bind_some in H as (V & HV & H).
  destruct (read_u8_byte _ _ _ HY) as (cY & ->).
  destruct (read_u8_byte _ _ _ HU) as (cU & ->).
  destruct (read_u8_byte _ _ _ HV) as (cV & ->).
  exists cY, cU, cV. congruence.
Qed.

(** X16.  Whatever the buffer holds, a pixel that the YUV420 reader
    returns has its luma in [0, 1] and both chroma channels in
    [-128/255, 127/255]. *)
Theorem getYuv420Pixel_ranges
    (image : jr_uncompressed_ptr) (px py : Z) (c : Color) :
  getYuv420Pixel image px py = Some c ->
  F32.leb F32.pzero (y c) = true /\
  F32.leb (y c) F32.one = true /\
  F32.leb (F32.lit (-128) 255) (u c) = true /\
  F32.leb (u c) (F32.lit 127 255) = true /\
  F32.leb (F32.lit (-128) 255) (v c) = true /\
  F32.leb (v c) (F32.lit 127 255) = true.
Proof.
  intros H. destruct (getYuv420Pixel_bytes _ _ _ _ H) as (Y & U & V & ->).
  unfold y, u, v. cbn [r g b].
  destruct (yuv420_luma Y) as (? & ? & _).
  destruct (yuv420_chroma U) as (? & ? & _).
  destruct (yuv420_chroma V) as (? & ? & _).
  repeat split; assumption.
Qed.

Lemma getYuv420Pixel_ranges_witness :
  F32.leb F32.pzero (F32.div (F32.of_Z 64) c255) = true /\
  F32.leb (F32.div (F32.of_Z 64) c255) F32.one = true.
Proof.
  destruct (getYuv420Pixel_ranges tiny_image 1 1
              (mkColor (F32.div (F32.of_Z 64) c255)
                       (F32.div (F32.sub (F32.of_Z 80) c128) c255)
                       (F32.div (F32.sub (F32.of_Z 96) c128) c255)))
    as (H1 & H2 & _).
  - vm_compute. reflexivity.
  - split; assumption.
Defined.

(** X17.  A YUV420 pixel whose U and V bytes are both 128 is grey: the
    reader returns zero chroma, and the sRGB and BT.2100 conversions to
    RGB return the luma [Y / 255] in all three channels. *)
Theorem getYuv420Pixel_neutral_is_grey
    (image : jr_uncompressed_ptr) (px py Y : Z) :
  let w := width image in
  let h := height image in
  let cidx := px / 2 + (py / 2) * (w / 2) in
  0 <= px < w -> 0 <= py < h -> w * h * 5 < 2 ^ 64 ->
  read_u8 (data image) (px + py * w) = Some Y ->
  read_u8 (data image) (w * h + cidx) = Some 128 ->
  read_u8 (data image) (w * h * 5 / 4 + cidx) = Some 128 ->
  let l := F32.div (F32.of_Z Y) c255 in
  getYuv420Pixel image px py = Some (mkColor l F32.pzero F32.pzero) /\
  srgbYuvToRgb (mkColor l F32.pzero F32.pzero) = mkColor l l l /\
  bt2100YuvToRgb (mkColor l F32.pzero F32.pzero) = mkColor l l l.
Proof.
  intros w h cidx Hx Hy Hfit HY HU HV l.
  destruct (getYuv420Pixel_indices image px py Hx Hy Hfit) as [_ ->].
  fold w h. fold cidx. rewrite HY, HU, HV. cbn [bind].
  change (F32.div (F32.sub (F32.of_Z 128) c128) c255) with F32.pzero.
  split; [reflexivity |].
  apply neutral_chroma. unfold l.
  destruct (read_u8_byte _ _ _ HY) as (cY & ->).
  now destruct (yuv420_luma cY) as (_ & _ & Hn & _).
Qed.

Lemma getYuv420Pixel_neutral_is_grey_witness :
  getYuv420Pixel grey_image 1 1
    = Some (mkColor (F32.div (F32.of_Z 64) c255) F32.pzero F32.pzero) /\
  srgbYuvToRgb (mkColor (F32.div (F32.of_Z 64) c255) F32.pzero F32.pzero)
    = mkColor (F32.div (F32.of_Z 64) c255) (F32.div (F32.of_Z 64) c255)
              (F32.div (F32.of_Z 64) c255) /\
  bt2100YuvToRgb (mkColor (F32.div (F32.of_Z 64) c255) F32.pzero F32.pzero)
    = mkColor (F32.div (F32.of_Z 64) c255) (F32.div (F32.of_Z 64) c255)
              (F32.div (F32.of_Z 64) c255).
Proof.
  apply (getYuv420Pixel_neutral_is_grey grey_image 1 1 64);
    vm_compute; try split; congruence.
Defined.

(** ** The P010 pixel reader *)

Lemma read_u16_range (buf : list byte) (i z : Z) :
  read_u16 buf i = Some z -> 0 <= z < 65536.
Proof.
  unfold read_u16. intros H.
  apply bind_some in H as (lo & Hlo & H). apply bind_some in H as (hi & Hhi & H).
  assert (E : z = lo + 256 * hi) by congruence.
  destruct (read_u8_byte _ _ _ Hlo) as (cl & El).
  destruct (read_u8_byte _ _ _ Hhi) as (ch & Eh).
  pose proof (byte_range cl). pose proof (byte_range ch). lia.
Qed.

Lemma read_u16_in_range (buf : list byte) (i : Z) :
  0 <= i -> 2 * i + 1 < Z.of_nat (length buf) ->
  exists z, read_u16 buf i = Some z.
Proof.
  intros Hi Hlen. unfold read_u16.
  destruct (read_u8_in_range buf (2 * i)) as (lo & ->); [lia |].
  destruct (read_u8_in_range buf (2 * i + 1)) as (hi & ->); [lia |].
  eexists. reflexivity.
Qed.

Lemma read_u16_some_range (buf : list byte) (i z : Z) :
  read_u16 buf i = Some z -> 2 * i + 1 < Z.of_nat (length buf).
Proof.
  unfold read_u16. intros H.
  apply bind_some in H as (lo & _ & H). apply bind_some in H as (hi & Hhi & _).
  apply read_u8_some_range in Hhi. lia.
Qed.

Lemma read_u16_skipn (buf : list byte) (off i : Z) :
  0 <= off -> 0 <= i ->
  read_u16 (skipn (Z.to_nat (2 * off)) buf) i = read_u16 buf (off + i).
Proof.
  intros Hoff Hi. unfold read_u16. rewrite !read_u8_skipn by lia.
  replace (2 * off + 2 * i) with (2 * (off + i)) by lia.
  replace (2 * off + (2 * i + 1)) with (2 * (off + i) + 1) by lia.
  reflexivity.
Qed.

Lemma read_u16_firstn (buf : list byte) (len i : Z) :
  0 <= i < len -> read_u16 (firstn (Z.to_nat (2 * len)) buf) i = read_u16 buf i.
Proof.
  intros Hi. unfold read_u16. rewrite !read_u8_firstn by lia. reflexivity.
Qed.

Lemma top_ten_bits (z : Z) : 0 <= z < 65536 -> 0 <= Z.shiftr z 6 < 1024.
Proof.
  intros Hz. rewrite Z.shiftr_div_pow2 by lia. change (2 ^ 6) with 64.
  split; [apply Z.div_pos; lia | apply Z.div_lt_upper_bound; lia].
Qed.

Lemma p010_luma (t : Z) :
  0 <= t < 1024 ->
  let l := F32.div (F32.of_Z t) c940 in
  F32.leb F32.pzero l = true /\ F32.leb l (F32.lit 1023 940) = true /\
  F32.add F32.pzero l = l /\ F32.div l F32.one = l /\
  (l = F32.pzero <-> t = 0).
Proof.
  intros Ht l.
  assert (H : forallb (fun t =>
                let l := F32.div (F32.of_Z t) c940 in
                F32.leb F32.pzero l && F32.leb l (F32.lit 1023 940)
                && same (F32.add F32.pzero l) l && same (F32.div l F32.one) l
                && Bool.eqb (same l F32.pzero) (t =? 0)) (upto 1024) = true)
    by (vm_compute; reflexivity).
  pose proof (upto_spec _ _ H t ltac:(lia)) as Hc. cbv beta zeta in Hc. fold l in Hc.
  repeat (apply andb_prop in Hc as [Hc ?]).
  repeat split; try assumption; try (now apply same_eq).
  - intros E. rewrite E in *. apply eqb_prop in H0.
    change (same F32.pzero F32.pzero) with true in H0.
    symmetry in H0. now apply Z.eqb_eq in H0.
  - intros E. apply Z.eqb_eq in E. rewrite E in H0. apply eqb_prop in H0.
    now apply same_eq.
Qed.

Lemma p010_chroma (t : Z) :
  0 <= t < 1024 ->
  let k := F32.sub (F32.div (F32.sub (F32.of_Z t) c64) c940) c0_5 in
  F32.leb (F32.sub (F32.lit (-64) 940) c0_5) k = true /\
  F32.leb k (F32.sub (F32.lit 959 940) c0_5) = true /\
  F32.add F32.pzero k = k /\ F32.div k F32.one = k /\
  (k = F32.pzero <-> t = 534).
Proof.
  intros Ht k.
  assert (H : forallb (fun t =>
                let k := F32.sub (F32.div (F32.sub (F32.of_Z t) c64) c940) c0_5 in
                F32.leb (F32.sub (F32.lit (-64) 940) c0_5) k
                && F32.leb k (F32.sub (F32.lit 959 940) c0_5)
                && same (F32.add F32.pzero k) k && same (F32.div k F32.one) k
                && Bool.eqb (same k F32.pzero) (t =? 534)) (upto 1024) = true)
    by (vm_compute; reflexivity).
  pose proof (upto_spec _ _ H t ltac:(lia)) as Hc. cbv beta zeta in Hc. fold k in Hc.
  repeat (apply andb_prop in Hc as [Hc ?]).
  repeat split; try assumption; try (now apply same_eq).
  - intros E. rewrite E in *. apply eqb_prop in H0.
    change (same F32.pzero F32.pzero) with true in H0.
    symmetry in H0. now apply Z.eqb_eq in H0.
  - intros E. apply Z.eqb_eq in E. rewrite E in H0. apply eqb_prop in H0.
    now apply same_eq.
Qed.

(** The three sample indices of the reader, when nothing wraps around. *)
Lemma getP010Pixel_indices (image : jr_uncompressed_ptr) (x y : Z) :
  let w := width image in
  let h := height image in
  let cidx := x / 2 + (y / 2) * (w / 2) in
  0 <= x < w -> 0 <= y < h -> w * h * 3 < 2 ^ 64 ->
  (0 <= x + y * w < w * h /\ 0 <= cidx /\ 2 * cidx + 1 <= w * h + w) /\
  getP010Pixel image x y =
    (Y <- read_u16 (data image) (x + y * w) ;;
     U <- read_u16 (data image) (w * h + 2 * cidx) ;;
     V <- read_u16 (data image) (w * h + 2 * cidx + 1) ;;
     Some (mkColor
             (F32.div (F32.of_Z (Z.shiftr Y 6)) c940)
             (F32.sub (F32.div (F32.sub (F32.of_Z (Z.shiftr U 6)) c64) c940) c0_5)
             (F32.sub (F32.div (F32.sub (F32.of_Z (Z.shiftr V 6)) c64) c940) c0_5))).
Proof.
  intros w h cidx Hx Hy Hfit.
  pose proof size_t_small as Hsmall.
  remember (2 ^ 64) as P eqn:HP in Hfit, Hsmall. clear HP.
  assert (Hw2 : 0 <= w / 2 /\ 2 * (w / 2) <= w).
  { split; [apply Z.div_pos; lia | apply Z.mul_div_le; lia]. }
  assert (Hx2 : 0 <= x / 2 /\ 2 * (x / 2) <= x).
  { split; [apply Z.div_pos; lia | apply Z.mul_div_le; lia]. }
  assert (Hy2 : 0 <= y / 2 /\ 2 * (y / 2) <= y).
  { split; [apply Z.div_pos; lia | apply Z.mul_div_le; lia]. }
  assert (Hyw : 0 <= y * w /\ x + y * w < w * h) by nia.
  assert (Hwh : 0 < w * h) by nia.
  assert (Hw64 : w <= w * h) by nia.
  assert (Hcu : 0 <= y / 2 * (w / 2) /\ 2 * (y / 2 * (w / 2)) <= y * w) by nia.
  assert (Hc : 0 <= cidx /\ 2 * cidx + 1 <= w * h + w) by (unfold cidx; nia).
  split; [lia |].
  unfold getP010Pixel. fold w h.
  rewrite (Hsmall (w * h)) by (split; lia).
  rewrite (Hsmall (y * w)) by (split; lia).
  rewrite (Hsmall (x + y * w)) by (split; lia).
  rewrite (Hsmall (w / 2)) by (split; lia).
  rewrite (Hsmall (y / 2 * (w / 2))) by (split; lia).
  fold cidx. rewrite (Hsmall cidx) by (split; lia).
  rewrite (Hsmall (cidx * 2)) by (split; lia).
  rewrite (Hsmall (w * h + cidx * 2)) by (split; lia).
  rewrite (Hsmall (w * h + cidx * 2 + 1)) by (split; lia).
  replace (cidx * 2) with (2 * cidx) by lia.
  reflexivity.
Qed.

(** X18.  The P010 reader takes 16-bit samples, low byte first, and keeps
    the top ten bits of each: Y from the luma plane of [w * h] samples at
    [x + y * w], and U and V from the plane behind it, interleaved, at the
    sample indices [2 * cidx] and [2 * cidx + 1]; the pixel is
    (Y / 940, (U - 64) / 940 - 0.5, (V - 64) / 940 - 0.5). *)
Theorem getP010Pixel_planes (image : jr_uncompressed_ptr) (px py : Z) :
  let w := width image in
  let h := height image in
  let cidx := px / 2 + (py / 2) * (w / 2) in
  0 <= px < w -> 0 <= py < h -> w * h * 3 < 2 ^ 64 ->
  2 * (w * h + 2 * cidx + 1) + 1 < Z.of_nat (length (data image)) ->
  exists Y U V,
    read_u16 (firstn (Z.to_nat (2 * (w * h))) (data image)) (px + py * w) = Some Y /\
    read_u16 (skipn (Z.to_nat (2 * (w * h))) (data image)) (2 * cidx) = Some U /\
    read_u16 (skipn (Z.to_nat (2 * (w * h))) (data image)) (2 * cidx + 1) = Some V /\
    getP010Pixel image px py
      = Some (mkColor
                (F32.div (F32.of_Z (Y / 64)) c940)
                (F32.sub (F32.div (F32.sub (F32.of_Z (U / 64)) c64) c940) c0_5)
                (F32.sub (F32.div (F32.sub (F32.of_Z (V / 64)) c64) c940) c0_5)).
Proof.
  intros w h cidx Hx Hy Hfit Hlen.
  destruct (getP010Pixel_indices image px py Hx Hy Hfit) as [Hi ->].
  fold w h in Hi |- *. fold cidx in Hi |- *.
  destruct (read_u16_in_range (data image) (px + py * w)) as [Y HY]; [lia | lia |].
  destruct (read_u16_in_range (data image) (w * h + 2 * cidx)) as [U HU];
    [lia | lia |].
  destruct (read_u16_in_range (data image) (w * h + 2 * cidx + 1)) as [V HV];
    [lia | lia |].
  exists Y, U, V.
  rewrite read_u16_firstn, !read_u16_skipn by lia.
  rewrite Z.add_assoc. repeat split; try assumption.
  rewrite HY, HU, HV. cbn [bind].
  rewrite !Z.shiftr_div_pow2 by lia. reflexivity.
Qed.

Lemma getP010Pixel_planes_witness :
  exists Y U V,
    read_u16 (firstn (Z.to_nat (2 * (2 * 2))) (data tiny_p010)) (1 + 1 * 2)
      = Some Y /\
    read_u16 (skipn (Z.to_nat (2 * (2 * 2))) (data tiny_p010))
             (2 * (1 / 2 + 1 / 2 * (2 / 2))) = Some U /\
    read_u16 (skipn (Z.to_nat (2 * (2 * 2))) (data tiny_p010))
             (2 * (1 / 2 + 1 / 2 * (2 / 2)) + 1) = Some V /\
    getP010Pixel tiny_p010 1 1
      = Some (mkColor
                (F32.div (F32.of_Z (Y / 64)) c940)
                (F32.sub (F32.div (F32.sub (F32.of_Z (U / 64)) c64) c940) c0_5)
                (F32.sub (F32.div (F32.sub (F32.of_Z (V / 64)) c64) c940) c0_5)).
Proof.
  apply (getP010Pixel_planes tiny_p010 1 1); vm_compute; try split; congruence.
Defined.

(** X19.  For in-range coordinates the P010 reader is defined exactly when
    the buffer holds both bytes of the V sample, the last one it reads, at
    sample index [w * h + 2 * cidx + 1]. *)
Theorem getP010Pixel_defined_iff (image : jr_uncompressed_ptr) (px py : Z) :
  let w := width image in
  let h := height image in
  let cidx := px / 2 + (py / 2) * (w / 2) in
  0 <= px < w -> 0 <= py < h -> w * h * 3 < 2 ^ 64 ->
  ((exists c, getP010Pixel image px py = Some c) <->
   2 * (w * h + 2 * cidx + 1) + 1 < Z.of_nat (length (data image))).
Proof.
  intros w h cidx Hx Hy Hfit.
  destruct (getP010Pixel_indices image px py Hx Hy Hfit) as [Hi ->].
  fold w h in Hi |- *. fold cidx in Hi |- *.
  split.
  - intros (c & Hc).
    apply bind_some in Hc as (Y & _ & Hc).
    apply bind_some in Hc as (U & _ & Hc).
    apply bind_some in Hc as (V & HV & _).
    now apply read_u16_some_range in HV.
  - intros Hlen.
    destruct (read_u16_in_range (data image) (px + py * w)) as [Y ->]; [lia | lia |].
    destruct (read_u16_in_range (data image) (w * h + 2 * cidx)) as [U ->];
      [lia | lia |].
    destruct (read_u16_in_range (data image) (w * h + 2 * cidx + 1)) as [V ->];
      [lia | lia |].
    eexists. reflexivity.
Qed.

Lemma getP010Pixel_defined_iff_witness :
  (exists c, getP010Pixel tiny_p010 1 1 = Some c) <->
  2 * (2 * 2 + 2 * (1 / 2 + 1 / 2 * (2 / 2)) + 1) + 1
    < Z.of_nat (length (data tiny_p010)).
Proof.
  apply (getP010Pixel_defined_iff tiny_p010 1 1);
    vm_compute; try split; congruence.
Defined.

Lemma getP010Pixel_samples (image : jr_uncompressed_ptr) (x y : Z) (c : Color) :
  getP010Pixel image x y = Some c ->
  exists Y U V,
    0 <= Y < 1024 /\ 0 <= U < 1024 /\ 0 <= V < 1024 /\
    c = mkColor
          (F32.div (F32.of_Z Y) c940)
          (F32.sub (F32.div (F32.sub (F32.of_Z U) c64) c940) c0_5)
          (F32.sub (F32.div (F32.sub (F32.of_Z V) c64) c940) c0_5).
Proof.
  unfold getP010Pixel. intros H.
  apply bind_some in H as (Y & HY & H).
  apply bind_some in H as (U & HU & H).
  apply bind_some in H as (V & HV & H).
  apply read_u16_range, top_ten_bits in HY, HU, HV.
  exists (Z.shiftr Y 6), (Z.shiftr U 6), (Z.shiftr V 6).
  repeat split; try lia. congruence.
Qed.

(** X20.  A pixel that the P010 reader returns is determined by three
    10-bit codes.  Its luma lies in [0, 1023/940] and is zero only for the
    code 0; its chroma channels lie in [-64/940 - 0.5, 959/940 - 0.5] and
    are zero only for the code 534, so the mid-scale code 512 does not
    decode to zero chroma. *)
Theorem getP010Pixel_codes
    (image : jr_uncompressed_ptr) (px py : Z) (c : Color) :
  getP010Pixel image px py = Some c ->
  exists Y U V,
    (0 <= Y < 1024 /\ 0 <= U < 1024 /\ 0 <= V < 1024) /\
    c = mkColor
          (F32.div (F32.of_Z Y) c940)
          (F32.sub (F32.div (F32.sub (F32.of_Z U) c64) c940) c0_5)
          (F32.sub (F32.div (F32.sub (F32.of_Z V) c64) c940) c0_5) /\
    (F32.leb F32.pzero (y c) = true /\
     F32.leb (y c) (F32.lit 1023 940) = true) /\
    (F32.leb (F32.sub (F32.lit (-64) 940) c0_5) (u c) = true /\
     F32.leb (u c) (F32.sub (F32.lit 959 940) c0_5) = true) /\
    (F32.leb (F32.sub (F32.lit (-64) 940) c0_5) (v c) = true /\
     F32.leb (v c) (F32.sub (F32.lit 959 940) c0_5) = true) /\
    (y c = F32.pzero <-> Y = 0) /\
    (u c = F32.pzero <-> U = 534) /\
    (v c = F32.pzero <-> V = 534).
Proof.
  intros H.
  destruct (getP010Pixel_samples _ _ _ _ H) as (Y & U & V & HY & HU & HV & ->).
  exists Y, U, V. unfold y, u, v. cbn [r g b].
  destruct (p010_luma Y HY) as (? & ? & _ & _ & ?).
  destruct (p010_chroma U HU) as (? & ? & _ & _ & ?).
  destruct (p010_chroma V HV) as (? & ? & _ & _ & ?).
  repeat split; solve [assumption | lia | tauto].
Qed.

Lemma getP010Pixel_codes_witness :
  exists Y U V,
    (0 <= Y < 1024 /\ 0 <= U < 1024 /\ 0 <= V < 1024) /\
    mkColor (F32.div (F32.of_Z 943) c940)
            (F32.sub (F32.div (F32.sub (F32.of_Z 512) c64) c940) c0_5)
            (F32.sub (F32.div (F32.sub (F32.of_Z 639) c64) c940) c0_5)
      = mkColor
          (F32.div (F32.of_Z Y) c940)
          (F32.sub (F32.div (F32.sub (F32.of_Z U) c64) c940) c0_5)
          (F32.sub (F32.div (F32.sub (F32.of_Z V) c64) c940) c0_5) /\
    (F32.leb F32.pzero (F32.div (F32.of_Z 943) c940) = true /\
     F32.leb (F32.div (F32.of_Z 943) c940) (F32.lit 1023 940) = true) /\
    (F32.leb (F32.sub (F32.lit (-64) 940) c0_5)
             (F32.sub (F32.div (F32.sub (F32.of_Z 512) c64) c940) c0_5) = true /\
     F32.leb (F32.sub (F32.div (F32.sub (F32.of_Z 512) c64) c940) c0_5)
             (F32.sub (F32.lit 959 940) c0_5) = true) /\
    (F32.leb (F32.sub (F32.lit (-64) 940) c0_5)
             (F32.sub (F32.div (F32.sub (F32.of_Z 639) c64) c940) c0_5) = true /\
     F32.leb (F32.sub (F32.div (F32.sub (F32.of_Z 639) c64) c940) c0_5)
             (F32.sub (F32.lit 959 940) c0_5) = true) /\
    (F32.div (F32.of_Z 943) c940 = F32.pzero <-> Y = 0) /\
    (F32.sub (F32.div (F32.sub (F32.of_Z 512) c64) c940) c0_5 = F32.pzero
       <-> U = 534) /\
    (F32.sub (F32.div (F32.sub (F32.of_Z 639) c64) c940) c0_5 = F32.pzero
       <-> V = 534).
Proof.
  apply (getP010Pixel_codes tiny_p010 1 1
           (mkColor (F32.div (F32.of_Z 943) c940)
              (F32.sub (F32.div (F32.sub (F32.of_Z 512) c64) c940) c0_5)
              (F32.sub (F32.div (F32.sub (F32.of_Z 639) c64) c940) c0_5))).
  vm_compute. reflexivity.
Defined.

(** ** Sampling a block of pixels *)

Lemma for_loop_defined {A : Type} (body : Z -> A -> option A) (P : Z -> Prop)
    (n : nat) (d : Z) (acc : A) :
  (forall i a, (exists a', body i a = Some a') <-> P i) ->
  ((exists res, for_loop n d body acc = Some res) <->
   forall i, d <= i < d + Z.of_nat n -> P i).
Proof.
  intros Hbody. revert d acc. induction n as [| n IH]; intros d acc.
  - cbn [for_loop]. split; [intros _ i Hi; lia | intros _; eauto].
  - cbn [for_loop]. split.
    + intros (res & H) i Hi. apply bind_some in H as (a' & Ha & H).
      destruct (Z.eq_dec i d) as [-> | Hne].
      * apply (Hbody d acc). eauto.
      * apply (proj1 (IH (d + 1) a')); [eauto | lia].
    + intros H. destruct (proj2 (Hbody d acc)) as (a' & Ha); [apply H; lia |].
      rewrite Ha. cbn [bind]. apply IH. intros i Hi. apply H. lia.
Qed.

(** X21.  Sampling a block is defined exactly when every pixel of the
    [map_scale_factor] x [map_scale_factor] block at
    [(x * map_scale_factor, y * map_scale_factor)] can be read: one
    undefined pixel read makes the whole sample undefined, and no pixel
    outside the block is read. *)
Theorem samplePixels_defined_iff
    (image : jr_uncompressed_ptr) (map_scale_factor x y : Z)
    (get_pixel_fn : getPixelFn) :
  0 <= map_scale_factor ->
  ((exists c, samplePixels image map_scale_factor x y get_pixel_fn = Some c) <->
   forall dx dy, 0 <= dx < map_scale_factor -> 0 <= dy < map_scale_factor ->
     exists p,
       get_pixel_fn image (size_t (size_t (x * map_scale_factor) + dx))
                    (size_t (size_t (y * map_scale_factor) + dy)) = Some p).
Proof.
  intros Hs. unfold samplePixels.
  set (inner := fun dy : Z => fun (dx : Z) (e : Color) =>
         p <- get_pixel_fn image (size_t (size_t (x * map_scale_factor) + dx))
                (size_t (size_t (y * map_scale_factor) + dy)) ;;
         Some (Color_add e p)).
  set (outer := fun (dy : Z) (e : Color) =>
         for_loop (Z.to_nat map_scale_factor) 0 (inner dy) e).
  set (Q := fun dx dy : Z =>
         exists p, get_pixel_fn image (size_t (size_t (x * map_scale_factor) + dx))
                     (size_t (size_t (y * map_scale_factor) + dy)) = Some p).
  assert (Hin : forall dy dx a, (exists a', inner dy dx a = Some a') <-> Q dx dy).
  { intros dy dx a. unfold inner, Q. split.
    - intros (a' & H). apply bind_some in H as (p & Hp & _). eauto.
    - intros (p & ->). cbn [bind]. eauto. }
  assert (Hout : forall dy a, (exists a', outer dy a = Some a') <->
                   forall dx, 0 <= dx < map_scale_factor -> Q dx dy).
  { intros dy a. unfold outer.
    rewrite (for_loop_defined (inner dy) (fun dx => Q dx dy) _ 0 a (Hin dy)).
    rewrite Z2Nat.id by lia. reflexivity. }
  pose proof (for_loop_defined outer
                (fun dy => forall dx, 0 <= dx < map_scale_factor -> Q dx dy)
                (Z.to_nat map_scale_factor) 0
                (mkColor F32.pzero F32.pzero F32.pzero) Hout) as H.
  rewrite Z2Nat.id in H by lia. cbn beta in H.
  change (for_loop (Z.to_nat map_scale_factor) 0
            (fun (dy : Z) (e : Color) =>
               for_loop (Z.to_nat map_scale_factor) 0
                 (fun (dx : Z) (e0 : Color) =>
                    p <- get_pixel_fn image
                           (size_t (size_t (x * map_scale_factor) + dx))
                           (size_t (size_t (y * map_scale_factor) + dy)) ;;
                    Some (Color_add e0 p)) e)
            (mkColor F32.pzero F32.pzero F32.pzero))
    with (for_loop (Z.to_nat map_scale_factor) 0 outer
            (mkColor F32.pzero F32.pzero F32.pzero)).
  split.
  - intros (c & Hc). apply bind_some in Hc as (e & He & _).
    intros dx dy Hdx Hdy. apply (proj1 H); [eauto | lia | lia].
  - intros Hall. destruct (proj2 H) as (e & ->).
    + intros dy Hdy dx Hdx. apply Hall; lia.
    + cbn [bind]. eauto.
Qed.

Lemma samplePixels_defined_iff_witness :
  (exists c, samplePixels tiny_image 2 0 0 getYuv420Pixel = Some c) <->
  forall dx dy, 0 <= dx < 2 -> 0 <= dy < 2 ->
    exists p,
      getYuv420Pixel tiny_image (size_t (size_t (0 * 2) + dx))
                     (size_t (size_t (0 * 2) + dy)) = Some p.
Proof.
  apply (samplePixels_defined_iff tiny_image 2 0 0 getYuv420Pixel). lia.
Defined.

(** X22.  With a scale factor of 1 sampling is reading: [sampleYuv420] and
    [sampleP010] return exactly the pixel at [(x, y)], the sum with the
    initial zero and the division by 1 changing none of its channels. *)
Theorem sample_scale_one (image : jr_uncompressed_ptr) (x y : Z) :
  0 <= x < 2 ^ 64 -> 0 <= y < 2 ^ 64 ->
  sampleYuv420 image 1 x y = getYuv420Pixel image x y /\
  sampleP010 image 1 x y = getP010Pixel image x y.
Proof.
  intros Hx Hy. unfold sampleYuv420, sampleP010, samplePixels.
  change (Z.to_nat 1) with 1%nat. cbn [for_loop].
  rewrite !Z.mul_1_r, !Z.add_0_r, !(size_t_small x), !(size_t_small y) by lia.
  change (F32.of_Z (size_t 1)) with F32.one.
  split.
  - destruct (getYuv420Pixel image x y) as [c |] eqn:E; [| reflexivity].
    cbn [bind]. f_equal.
    destruct (getYuv420Pixel_bytes _ _ _ _ E) as (Y & U & V & ->).
    unfold Color_div, Color_add. cbn [r g b].
    destruct (yuv420_luma Y) as (_ & _ & _ & -> & ->).
    destruct (yuv420_chroma U) as (_ & _ & -> & -> & _).
    destruct (yuv420_chroma V) as (_ & _ & -> & -> & _).
    reflexivity.
  - destruct (getP010Pixel image x y) as [c |] eqn:E; [| reflexivity].
    cbn [bind]. f_equal.
    destruct (getP010Pixel_samples _ _ _ _ E) as (Y & U & V & HY & HU & HV & ->).
    unfold Color_div, Color_add. cbn [r g b].
    destruct (p010_luma Y HY) as (_ & _ & -> & -> & _).
    destruct (p010_chroma U HU) as (_ & _ & -> & -> & _).
    destruct (p010_chroma V HV) as (_ & _ & -> & -> & _).
    reflexivity.
Qed.

Lemma sample_scale_one_witness :
  sampleYuv420 tiny_p010 1 1 1 = getYuv420Pixel tiny_p010 1 1 /\
  sampleP010 tiny_p010 1 1 1 = getP010Pixel tiny_p010 1 1.
Proof.
  apply (sample_scale_one tiny_p010 1 1); vm_compute; split; congruence.
Defined.

(** ** The packer outside the unit interval *)

Lemma land_1023 (z : Z) : 0 <= z -> Z.land 1023 z = z mod 1024 /\ 0 <= z mod 1024 <= 1023.
Proof.
  intros Hz. rewrite Z.land_comm. change 1023 with (Z.ones 10) at 1.
  rewrite Z.land_ones by lia. change (2 ^ 10) with 1024.
  pose proof (Z.mod_pos_bound z 1024 ltac:(lia)). split; [reflexivity | lia].
Qed.

Lemma to_unsigned_nonneg (bits : Z) (x : f32) (z : Z) :
  F32.to_unsigned bits x = Some z -> 0 <= z.
Proof.
  unfold F32.to_unsigned. destruct (F32.trunc x) as [t |]; [| discriminate].
  destruct (Z.leb_spec 0 t); [| discriminate].
  destruct (t <? 2 ^ bits); [| discriminate]. intros [= <-]. assumption.
Qed.

(** X23.  Whenever the packer is defined, each 10-bit field of the word
    holds the truncated, scaled channel modulo 1024 and the two top bits
    are set: a channel above 1 wraps around instead of saturating. *)
Theorem colorToRgba1010102_fields (e_gamma : Color) (w : Z) :
  colorToRgba1010102 e_gamma = Some w ->
  exists ri gi bi,
    F32.to_unsigned 32 (F32.mul (r e_gamma) c1023) = Some ri /\
    F32.to_unsigned 32 (F32.mul (g e_gamma) c1023) = Some gi /\
    F32.to_unsigned 32 (F32.mul (b e_gamma) c1023) = Some bi /\
    Z.land w 1023 = ri mod 1024 /\
    Z.land (Z.shiftr w 10) 1023 = gi mod 1024 /\
    Z.land (Z.shiftr w 20) 1023 = bi mod 1024 /\
    Z.shiftr w 30 = 3 /\
    0 <= w < 2 ^ 32.
Proof.
  unfold colorToRgba1010102. intros H.
  apply bind_some in H as (ri & Hr & H).
  apply bind_some in H as (gi & Hg & H).
  apply bind_some in H as (bi & Hb & H).
  exists ri, gi, bi. repeat (split; [assumption |]).
  destruct (land_1023 ri (to_unsigned_nonneg _ _ _ Hr)) as [Er Rr].
  destruct (land_1023 gi (to_unsigned_nonneg _ _ _ Hg)) as [Eg Rg].
  destruct (land_1023 bi (to_unsigned_nonneg _ _ _ Hb)) as [Eb Rb].
  apply some_inj in H. subst w.
  pose proof (pack_fields (ri mod 1024) (gi mod 1024) (bi mod 1024) Rr Rg Rb) as Hp.
  cbv zeta in Hp.
  assert (Hm : forall z, 0 <= z <= 1023 -> Z.land 1023 z = z).
  { intros z Hz. destruct (land_1023 z ltac:(lia)) as [-> _].
    apply Z.mod_small. lia. }
  rewrite !Hm in Hp by assumption.
  rewrite Er, Eg, Eb, Hp.
  pose proof (unpack_fields (ri mod 1024) (gi mod 1024) (bi mod 1024) Rr Rg Rb) as Hu.
  cbv zeta in Hu. exact Hu.
Qed.

Lemma colorToRgba1010102_fields_witness :
  exists ri gi bi,
    F32.to_unsigned 32 (F32.mul F32.two c1023) = Some ri /\
    F32.to_unsigned 32 (F32.mul F32.one c1023) = Some gi /\
    F32.to_unsigned 32 (F32.mul four c1023) = Some bi /\
    Z.land 0xFFCFFFFE 1023 = ri mod 1024 /\
    Z.land (Z.shiftr 0xFFCFFFFE 10) 1023 = gi mod 1024 /\
    Z.land (Z.shiftr 0xFFCFFFFE 20) 1023 = bi mod 1024 /\
    Z.shiftr 0xFFCFFFFE 30 = 3 /\
    0 <= 0xFFCFFFFE < 2 ^ 32.
Proof.
  apply (colorToRgba1010102_fields (mkColor F32.two F32.one four) 0xFFCFFFFE).
  vm_compute. reflexivity.
Defined.

Lemma leb_negative_cases (m n : positive) (e f : Z) :
  F32.leb (S754_finite true m e) (S754_finite true n f) = true ->
  f < e \/ (e = f /\ Zpos n <= Zpos m).
Proof.
  unfold F32.leb, SFleb. cbn [SFcompare].
  destruct (Z.compare_spec e f) as [Heq | Hlt | Hgt]; intros H1.
  - right. split; [assumption |]. intros Hc.
    change (PosDef.Pos.compare_cont Eq n m = Gt) in Hc.
    pose proof (Pos.compare_cont_antisym m n Eq) as Ha. cbn [CompOpp] in Ha.
    change (PosDef.Pos.compare_cont Eq n m) with (Pos.compare_cont Eq n m) in Hc.
    rewrite Ha, Hc in H1. discriminate.
  - discriminate.
  - now left.
Qed.

Lemma wf_normal (s : bool) (m : positive) (e : Z) :
  F32.wf (S754_finite s m e) -> -149 < e -> Zdigits2 (Zpos m) = 24.
Proof.
  unfold F32.wf, valid_binary, bounded, canonical_mantissa.
  intros H He. apply andb_true_iff in H as [Hc _].
  apply Z.eqb_eq in Hc. rewrite fexp32_eq in Hc.
  change (Zpos (digits2_pos m)) with (Zdigits2 (Zpos m)) in Hc. lia.
Qed.

(** A float of magnitude at least one truncates to a non-zero integer. *)
Lemma mul_c1023_below (m : positive) (e : Z) :
  2 ^ 23 <= Zpos m < 2 ^ 24 -> -33 <= e <= 104 ->
  2 ^ 33 <= 1023 * Zpos m * 2 ^ (e + 33) ->
  F32.to_unsigned 32 (F32.mul (S754_finite true m e) c1023) = None.
Proof.
  intros Hm He Hbig.
  rewrite c1023_eq. unfold F32.mul. cbn [SFmul xorb].
  fold F32.prec F32.emax. rewrite Pos2Z.inj_mul.
  set (M := Zpos m * Zpos 16760832). set (E := e + -14).
  change (2 ^ 23) with 8388608 in Hm. change (2 ^ 24) with 16777216 in Hm.
  assert (HM : 140600049401856 <= M < 281200098803712) by (unfold M; lia).
  destruct (binary_round_aux_spec true M E ltac:(lia)) as (m2 & Hb & _ & Hle & ->).
  assert (Dq : 47 <= Zdigits2 M <= 48).
  { rewrite Zdigits2_log2 by lia.
    pose proof (Z.log2_le_mono 70368744177664 M ltac:(lia)) as L1.
    change (Z.log2 70368744177664) with 46 in L1.
    assert (Z.log2 M < 48) by (apply Z.log2_lt_pow2; [lia | change (2 ^ 48) with 281474976710656; lia]).
    lia. }
  rewrite fexp32_eq in *.
  set (n := Zdigits2 M - 24) in *.
  replace (Z.max E (Z.max (Zdigits2 M + E - 24) (-149))) with (E + n) in *
    by (unfold E, n; lia).
  replace (E + n - E) with n in * by lia.
  assert (Hn : 23 <= n <= 24) by (unfold n; lia).
  assert (P2n : 0 < 2 ^ n) by (apply Z.pow_pos_nonneg; lia).
  assert (Hm1 : 4194304 <= M / 2 ^ n).
  { apply Z.div_le_lower_bound; [lia |].
    assert (2 ^ n <= 2 ^ 24) by (apply Z.pow_le_mono_r; lia).
    change (2 ^ 24) with 16777216 in *. nia. }
  (* the magnitude is at least one *)
  assert (Hone : E + n < 0 -> 2 ^ (- (E + n)) <= M / 2 ^ n).
  { intros Hneg. apply Z.div_le_lower_bound; [lia |].
    rewrite <- Z.pow_add_r by lia. replace (n + - (E + n)) with (- E) by lia.
    unfold M, E. change (Zpos 16760832) with (1023 * 2 ^ 14).
    replace (- (e + -14)) with (14 - e) by lia.
    destruct (Z_le_gt_dec e 14) as [Hle14 | Hgt14].
    - replace (14 - e) with (14 + - e) by lia.
      rewrite Z.pow_add_r by lia.
      assert (P14 : 0 < 2 ^ 14) by reflexivity.
      assert (2 ^ (- e) <= 1023 * Zpos m); [| nia].
      destruct (Z_le_gt_dec e 0) as [Hle0 | Hgt0].
      + assert (Hsplit : 2 ^ 33 = 2 ^ (- e) * 2 ^ (e + 33)).
        { rewrite <- Z.pow_add_r by lia. f_equal. lia. }
        rewrite Hsplit in Hbig.
        assert (0 < 2 ^ (e + 33)) by (apply Z.pow_pos_nonneg; lia).
        assert (0 < 2 ^ (- e)) by (apply Z.pow_pos_nonneg; lia).
        nia.
      + rewrite Z.pow_neg_r by lia. lia.
    - rewrite Z.pow_neg_r by lia. lia. }
  change (2 ^ 24) with 16777216 in *.
  destruct (Z.eqb_spec m2 0); [lia |].
  assert (Htr : forall (p : positive) (e' : Z),
            (e' < 0 -> 2 ^ (- e') <= Zpos p) ->
            F32.to_unsigned 32 (S754_finite true p e') = None).
  { intros p e' Hp. unfold F32.to_unsigned, F32.trunc, F32.mag_trunc.
    destruct (Z.leb_spec 0 e').
    - rewrite Z.shiftl_mul_pow2 by lia.
      assert (0 < 2 ^ e') by (apply Z.pow_pos_nonneg; lia).
      destruct (Z.leb_spec 0 (- (Zpos p * 2 ^ e'))); [nia | reflexivity].
    - rewrite Z.shiftr_div_pow2 by lia.
      assert (0 < 2 ^ (- e')) by (apply Z.pow_pos_nonneg; lia).
      assert (1 <= Zpos p / 2 ^ (- e')).
      { apply Z.div_le_lower_bound; [lia |]. specialize (Hp ltac:(lia)). lia. }
      destruct (Z.leb_spec 0 (- (Zpos p / 2 ^ (- e')))); [lia | reflexivity]. }
  destruct (Z.eqb_spec m2 16777216) as [E24 | E24].
  - destruct (Z.leb_spec (E + n + 1) 104); [| reflexivity].
    apply Htr. intros Hneg. specialize (Hone ltac:(lia)).
    assert (2 ^ (- (E + n)) <= 2 ^ 24) by (change (2 ^ 24) with 16777216; lia).
    assert (- (E + n) <= 24).
    { apply (Z.pow_le_mono_r_iff 2); lia. }
    change (Zpos (2 ^ 23)) with (2 ^ 23). apply Z.pow_le_mono_r; lia.
  - destruct (Z.leb_spec (E + n) 104); [| reflexivity].
    apply Htr. intros Hneg. rewrite Z2Pos.id by lia.
    specialize (Hone Hneg). lia.
Qed.

Lemma negative_channel_undefined (c : f32) :
  F32.wf c -> F32.leb c (F32.opp (F32.lit 1 1000)) = true ->
  F32.to_unsigned 32 (F32.mul c c1023) = None.
Proof.
  intros Hwf Hle.
  change (F32.opp (F32.lit 1 1000)) with (S754_finite true 8589935 (-33)) in Hle.
  destruct c as [s | s | | s m e]; try discriminate.
  - destruct s; [reflexivity | discriminate].
  - destruct s; [| discriminate].
    pose proof (wf_finite_digits _ _ _ Hwf) as [Hm He].
    apply leb_negative_cases in Hle.
    assert (He33 : -33 <= e) by lia.
    pose proof (wf_normal _ _ _ Hwf ltac:(lia)) as Hd.
    pose proof (Zdigits2_bounds (Zpos m) ltac:(lia)) as [Hlo _].
    rewrite Hd in Hlo. change (2 ^ (24 - 1)) with (2 ^ 23) in Hlo.
    apply mul_c1023_below; [lia | lia |].
    change (2 ^ 23) with 8388608 in *. change (2 ^ 33) with 8589934592.
    destruct Hle as [Hlt | [-> Hge]].
    + assert (2 <= 2 ^ (e + 33)).
      { change 2 with (2 ^ 1) at 1. apply Z.pow_le_mono_r; lia. }
      nia.
    + change (2 ^ (-33 + 33)) with 1. lia.
Qed.

(** X24.  The packer is undefined as soon as one channel is a NaN, an
    infinity or a number at or below -0.001: the scaled channel does not
    truncate to a value of [uint32_t]. *)
Theorem colorToRgba1010102_undefined (e_gamma : Color) (c : f32) :
  c = r e_gamma \/ c = g e_gamma \/ c = b e_gamma ->
  c = S754_nan \/ (exists s, c = S754_infinity s) \/
  (F32.wf c /\ F32.leb c (F32.opp (F32.lit 1 1000)) = true) ->
  colorToRgba1010102 e_gamma = None.
Proof.
  intros Hch Hbad.
  assert (Hc : F32.to_unsigned 32 (F32.mul c c1023) = None).
  { destruct Hbad as [-> | [[s ->] | [Hwf Hle]]].
    - reflexivity.
    - destruct s; reflexivity.
    - now apply negative_channel_undefined. }
  unfold colorToRgba1010102.
  destruct Hch as [-> | [-> | ->]].
  - now rewrite Hc.
  - rewrite Hc.
    destruct (F32.to_unsigned 32 (F32.mul (r e_gamma) c1023)); reflexivity.
  - rewrite Hc.
    destruct (F32.to_unsigned 32 (F32.mul (r e_gamma) c1023)); [| reflexivity].
    destruct (F32.to_unsigned 32 (F32.mul (g e_gamma) c1023)); reflexivity.
Qed.

Lemma colorToRgba1010102_undefined_witness :
  colorToRgba1010102 (mkColor half (F32.opp quarter) F32.one) = None /\
  colorToRgba1010102 (mkColor half half S754_nan) = None.
Proof.
  split.
  - apply (colorToRgba1010102_undefined
             (mkColor half (F32.opp quarter) F32.one) (F32.opp quarter)).
    + right. left. reflexivity.
    + right. right. split; vm_compute; reflexivity.
  - apply (colorToRgba1010102_undefined (mkColor half half S754_nan) S754_nan).
    + right. right. reflexivity.
    + left. reflexivity.
Defined.


(** * Uniform gain maps at any coordinates

    Off the grid of the map the four weights of the sampler still add up
    to 2 in exact arithmetic, but every operation rounds.  The sections
    below bound the accumulated error. *)

(** ** Rounding errors

    Values are counted in units of 2^-298, so that the exact sums, products
    and halves of floats are integers. *)

Lemma scaled_round_shape (sx : bool) (m2 e1 : Z) :
  0 <= m2 <= 2 ^ 24 -> -149 <= e1 -> e1 + 1 <= 104 ->
  let R := if m2 =? 0 then S754_zero sx
           else if m2 =? 2 ^ 24
                then (if e1 + 1 <=? 104 then S754_finite sx (2 ^ 23) (e1 + 1)
                      else S754_infinity sx)
                else (if e1 <=? 104 then S754_finite sx (Z.to_pos m2) e1
                      else S754_infinity sx) in
  fin R = true /\ scaled R = (if sx then - m2 else m2) * 2 ^ (e1 + 298).
Proof.
  intros Hm He Hov R. unfold R.
  destruct (Z.eqb_spec m2 0) as [-> | Hz].
  { split; [reflexivity |]. destruct sx; reflexivity. }
  destruct (Z.eqb_spec m2 (2 ^ 24)) as [-> | H24].
  - destruct (Z.leb_spec (e1 + 1) 104); [| lia].
    cbn [fin scaled]. split; [apply Z.leb_le; lia |].
    replace (e1 + 1 + 298) with (1 + (e1 + 298)) by lia.
    rewrite Z.pow_add_r by lia. change (2 ^ 1) with 2.
    change (Zpos (2 ^ 23)) with 8388608. change (2 ^ 24) with 16777216.
    destruct sx; ring.
  - destruct (Z.leb_spec e1 104); [| lia].
    cbn [fin scaled]. split; [apply Z.leb_le; lia |].
    rewrite Z2Pos.id by lia. reflexivity.
Qed.

(** The arithmetic of one rounding: [M * 2^E] is cut to [m2 * 2^e1], and
    the unit [D = 2^(e1 - E)] of the cut is 1, or at most [M / 2^23], or
    the subnormal unit 2^-149. *)
Lemma round_unit (M E : Z) :
  0 < M -> -298 <= E -> M * 2 ^ (E + 298) <= 2 ^ 302 ->
  let e1 := Z.max E (fexp F32.prec F32.emax (Zdigits2 M + E)) in
  let D := 2 ^ (e1 - E) in
  -149 <= e1 /\ e1 + 1 <= 104 /\ E <= e1 /\ 0 < D /\
  2 ^ (e1 + 298) = D * 2 ^ (E + 298) /\
  (M / D) * D <= M < (M / D + 1) * D /\
  (D = 1 \/ 2 ^ 23 * D <= M \/ D * 2 ^ (E + 298) = 2 ^ 149).
Proof.
  intros HM HE Hmag e1 D.
  pose proof (Zdigits2_bounds M HM) as [Hlo Hhi].
  pose proof (Zdigits2_pos M HM) as Hd.
  assert (HP : 0 < 2 ^ (E + 298)) by (apply Z.pow_pos_nonneg; lia).
  assert (Hsum : Zdigits2 M + E <= 5).
  { destruct (Z_le_gt_dec (Zdigits2 M + E) 5) as [H | H]; [assumption |].
    exfalso.
    assert (2 ^ 303 <= 2 ^ (Zdigits2 M - 1) * 2 ^ (E + 298)).
    { rewrite <- Z.pow_add_r by lia. apply Z.pow_le_mono_r; lia. }
    assert (2 ^ (Zdigits2 M - 1) * 2 ^ (E + 298) <= M * 2 ^ (E + 298))
      by (apply Z.mul_le_mono_nonneg_r; lia).
    assert (2 ^ 302 < 2 ^ 303) by reflexivity. lia. }
  assert (He1 : e1 = Z.max E (Z.max (Zdigits2 M + E - 24) (-149))).
  { unfold e1. now rewrite fexp32_eq. }
  assert (HD : 0 < D) by (apply Z.pow_pos_nonneg; lia).
  repeat split; try lia.
  - unfold D. rewrite <- Z.pow_add_r by lia. f_equal. lia.
  - pose proof (Z.mul_div_le M D HD). lia.
  - pose proof (Z.mul_succ_div_gt M D HD). lia.
  - destruct (Z.eq_dec e1 E) as [Heq | Hne].
    { left. unfold D. rewrite Heq, Z.sub_diag. reflexivity. }
    destruct (Z.eq_dec e1 (-149)) as [H149 | H149].
    { right. right. unfold D. rewrite <- Z.pow_add_r by lia. f_equal. lia. }
    right. left. assert (e1 = Zdigits2 M + E - 24) as -> by lia.
    unfold D. rewrite <- Z.pow_add_r by lia.
    replace (23 + (Zdigits2 M + E - 24 - E)) with (Zdigits2 M - 1) by lia.
    exact Hlo.
Qed.

(** One rounding of an exact result. *)
Lemma round_exact (sx : bool) (M E : Z) :
  0 < M -> -298 <= E -> M * 2 ^ (E + 298) <= 2 ^ 302 ->
  let R := binary_round_aux F32.prec F32.emax sx M E loc_Exact in
  let X := (if sx then - M else M) * 2 ^ (E + 298) in
  fin R = true /\ 2 ^ 23 * Z.abs (scaled R - X) <= Z.abs X + 2 ^ 172.
Proof.
  intros HM HE Hmag R X.
  destruct (round_unit M E HM HE Hmag) as (L1 & L2 & L3 & HD & HP & [Hq1 Hq2] & Hcase).
  destruct (binary_round_aux_spec sx M E HM) as (m2 & Hb & Hex & Hle & Hr).
  set (e1 := Z.max E (fexp F32.prec F32.emax (Zdigits2 M + E))) in *.
  set (D := 2 ^ (e1 - E)) in *.
  assert (Hm1 : 0 <= M / D) by (apply Z.div_pos; lia).
  destruct (scaled_round_shape sx m2 e1 ltac:(lia) L1 L2) as [Hfin Hsc].
  cbv zeta in Hsc, Hfin. unfold R. rewrite Hr. split; [exact Hfin |].
  rewrite Hsc, HP. unfold X.
  set (P := 2 ^ (E + 298)) in *.
  assert (HPpos : 0 < P) by (apply Z.pow_pos_nonneg; lia).
  assert (Herr : Z.abs (m2 * D - M) <= D /\ (D = 1 -> m2 * D = M)).
  { split; [nia |]. intros H1. rewrite H1 in *.
    rewrite Z.mod_1_r in Hex. rewrite (Hex eq_refl), Z.div_1_r. lia. }
  destruct Herr as [Herr Hone].
  assert (Hs : Z.abs ((if sx then - m2 else m2) * (D * P) - (if sx then - M else M) * P)
               = Z.abs (m2 * D - M) * P).
  { rewrite <- (Z.abs_eq P) at 3 by lia. rewrite <- Z.abs_mul.
    destruct sx.
    - rewrite <- Z.abs_opp. f_equal. ring.
    - f_equal. ring. }
  rewrite Hs.
  assert (HX : Z.abs ((if sx then - M else M) * P) = M * P).
  { destruct sx; rewrite Z.abs_mul, ?Z.abs_opp, !Z.abs_eq by lia; reflexivity. }
  rewrite HX.
  change (2 ^ 172) with (2 ^ 23 * 2 ^ 149).
  destruct Hcase as [H1 | [Hrel | Habs]].
  - rewrite (Hone H1), Z.sub_diag. cbn [Z.abs]. nia.
  - assert (Z.abs (m2 * D - M) * P <= D * P) by (apply Z.mul_le_mono_nonneg_r; lia).
    assert (2 ^ 23 * D * P <= M * P) by (apply Z.mul_le_mono_nonneg_r; lia).
    nia.
  - assert (Z.abs (m2 * D - M) * P <= D * P) by (apply Z.mul_le_mono_nonneg_r; lia).
    nia.
Qed.

(** One rounding of a result known up to one unit of [2^E]. *)
Lemma round_any (sx : bool) (M E : Z) (l : location) :
  0 < M -> -298 <= E -> M * 2 ^ (E + 298) <= 2 ^ 302 ->
  let R := binary_round_aux F32.prec F32.emax sx M E l in
  exists k D,
    fin R = true /\ scaled R = (if sx then - k else k) * 2 ^ (E + 298) /\
    (0 <= k /\ k - D <= M /\ M + 1 <= k + D) /\ 0 < D /\
    (D = 1 \/ 2 ^ 23 * D <= M \/ D * 2 ^ (E + 298) = 2 ^ 149).
Proof.
  intros HM HE Hmag R.
  destruct (round_unit M E HM HE Hmag) as (L1 & L2 & L3 & HD & HP & [Hq1 Hq2] & Hcase).
  destruct (binary_round_aux_any sx M E l HM) as (m2 & Hb & Hle & Hr).
  set (e1 := Z.max E (fexp F32.prec F32.emax (Zdigits2 M + E))) in *.
  set (D := 2 ^ (e1 - E)) in *.
  assert (Hm1 : 0 <= M / D) by (apply Z.div_pos; lia).
  destruct (scaled_round_shape sx m2 e1 ltac:(lia) L1 L2) as [Hfin Hsc].
  cbv zeta in Hsc, Hfin. unfold R. rewrite Hr.
  exists (m2 * D), D. split; [exact Hfin |]. split.
  - rewrite Hsc, HP. destruct sx; ring.
  - split; [nia |]. split; assumption.
Qed.

Lemma round_zero_min (sx : bool) (l : location) :
  binary_round_aux F32.prec F32.emax sx 0 (-149) l = S754_zero sx \/
  binary_round_aux F32.prec F32.emax sx 0 (-149) l = S754_finite sx 1 (-149).
Proof. destruct l as [| []]; vm_compute; auto. Qed.

(** Rounding an integer multiple of [2^ez]. *)
Lemma normalize_scaled (m ez : Z) :
  -298 <= ez -> Z.abs m * 2 ^ (ez + 298) <= 2 ^ 302 ->
  let R := binary_normalize F32.prec F32.emax m ez false in
  let X := m * 2 ^ (ez + 298) in
  fin R = true /\ 2 ^ 23 * Z.abs (scaled R - X) <= Z.abs X + 2 ^ 172.
Proof.
  intros He Hmag R X.
  assert (Hgen : forall (sx : bool) (p : positive),
            Zpos p * 2 ^ (ez + 298) <= 2 ^ 302 ->
            let R := binary_round F32.prec F32.emax sx p ez in
            let X := (if sx then - Zpos p else Zpos p) * 2 ^ (ez + 298) in
            fin R = true /\ 2 ^ 23 * Z.abs (scaled R - X) <= Z.abs X + 2 ^ 172).
  { intros sx p Hp. unfold binary_round. rewrite shl_align_spec.
    set (e2 := Z.min ez (fexp F32.prec F32.emax (Zpos (digits2_pos p) + ez))).
    assert (He2 : -298 <= e2 <= ez).
    { unfold e2. rewrite fexp32_eq. lia. }
    assert (Hpow : 0 < 2 ^ (ez - e2)) by (apply Z.pow_pos_nonneg; lia).
    assert (Hval : Zpos (Z.to_pos (Zpos p * 2 ^ (ez - e2))) * 2 ^ (e2 + 298)
                   = Zpos p * 2 ^ (ez + 298)).
    { rewrite Z2Pos.id by nia. rewrite <- Z.mul_assoc, <- Z.pow_add_r by lia.
      do 2 f_equal. lia. }
    pose proof (round_exact sx (Zpos (Z.to_pos (Zpos p * 2 ^ (ez - e2)))) e2
                  ltac:(lia) ltac:(lia) ltac:(rewrite Hval; exact Hp)) as H.
    cbv zeta in H |- *.
    replace ((if sx then - Zpos (Z.to_pos (Zpos p * 2 ^ (ez - e2)))
              else Zpos (Z.to_pos (Zpos p * 2 ^ (ez - e2)))) * 2 ^ (e2 + 298))
      with ((if sx then - Zpos p else Zpos p) * 2 ^ (ez + 298)) in H
      by (destruct sx; lia).
    exact H. }
  unfold R, X. destruct m as [| p | p]; cbn [binary_normalize].
  - split; [reflexivity | cbn; lia].
  - apply (Hgen false p). cbn [Z.abs] in Hmag. exact Hmag.
  - change (Zneg p) with (- Zpos p). apply (Hgen true p).
    cbn [Z.abs] in Hmag. exact Hmag.
Qed.

Lemma fst_shl_align (p : positive) (e e' : Z) :
  e' <= e -> Zpos (fst (shl_align p e e')) = Zpos p * 2 ^ (e - e').
Proof.
  intros H. rewrite shl_align_spec. cbn [fst].
  replace (Z.min e e') with e' by lia.
  assert (0 < 2 ^ (e - e')) by (apply Z.pow_pos_nonneg; lia).
  apply Z2Pos.id. nia.
Qed.

Lemma scaled_finite_align (s : bool) (m : positive) (e ez : Z) :
  -298 <= ez <= e ->
  scaled (S754_finite s m e)
    = cond_Zopp s (Zpos (fst (shl_align m e ez))) * 2 ^ (ez + 298).
Proof.
  intros H. rewrite fst_shl_align by lia. cbn [scaled].
  replace (e + 298) with ((e - ez) + (ez + 298)) by lia.
  rewrite Z.pow_add_r by lia. destruct s; cbn [cond_Zopp]; ring.
Qed.

(** The sum of two floats, rounded once. *)
Lemma add_scaled (x y : f32) :
  fin x = true -> fin y = true ->
  Z.abs (scaled x + scaled y) <= 2 ^ 302 ->
  fin (F32.add x y) = true /\
  2 ^ 23 * Z.abs (scaled (F32.add x y) - (scaled x + scaled y))
    <= Z.abs (scaled x + scaled y) + 2 ^ 172.
Proof.
  intros Hx Hy Hmag.
  destruct x as [sx | sx | | sx mx ex]; try discriminate;
    destruct y as [sy | sy | | sy my ey]; try discriminate.
  - split; [destruct sx, sy; reflexivity |].
    replace (scaled (F32.add (S754_zero sx) (S754_zero sy))) with 0
      by (destruct sx, sy; reflexivity).
    cbn [scaled]. cbn. lia.
  - change (F32.add (S754_zero sx) (S754_finite sy my ey))
      with (S754_finite sy my ey).
    split; [assumption |]. cbn [scaled].
    rewrite Z.add_0_l, Z.sub_diag. cbn [Z.abs]. lia.
  - change (F32.add (S754_finite sx mx ex) (S754_zero sy))
      with (S754_finite sx mx ex).
    split; [assumption |]. cbn [scaled].
    rewrite Z.add_0_r, Z.sub_diag. cbn [Z.abs]. lia.
  - cbn [fin] in Hx, Hy. apply Z.leb_le in Hx, Hy.
    set (ez := Z.min ex ey).
    rewrite (scaled_finite_align sx mx ex ez) in * by (unfold ez; lia).
    rewrite (scaled_finite_align sy my ey ez) in * by (unfold ez; lia).
    rewrite <- Z.mul_add_distr_r in *.
    unfold F32.add, SFadd. fold ez.
    set (m := cond_Zopp sx (Zpos (fst (shl_align mx ex ez)))
              + cond_Zopp sy (Zpos (fst (shl_align my ey ez)))) in *.
    apply normalize_scaled; [unfold ez; lia |].
    assert (0 < 2 ^ (ez + 298)) by (apply Z.pow_pos_nonneg; unfold ez; lia).
    rewrite Z.abs_mul, (Z.abs_eq (2 ^ (ez + 298))) in Hmag by lia. exact Hmag.
Qed.

Lemma sub_add_opp (x y : f32) : F32.sub x y = F32.add x (F32.opp y).
Proof.
  destruct x as [[] | [] | | sx mx ex], y as [[] | [] | | sy my ey];
    try reflexivity.
  unfold F32.sub, F32.add, F32.opp, SFsub, SFadd, SFopp. f_equal.
  destruct sy; cbn [negb cond_Zopp]; lia.
Qed.

Lemma scaled_opp (y : f32) : scaled (F32.opp y) = - scaled y.
Proof.
  destruct y as [s | s | | s m e]; try reflexivity.
  cbn [F32.opp SFopp scaled]. unfold F32.opp, SFopp. cbn [scaled].
  destruct s; cbn [negb]; ring.
Qed.

Lemma fin_opp (y : f32) : fin (F32.opp y) = fin y.
Proof. destruct y; reflexivity. Qed.

(** The difference of two floats, rounded once. *)
Lemma sub_scaled (x y : f32) :
  fin x = true -> fin y = true ->
  Z.abs (scaled x - scaled y) <= 2 ^ 302 ->
  fin (F32.sub x y) = true /\
  2 ^ 23 * Z.abs (scaled (F32.sub x y) - (scaled x - scaled y))
    <= Z.abs (scaled x - scaled y) + 2 ^ 172.
Proof.
  intros Hx Hy Hmag. rewrite sub_add_opp.
  pose proof (add_scaled x (F32.opp y) Hx) as H.
  rewrite fin_opp, scaled_opp in H.
  replace (scaled x + - scaled y) with (scaled x - scaled y) in H by lia.
  now apply H.
Qed.

(** The product of two floats, rounded once. *)
Lemma mul_scaled (x y : f32) :
  fin x = true -> fin y = true ->
  Z.abs (scaled x * scaled y) <= 2 ^ 302 * 2 ^ 298 ->
  fin (F32.mul x y) = true /\
  2 ^ 23 * Z.abs (scaled (F32.mul x y) * 2 ^ 298 - scaled x * scaled y)
    <= Z.abs (scaled x * scaled y) + 2 ^ 172 * 2 ^ 298.
Proof.
  intros Hx Hy Hmag.
  destruct x as [sx | sx | | sx mx ex]; try discriminate;
    destruct y as [sy | sy | | sy my ey]; try discriminate;
    try (split; [reflexivity | cbn [scaled]; rewrite ?Z.mul_0_l, ?Z.mul_0_r;
                               cbn; lia]).
  cbn [fin] in Hx, Hy. apply Z.leb_le in Hx, Hy.
  assert (Hprod : scaled (S754_finite sx mx ex) * scaled (S754_finite sy my ey)
                  = ((if xorb sx sy then - Zpos (mx * my) else Zpos (mx * my))
                     * 2 ^ (ex + ey + 298)) * 2 ^ 298).
  { cbn [scaled]. rewrite Pos2Z.inj_mul.
    assert (Hpw : 2 ^ (ex + ey + 298) * 2 ^ 298 = 2 ^ (ex + 298) * 2 ^ (ey + 298)).
    { rewrite <- !Z.pow_add_r by lia. f_equal. lia. }
    rewrite <- (Z.mul_assoc _ (2 ^ (ex + ey + 298)) (2 ^ 298)), Hpw.
    destruct sx, sy; cbn [xorb]; ring. }
  rewrite Hprod in *.
  unfold F32.mul, SFmul.
  assert (HT : 0 < 2 ^ 298) by reflexivity.
  assert (HP : 0 < 2 ^ (ex + ey + 298)) by (apply Z.pow_pos_nonneg; lia).
  assert (Habs : Z.abs ((if xorb sx sy then - Zpos (mx * my) else Zpos (mx * my))
                        * 2 ^ (ex + ey + 298))
                 = Zpos (mx * my) * 2 ^ (ex + ey + 298)).
  { destruct (xorb sx sy); rewrite Z.abs_mul, ?Z.abs_opp, !Z.abs_eq by lia;
      reflexivity. }
  rewrite Z.abs_mul, (Z.abs_eq (2 ^ 298)), Habs in Hmag by lia.
  destruct (round_exact (xorb sx sy) (Zpos (mx * my)) (ex + ey)
              ltac:(lia) ltac:(lia) ltac:(nia)) as [Hfin Herr].
  cbv zeta in Hfin, Herr. split; [exact Hfin |].
  rewrite <- Z.mul_sub_distr_r, !Z.abs_mul, (Z.abs_eq (2 ^ 298)) by lia.
  nia.
Qed.

Lemma two_eq : F32.two = S754_finite false 8388608 (-22).
Proof. reflexivity. Qed.

(** Halving a float, rounded once. *)
Lemma div2_scaled (x : f32) :
  fin x = true -> Z.abs (scaled x) <= 2 ^ 302 ->
  fin (F32.div x F32.two) = true /\
  2 ^ 23 * Z.abs (2 * scaled (F32.div x F32.two) - scaled x)
    <= Z.abs (scaled x) + 2 ^ 173.
Proof.
  intros Hx Hmag. rewrite two_eq.
  destruct x as [sx | sx | | sx mx ex]; try discriminate.
  { split; [reflexivity |]. cbn. lia. }
  cbn [fin] in Hx. apply Z.leb_le in Hx.
  unfold F32.div, SFdiv, SFdiv_core_binary.
  change (Zdigits2 8388608) with 24. rewrite fexp32_eq, xorb_false_r.
  set (d1 := Zdigits2 (Zpos mx)).
  set (e' := Z.min (Z.max (d1 + ex - (24 + -22) - 24) (-149)) (ex - -22)).
  set (s := ex - -22 - e').
  assert (Hd1 : 0 < d1) by (apply Zdigits2_pos; lia).
  pose proof (Zdigits2_bounds (Zpos mx) ltac:(lia)) as [Hlo Hhi]. fold d1 in Hlo, Hhi.
  assert (He' : -149 <= e' <= ex + 22) by (unfold e'; lia).
  assert (Hs : 0 <= s /\ s + e' = ex + 22) by (unfold s; lia).
  set (m' := match s with
             | 0 => Zpos mx
             | Zpos _ => Z.shiftl (Zpos mx) s
             | Zneg _ => 0
             end).
  assert (Hm' : m' = Zpos mx * 2 ^ s).
  { unfold m'. destruct s as [| p | p]; [cbn; lia | | lia].
    now rewrite Z.shiftl_mul_pow2 by lia. }
  assert (P2s : 0 < 2 ^ s) by (apply Z.pow_pos_nonneg; lia).
  pose proof (Z_div_mod m' 8388608 ltac:(lia)) as Hdm.
  destruct (Z.div_eucl m' 8388608) as [q r]. destruct Hdm as [Hq Hr].
  set (P' := 2 ^ (e' + 298)).
  assert (HP' : 0 < P') by (apply Z.pow_pos_nonneg; lia).
  assert (Hq0 : 0 <= q) by nia.
  assert (Hsgn : scaled (S754_finite sx mx ex) * 2 ^ 22
                 = (if sx then - m' else m') * P').
  { cbn [scaled]. rewrite Hm'. unfold P'.
    assert (E1 : 2 ^ s * 2 ^ (e' + 298) = 2 ^ (ex + 298) * 2 ^ 22).
    { rewrite <- !Z.pow_add_r by lia. f_equal. lia. }
    destruct sx.
    - transitivity (- (Zpos mx * (2 ^ (ex + 298) * 2 ^ 22))); [ring |].
      rewrite <- E1. ring.
    - transitivity (Zpos mx * (2 ^ (ex + 298) * 2 ^ 22)); [ring |].
      rewrite <- E1. ring. }
  assert (Hm'0 : 0 <= m') by nia.
  assert (Hval : Z.abs (scaled (S754_finite sx mx ex)) * 2 ^ 22 = m' * P').
  { rewrite <- (Z.abs_eq (2 ^ 22)) at 1 by (cbn; lia).
    rewrite <- Z.abs_mul, Hsgn.
    destruct sx; rewrite Z.abs_mul, ?Z.abs_opp, !Z.abs_eq by lia; reflexivity. }
  assert (Hbig : e' = -149 \/ 2 ^ 24 <= q).
  { destruct (Z.eq_dec e' (-149)) as [? | Hne]; [now left | right].
    assert (H47 : 2 ^ 47 <= m').
    { rewrite Hm'. destruct (Z_le_gt_dec 48 d1) as [H48 | H48].
      - assert (2 ^ 47 <= 2 ^ (d1 - 1)) by (apply Z.pow_le_mono_r; lia). nia.
      - assert (s = 48 - d1) by (unfold s, e'; lia).
        assert (2 ^ 47 = 2 ^ (d1 - 1) * 2 ^ s) as ->.
        { rewrite <- Z.pow_add_r by lia. f_equal. lia. }
        apply Z.mul_le_mono_nonneg_r; lia. }
    change (2 ^ 47) with (8388608 * 2 ^ 24) in H47.
    change (2 ^ 24) with 16777216 in *. lia. }
  change (2 ^ 22) with 4194304 in *. change (2 ^ 24) with 16777216 in *.
  change (2 ^ 23) with 8388608.
  destruct (Z.eq_dec q 0) as [-> | Hqne].
  - destruct Hbig as [E149 | ?]; [| lia].
    assert (HPv : P' = 2 ^ 149) by (unfold P'; rewrite E149; reflexivity).
    rewrite E149. rewrite HPv in *.
    change (2 ^ 173) with (8388608 * (2 * 2 ^ 149)).
    set (xv := scaled (S754_finite sx mx ex)) in *.
    assert (H149 : 0 < 2 ^ 149) by reflexivity.
    set (U := 2 ^ 149) in *.
    destruct (round_zero_min sx (new_location 8388608 r)) as [-> | ->].
    + split; [reflexivity |]. change (scaled (S754_zero sx)) with 0.
      destruct sx; lia.
    + split; [reflexivity |].
      destruct sx.
      * change (scaled (S754_finite true 1 (-149))) with (- U). lia.
      * change (scaled (S754_finite false 1 (-149))) with (1 * U). lia.
  - assert (HqP : 0 <= q * P') by (apply Z.mul_nonneg_nonneg; lia).
    assert (HmP : 8388608 * (q * P') <= m' * P').
    { rewrite Z.mul_assoc. apply Z.mul_le_mono_nonneg_r; lia. }
    assert (H302 : 2 ^ 302 = 2 * 2 ^ 301) by reflexivity.
    assert (H301 : 0 < 2 ^ 301) by reflexivity.
    assert (Hmq : q * 2 ^ (e' + 298) <= 2 ^ 302).
    { fold P'. rewrite H302 in *. set (B := 2 ^ 301) in *. lia. }
    destruct (round_any sx q e' (new_location 8388608 r) ltac:(lia) ltac:(lia) Hmq)
      as (k & D & Hfin & Hsc & (Hk0 & Hk1 & Hk2) & HD & Hcase).
    cbv zeta in Hfin, Hsc. split; [exact Hfin |]. fold P' in Hsc, Hcase.
    rewrite Hsc.
    assert (Hdiff : Z.abs (2 * ((if sx then - k else k) * P')
                           - scaled (S754_finite sx mx ex)) * 4194304
                    = Z.abs (8388608 * k - m') * P').
    { assert (E : (2 * ((if sx then - k else k) * P')
                   - scaled (S754_finite sx mx ex)) * 4194304
                  = (if sx then -1 else 1) * ((8388608 * k - m') * P')).
      { rewrite Z.mul_sub_distr_r, Hsgn. destruct sx; ring. }
      replace (Z.abs (2 * ((if sx then - k else k) * P')
                      - scaled (S754_finite sx mx ex)) * 4194304)
        with (Z.abs ((2 * ((if sx then - k else k) * P')
                      - scaled (S754_finite sx mx ex)) * 4194304))
        by (rewrite Z.abs_mul; reflexivity).
      rewrite E, !Z.abs_mul, (Z.abs_eq P') by lia.
      destruct sx; cbn [Z.abs]; lia. }
    assert (Hnum : Z.abs (8388608 * k - m') <= 8388608 * D) by lia.
    assert (Hnum' : Z.abs (8388608 * k - m') * P' <= 8388608 * (D * P')).
    { rewrite Z.mul_assoc. apply Z.mul_le_mono_nonneg_r; lia. }
    assert (H172 : 2 ^ 172 = 8388608 * 2 ^ 149) by reflexivity.
    assert (H173 : 2 ^ 173 = 2 * 2 ^ 172) by reflexivity.
    assert (H149 : 0 < 2 ^ 149) by reflexivity.
    assert (Hkey : 8388608 * (D * P') <= q * P' + 2 ^ 172).
    { rewrite H172.
      destruct Hcase as [-> | [Hrel | Habs]].
      - rewrite Z.mul_1_l. destruct Hbig as [E149 | Hq24].
        + assert (P' = 2 ^ 149) as HPv by (unfold P'; rewrite E149; reflexivity).
          rewrite HPv in *. set (U := 2 ^ 149) in *. lia.
        + assert (16777216 * P' <= q * P')
            by (apply Z.mul_le_mono_nonneg_r; lia).
          set (U := 2 ^ 149) in *. lia.
      - assert (8388608 * D * P' <= q * P')
          by (apply Z.mul_le_mono_nonneg_r; lia).
        rewrite Z.mul_assoc. set (U := 2 ^ 149) in *. lia.
      - rewrite Habs. set (U := 2 ^ 149) in *. lia. }
    rewrite H173.
    set (A := Z.abs (2 * ((if sx then - k else k) * P')
                     - scaled (S754_finite sx mx ex))) in *.
    set (Sx := Z.abs (scaled (S754_finite sx mx ex))) in *.
    set (X1 := Z.abs (8388608 * k - m') * P') in *.
    set (X2 := D * P') in *. set (X3 := q * P') in *. set (X4 := m' * P') in *.
    set (U := 2 ^ 172) in *.
    lia.
Qed.

(** ** Absolute errors for results of magnitude at most 4 or 8 *)

Lemma units_facts :
  exists K, 0 < K /\ unit298 = 2097152 * K /\ K <= eps /\ 8 * eps <= 9 * K.
Proof. exists (2 ^ 277). unfold unit298, eps. repeat split; vm_compute; congruence. Qed.

Lemma abs_le_iff (x c : Z) : Z.abs x <= c <-> - c <= x <= c.
Proof. lia. Qed.

Lemma add4 (x y : f32) :
  fin x = true -> fin y = true ->
  - (4 * unit298) <= scaled x + scaled y <= 4 * unit298 ->
  fin (F32.add x y) = true /\
  - eps <= scaled (F32.add x y) - (scaled x + scaled y) <= eps.
Proof.
  intros Hx Hy Hmag. apply abs_le_iff in Hmag.
  assert (H302 : 4 * unit298 <= 2 ^ 302) by (vm_compute; congruence).
  destruct (add_scaled x y Hx Hy ltac:(lia)) as [Hf He]. split; [exact Hf |].
  assert (Hc : 4 * unit298 + 2 ^ 172 <= 2 ^ 23 * eps) by (vm_compute; congruence).
  change (2 ^ 23) with 8388608 in *. apply abs_le_iff.
  set (U := 2 ^ 172) in *. lia.
Qed.

Lemma add8 (x y : f32) :
  fin x = true -> fin y = true ->
  - (8 * unit298) <= scaled x + scaled y <= 8 * unit298 ->
  fin (F32.add x y) = true /\
  - (2 * eps) <= scaled (F32.add x y) - (scaled x + scaled y) <= 2 * eps.
Proof.
  intros Hx Hy Hmag. apply abs_le_iff in Hmag.
  assert (H302 : 8 * unit298 <= 2 ^ 302) by (vm_compute; congruence).
  destruct (add_scaled x y Hx Hy ltac:(lia)) as [Hf He]. split; [exact Hf |].
  assert (Hc : 8 * unit298 + 2 ^ 172 <= 2 ^ 23 * (2 * eps)) by (vm_compute; congruence).
  change (2 ^ 23) with 8388608 in *. apply abs_le_iff.
  set (U := 2 ^ 172) in *. lia.
Qed.

Lemma sub4 (x y : f32) :
  fin x = true -> fin y = true ->
  - (4 * unit298) <= scaled x - scaled y <= 4 * unit298 ->
  fin (F32.sub x y) = true /\
  - eps <= scaled (F32.sub x y) - (scaled x - scaled y) <= eps.
Proof.
  intros Hx Hy Hmag. apply abs_le_iff in Hmag.
  assert (H302 : 4 * unit298 <= 2 ^ 302) by (vm_compute; congruence).
  destruct (sub_scaled x y Hx Hy ltac:(lia)) as [Hf He]. split; [exact Hf |].
  assert (Hc : 4 * unit298 + 2 ^ 172 <= 2 ^ 23 * eps) by (vm_compute; congruence).
  change (2 ^ 23) with 8388608 in *. apply abs_le_iff.
  set (U := 2 ^ 172) in *. lia.
Qed.

Lemma div4 (x : f32) :
  fin x = true -> - (4 * unit298) <= scaled x <= 4 * unit298 ->
  fin (F32.div x F32.two) = true /\
  - eps <= 2 * scaled (F32.div x F32.two) - scaled x <= eps.
Proof.
  intros Hx Hmag. apply abs_le_iff in Hmag.
  assert (H302 : 4 * unit298 <= 2 ^ 302) by (vm_compute; congruence).
  destruct (div2_scaled x Hx ltac:(lia)) as [Hf He]. split; [exact Hf |].
  assert (Hc : 4 * unit298 + 2 ^ 173 <= 2 ^ 23 * eps) by (vm_compute; congruence).
  change (2 ^ 23) with 8388608 in *. apply abs_le_iff.
  set (U := 2 ^ 173) in *. lia.
Qed.

Lemma mul4 (e w : f32) (Bw : Z) :
  fin e = true -> fin w = true ->
  - unit298 <= scaled e <= unit298 ->
  - Bw <= scaled w <= Bw -> Bw <= 4 * unit298 ->
  fin (F32.mul e w) = true /\
  - (eps * unit298)
    <= scaled (F32.mul e w) * unit298 - scaled e * scaled w <= eps * unit298 /\
  - (Bw + eps) <= scaled (F32.mul e w) <= Bw + eps.
Proof.
  intros He Hw Hme Hmw HB. apply abs_le_iff in Hme, Hmw.
  assert (HT : 0 < unit298) by reflexivity.
  assert (Hprod : Z.abs (scaled e * scaled w) <= unit298 * Z.abs (scaled w)).
  { rewrite Z.abs_mul. apply Z.mul_le_mono_nonneg_r; [apply Z.abs_nonneg | exact Hme]. }
  assert (HprodB : unit298 * Z.abs (scaled w) <= unit298 * Bw).
  { apply Z.mul_le_mono_nonneg_l; lia. }
  assert (Hprod4 : unit298 * Bw <= unit298 * (4 * unit298)).
  { apply Z.mul_le_mono_nonneg_l; lia. }
  assert (H302 : unit298 * (4 * unit298) <= 2 ^ 302 * 2 ^ 298) by (vm_compute; congruence).
  destruct (mul_scaled e w He Hw ltac:(lia)) as [Hf Herr].
  fold unit298 in Herr.
  split; [exact Hf |].
  assert (Hc : unit298 * (4 * unit298) + 2 ^ 172 * unit298 <= 2 ^ 23 * (eps * unit298))
    by (vm_compute; congruence).
  change (2 ^ 23) with 8388608 in *.
  set (P := scaled (F32.mul e w)) in *.
  set (Q := scaled e * scaled w) in *.
  set (U := 2 ^ 172 * unit298) in *.
  set (TT := unit298 * (4 * unit298)) in *.
  set (ET := eps * unit298) in *.
  set (TW := unit298 * Z.abs (scaled w)) in *.
  set (TB := unit298 * Bw) in *.
  assert (H1 : Z.abs (P * unit298 - Q) <= ET) by lia.
  split; [apply abs_le_iff; exact H1 |].
  assert (H2 : Z.abs P * unit298 <= (Bw + eps) * unit298).
  { rewrite <- (Z.abs_eq unit298) at 1 by lia. rewrite <- Z.abs_mul.
    rewrite Z.mul_add_distr_r. fold ET.
    replace (Bw * unit298) with TB by (unfold TB; ring).
    lia. }
  apply Z.mul_le_mono_pos_r in H2; [| assumption].
  apply abs_le_iff. exact H2.
Qed.

(** ** The four weights and their sum *)

Lemma one_scaled : fin F32.one = true /\ scaled F32.one = unit298.
Proof. split; reflexivity. Qed.

(** Whatever the two influences are, the four weights add up to 4 up to
    eight roundings. *)
Lemma weights_sum (a b : f32) :
  fin a = true -> fin b = true ->
  - unit298 <= 8 * scaled a <= 9 * unit298 ->
  - unit298 <= 8 * scaled b <= 9 * unit298 ->
  let w1 := F32.add a b in
  let w2 := F32.sub (F32.add a F32.one) b in
  let w3 := F32.add (F32.sub F32.one a) b in
  let w4 := F32.sub (F32.add (F32.sub F32.one a) F32.one) b in
  (fin w1 = true /\ fin w2 = true /\ fin w3 = true /\ fin w4 = true) /\
  (- (3 * unit298) <= scaled w1 <= 3 * unit298 /\
   - (3 * unit298) <= scaled w2 <= 3 * unit298 /\
   - (3 * unit298) <= scaled w3 <= 3 * unit298 /\
   - (3 * unit298) <= scaled w4 <= 3 * unit298) /\
  - (8 * eps) <= scaled w1 + scaled w2 + scaled w3 + scaled w4 - 4 * unit298
    <= 8 * eps.
Proof.
  intros Ha Hb HA HB w1 w2 w3 w4.
  destruct units_facts as (K & HK & HT & He1 & He2).
  destruct one_scaled as [H1f H1s].
  set (A := scaled a) in *. set (B := scaled b) in *.
  (* w1 *)
  destruct (add4 a b Ha Hb) as [Fw1 Ew1]; [fold A B; lia |].
  fold A B in Ew1. fold w1 in Fw1, Ew1.
  (* c = a + 1 *)
  destruct (add4 a F32.one Ha H1f) as [Fc Ec]; [rewrite H1s; fold A; lia |].
  rewrite H1s in Ec. fold A in Ec.
  set (c := F32.add a F32.one) in *.
  destruct (sub4 c b Fc Hb) as [Fw2 Ew2]; [fold B; lia |].
  fold B in Ew2. fold w2 in Fw2, Ew2.
  (* f = 1 - a *)
  destruct (sub4 F32.one a H1f Ha) as [Ff Ef]; [rewrite H1s; fold A; lia |].
  rewrite H1s in Ef. fold A in Ef.
  set (f := F32.sub F32.one a) in *.
  destruct (add4 f b Ff Hb) as [Fw3 Ew3]; [fold B; lia |].
  fold B in Ew3. fold w3 in Fw3, Ew3.
  (* g = f + 1 *)
  destruct (add4 f F32.one Ff H1f) as [Fg Eg]; [rewrite H1s; lia |].
  rewrite H1s in Eg.
  set (g := F32.add f F32.one) in *.
  destruct (sub4 g b Fg Hb) as [Fw4 Ew4]; [fold B; lia |].
  fold B in Ew4. fold w4 in Fw4, Ew4.
  repeat split; try assumption; lia.
Qed.

(** ** Four equal gains *)

(** With the same gain [e] at the four corners the sample is twice [e],
    up to nineteen roundings. *)
Lemma uniform_sample_near (e a b : f32) :
  fin e = true -> - unit298 <= scaled e <= unit298 ->
  fin a = true -> fin b = true ->
  - unit298 <= 8 * scaled a <= 9 * unit298 ->
  - unit298 <= 8 * scaled b <= 9 * unit298 ->
  let S :=
    F32.add (F32.add (F32.add
      (F32.div (F32.mul e (F32.add a b)) F32.two)
      (F32.div (F32.mul e (F32.sub (F32.add a F32.one) b)) F32.two))
      (F32.div (F32.mul e (F32.add (F32.sub F32.one a) b)) F32.two))
      (F32.div (F32.mul e (F32.sub (F32.add (F32.sub F32.one a) F32.one) b))
               F32.two) in
  fin S = true /\ 2 ^ 17 * Z.abs (scaled S - 2 * scaled e) <= unit298.
Proof.
  intros Fe Me Ha Hb HA HB.
  destruct (weights_sum a b Ha Hb HA HB)
    as ((Fw1 & Fw2 & Fw3 & Fw4) & (Mw1 & Mw2 & Mw3 & Mw4) & Hsum).
  cbv zeta in *.
  set (w1 := F32.add a b) in *.
  set (w2 := F32.sub (F32.add a F32.one) b) in *.
  set (w3 := F32.add (F32.sub F32.one a) b) in *.
  set (w4 := F32.sub (F32.add (F32.sub F32.one a) F32.one) b) in *.
  clearbody w1 w2 w3 w4. clear Ha Hb HA HB a b.
  destruct units_facts as (K & HK & HT & He1 & He2).
  assert (H34 : 3 * unit298 <= 4 * unit298) by lia.
  (* products *)
  destruct (mul4 e w1 (3 * unit298) Fe Fw1 Me Mw1 H34) as (Fp1 & Ep1 & Mp1).
  destruct (mul4 e w2 (3 * unit298) Fe Fw2 Me Mw2 H34) as (Fp2 & Ep2 & Mp2).
  destruct (mul4 e w3 (3 * unit298) Fe Fw3 Me Mw3 H34) as (Fp3 & Ep3 & Mp3).
  destruct (mul4 e w4 (3 * unit298) Fe Fw4 Me Mw4 H34) as (Fp4 & Ep4 & Mp4).
  set (p1 := F32.mul e w1) in *. set (p2 := F32.mul e w2) in *.
  set (p3 := F32.mul e w3) in *. set (p4 := F32.mul e w4) in *.
  clearbody p1 p2 p3 p4.
  (* the four products against e times the sum of the weights *)
  set (Ee := scaled e) in *.
  set (Ssum := scaled p1 + scaled p2 + scaled p3 + scaled p4).
  set (Wsum := scaled w1 + scaled w2 + scaled w3 + scaled w4) in *.
  assert (HT0 : 0 < unit298) by lia.
  assert (H2 : - (4 * (eps * unit298)) <= Ssum * unit298 - Ee * Wsum
               <= 4 * (eps * unit298)).
  { replace (Ssum * unit298 - Ee * Wsum)
      with ((scaled p1 * unit298 - Ee * scaled w1)
            + (scaled p2 * unit298 - Ee * scaled w2)
            + (scaled p3 * unit298 - Ee * scaled w3)
            + (scaled p4 * unit298 - Ee * scaled w4))
      by (unfold Ssum, Wsum; ring).
    clear - Ep1 Ep2 Ep3 Ep4.
    set (ET := eps * unit298) in *. lia. }
  assert (H3 : Z.abs (Ee * (Wsum - 4 * unit298)) <= unit298 * (8 * eps)).
  { rewrite Z.abs_mul.
    apply Z.mul_le_mono_nonneg; try apply Z.abs_nonneg; apply abs_le_iff;
      assumption. }
  apply abs_le_iff in H3.
  clear Ep1 Ep2 Ep3 Ep4 Hsum Mw1 Mw2 Mw3 Mw4 Fw1 Fw2 Fw3 Fw4 Me Fe.
  clearbody Wsum Ee.
  (* halves *)
  assert (Bp : forall p, - (3 * unit298 + eps) <= scaled p <= 3 * unit298 + eps ->
                         - (4 * unit298) <= scaled p <= 4 * unit298).
  { clear - HK HT He1 He2. intros p Hp. lia. }
  destruct (div4 p1 Fp1 (Bp p1 Mp1)) as (Ft1 & Et1).
  destruct (div4 p2 Fp2 (Bp p2 Mp2)) as (Ft2 & Et2).
  destruct (div4 p3 Fp3 (Bp p3 Mp3)) as (Ft3 & Et3).
  destruct (div4 p4 Fp4 (Bp p4 Mp4)) as (Ft4 & Et4).
  clear Bp.
  set (t1 := F32.div p1 F32.two) in *. set (t2 := F32.div p2 F32.two) in *.
  set (t3 := F32.div p3 F32.two) in *. set (t4 := F32.div p4 F32.two) in *.
  clearbody t1 t2 t3 t4.
  (* sums *)
  destruct (add8 t1 t2 Ft1 Ft2) as (Fs1 & Es1);
    [clear - HK HT He1 He2 Mp1 Mp2 Et1 Et2; lia |].
  set (s1 := F32.add t1 t2) in *. clearbody s1.
  destruct (add8 s1 t3 Fs1 Ft3) as (Fs2 & Es2);
    [clear - HK HT He1 He2 Mp1 Mp2 Mp3 Et1 Et2 Et3 Es1; lia |].
  set (s2 := F32.add s1 t3) in *. clearbody s2.
  destruct (add8 s2 t4 Fs2 Ft4) as (Fs3 & Es3);
    [clear - HK HT He1 He2 Mp1 Mp2 Mp3 Mp4 Et1 Et2 Et3 Et4 Es1 Es2; lia |].
  set (s3 := F32.add s2 t4) in *. clearbody s3.
  split; [exact Fs3 |].
  assert (H1 : - (16 * eps) <= 2 * scaled s3 - Ssum <= 16 * eps).
  { unfold Ssum. clear - Et1 Et2 Et3 Et4 Es1 Es2 Es3. lia. }
  clearbody Ssum.
  clear Et1 Et2 Et3 Et4 Es1 Es2 Es3 Mp1 Mp2 Mp3 Mp4.
  assert (H4 : - (16 * (eps * unit298)) <= (2 * scaled s3 - Ssum) * unit298
               <= 16 * (eps * unit298)).
  { apply abs_le_iff. apply abs_le_iff in H1.
    rewrite Z.abs_mul, (Z.abs_eq unit298), Z.mul_assoc by lia.
    apply Z.mul_le_mono_nonneg_r; lia. }
  assert (H5 : Z.abs ((scaled s3 - 2 * Ee) * (2 * unit298))
               <= (14 * eps) * (2 * unit298)).
  { replace ((scaled s3 - 2 * Ee) * (2 * unit298))
      with ((2 * scaled s3 - Ssum) * unit298
            + (Ssum * unit298 - Ee * Wsum)
            + Ee * (Wsum - 4 * unit298)) by ring.
    replace (unit298 * (8 * eps)) with (8 * (eps * unit298)) in H3 by ring.
    replace (14 * eps * (2 * unit298)) with (28 * (eps * unit298)) by ring.
    clear - H2 H3 H4.
    set (X1 := (2 * scaled s3 - Ssum) * unit298) in *.
    set (X2 := Ssum * unit298 - Ee * Wsum) in *.
    set (X3 := Ee * (Wsum - 4 * unit298)) in *.
    set (ET := eps * unit298) in *.
    apply abs_le_iff. lia. }
  rewrite Z.abs_mul, (Z.abs_eq (2 * unit298)) in H5 by lia.
  apply Z.mul_le_mono_pos_r in H5; [| lia].
  change (2 ^ 17) with 131072.
  clear - H5 HK HT He1 He2. lia.
Qed.

(** ** The influences *)

Lemma of_Z_scaled (n : Z) :
  0 <= n <= 2 ^ 24 ->
  fin (F32.of_Z n) = true /\ scaled (F32.of_Z n) = n * unit298.
Proof.
  intros Hn.
  destruct (Z.eq_dec n 0) as [-> | H0]; [split; reflexivity |].
  destruct (Z.eq_dec n (2 ^ 24)) as [-> | H24]; [split; reflexivity |].
  rewrite of_Z_canon by lia. unfold canon.
  destruct (canon_mantissa n ltac:(lia)) as [Em Dm].
  assert (Hd : 0 < Zdigits2 n <= 24).
  { split; [apply Zdigits2_pos; lia | apply Zdigits2_le; lia]. }
  cbn [fin scaled]. split; [apply Z.leb_le; lia |].
  rewrite Em, <- Z.mul_assoc, <- Z.pow_add_r by lia.
  unfold unit298. do 2 f_equal. lia.
Qed.

(** The quotient of two small integers is a float that no integer above
    the exact quotient lies below. *)
Lemma div_of_Z_below (x s : Z) :
  0 < x < 2 ^ 24 -> 0 < s < 2 ^ 24 ->
  exists m e,
    F32.div (F32.of_Z x) (F32.of_Z s) = S754_finite false m e /\
    Zpos m < 2 ^ 24 /\ -149 <= e <= 1 /\
    forall B, x < B * s -> Zpos m * 2 ^ (e + 298) <= B * unit298.
Proof.
  intros Hx Hs. rewrite (of_Z_canon x), (of_Z_canon s) by lia. unfold canon.
  destruct (canon_mantissa x Hx) as [Ex Dx].
  destruct (canon_mantissa s Hs) as [Es Ds].
  set (dx := Zdigits2 x) in *. set (ds := Zdigits2 s) in *.
  assert (Hdx : 0 < dx <= 24).
  { split; [apply Zdigits2_pos; lia | apply Zdigits2_le; lia]. }
  assert (Hds : 0 < ds <= 24).
  { split; [apply Zdigits2_pos; lia | apply Zdigits2_le; lia]. }
  set (mx := Z.to_pos (x * 2 ^ (24 - dx))) in *.
  set (ms := Z.to_pos (s * 2 ^ (24 - ds))) in *.
  unfold F32.div, SFdiv, SFdiv_core_binary.
  rewrite <- Ex in Dx. rewrite <- Es in Ds.
  rewrite Dx, Ds, fexp32_eq.
  replace (Z.min (Z.max (24 + (dx - 24) - (24 + (ds - 24)) - 24) (-149))
                 (dx - 24 - (ds - 24))) with (dx - ds - 24) by lia.
  replace (dx - 24 - (ds - 24) - (dx - ds - 24)) with 24 by lia. cbv iota.
  cbn [xorb]. rewrite Z.shiftl_mul_pow2 by lia.
  pose proof (Zdigits2_bounds (Zpos mx) ltac:(lia)) as Bx.
  pose proof (Zdigits2_bounds (Zpos ms) ltac:(lia)) as Bs.
  rewrite Dx in Bx. rewrite Ds in Bs.
  change (2 ^ (24 - 1)) with 8388608 in *. change (2 ^ 24) with 16777216 in *.
  pose proof (Z_div_mod (Zpos mx * 16777216) (Zpos ms) ltac:(lia)) as Hdm.
  destruct (Z.div_eucl (Zpos mx * 16777216) (Zpos ms)) as [q rem].
  destruct Hdm as [Hq Hrem].
  assert (Hq1 : 8388608 <= q) by nia.
  assert (Hq2 : q < 33554432) by nia.
  destruct (binary_round_aux_any false q (dx - ds - 24)
              (new_location (Zpos ms) rem) ltac:(lia))
    as (m2 & Hm2 & Hle & ->).
  assert (Dq : 24 <= Zdigits2 q <= 25).
  { rewrite Zdigits2_log2 by lia.
    pose proof (Z.log2_le_mono 8388608 q ltac:(lia)) as L1.
    change (Z.log2 8388608) with 23 in L1.
    assert (Z.log2 q < 25) by (apply Z.log2_lt_pow2; lia). lia. }
  rewrite fexp32_eq in *.
  set (dq := Zdigits2 q) in *.
  replace (Z.max (dx - ds - 24) (Z.max (dq + (dx - ds - 24) - 24) (-149)))
    with (dq + dx - ds - 48) in * by lia.
  replace (dq + dx - ds - 48 - (dx - ds - 24)) with (dq - 24) in * by lia.
  set (n := dq - 24) in *. set (e1 := dq + dx - ds - 48) in *.
  assert (Hn : 0 <= n <= 1) by (unfold n; lia).
  assert (P2n : 0 < 2 ^ n <= 2).
  { split; [apply Z.pow_pos_nonneg; lia |].
    change 2 with (2 ^ 1) at 2. apply Z.pow_le_mono_r; lia. }
  assert (Hm1 : 4194304 <= q / 2 ^ n).
  { apply Z.div_le_lower_bound; lia. }
  assert (He1 : -48 <= e1 <= 0) by (unfold e1; lia).
  (* the bound *)
  assert (Hbound : forall B, x < B * s -> m2 * 2 ^ (e1 + 298) <= B * unit298).
  { intros B HB.
    assert (HG : 0 < 2 ^ (- e1)) by (apply Z.pow_pos_nonneg; lia).
    assert (HT : unit298 = 2 ^ (- e1) * 2 ^ (e1 + 298)).
    { unfold unit298. rewrite <- Z.pow_add_r by lia. f_equal. lia. }
    assert (HP : 0 < 2 ^ (e1 + 298)) by (apply Z.pow_pos_nonneg; lia).
    assert (Hm2G : m2 <= B * 2 ^ (- e1)).
    { destruct (Z_le_gt_dec (q / 2 ^ n + 1) (B * 2 ^ (- e1))) as [? | Hgt]; [lia |].
      exfalso.
      (* q / 2^n >= B * 2^(-e1), hence q >= B * 2^(-e1) * 2^n *)
      assert (Hq3 : B * 2 ^ (- e1) * 2 ^ n <= q).
      { pose proof (Z.mul_div_le q (2 ^ n) ltac:(lia)) as Hmd.
        assert (B * 2 ^ (- e1) * 2 ^ n <= q / 2 ^ n * 2 ^ n)
          by (apply Z.mul_le_mono_nonneg_r; lia).
        lia. }
      set (a := 24 - dx) in *. set (c := 24 - ds) in *.
      assert (Hpw : 2 ^ (- e1) * 2 ^ n * 2 ^ c = 2 ^ a * 16777216).
      { change 16777216 with (2 ^ 24). rewrite <- !Z.pow_add_r by (unfold a, c; lia).
        f_equal. unfold e1, n, a, c. lia. }
      assert (Pa : 0 < 2 ^ a) by (apply Z.pow_pos_nonneg; unfold a; lia).
      assert (Pc : 0 < 2 ^ c) by (apply Z.pow_pos_nonneg; unfold c; lia).
      (* q * ms >= B * s * 2^a * 2^24 > x * 2^a * 2^24 = mx * 2^24 >= q * ms *)
      assert (H1 : B * 2 ^ (- e1) * 2 ^ n * (s * 2 ^ c) <= q * (s * 2 ^ c))
        by (apply Z.mul_le_mono_nonneg_r; nia).
      replace (B * 2 ^ (- e1) * 2 ^ n * (s * 2 ^ c))
        with (B * s * (2 ^ (- e1) * 2 ^ n * 2 ^ c)) in H1 by ring.
      rewrite Hpw in H1.
      assert (H2 : (x + 1) * (2 ^ a * 16777216) <= B * s * (2 ^ a * 16777216))
        by (apply Z.mul_le_mono_nonneg_r; nia).
      rewrite Ex, Es in Hq.
      set (X := 2 ^ a * 16777216) in *.
      assert (HX : 0 < X) by (unfold X; lia).
      replace (x * 2 ^ a * 16777216) with (x * X) in Hq by (unfold X; ring).
      nia. }
    rewrite HT, Z.mul_assoc. apply Z.mul_le_mono_nonneg_r; lia. }
  change (2 ^ 24) with 16777216 in *.
  destruct (Z.eqb_spec m2 0); [lia |].
  destruct (Z.eqb_spec m2 16777216) as [E24 | E24].
  - destruct (Z.leb_spec (e1 + 1) 104); [| lia].
    do 2 eexists. split; [reflexivity |]. split; [reflexivity |].
    split; [lia |]. intros B HB. specialize (Hbound B HB).
    rewrite E24 in Hbound.
    replace (e1 + 1 + 298) with (1 + (e1 + 298)) by lia.
    rewrite Z.pow_add_r by lia. change (Zpos (2 ^ 23)) with 8388608.
    change (2 ^ 1) with 2. lia.
  - destruct (Z.leb_spec e1 104); [| lia].
    do 2 eexists. split; [reflexivity |]. rewrite Z2Pos.id by lia.
    split; [lia |]. split; [lia |]. exact Hbound.
Qed.

(** The cell coordinate is the integer part of the quotient. *)
Lemma floor_scaled (m : positive) (e : Z) :
  Zpos m < 2 ^ 24 -> -149 <= e <= 1 ->
  exists k,
    F32.to_unsigned 64 (F32.floor (S754_finite false m e)) = Some k /\
    0 <= k < 2 ^ 26 /\
    k * unit298 <= Zpos m * 2 ^ (e + 298) < (k + 1) * unit298.
Proof.
  intros Hm He. unfold F32.floor.
  assert (H26 : 2 ^ 26 < 2 ^ 64) by reflexivity.
  change (2 ^ 24) with 16777216 in *. change (2 ^ 26) with 67108864 in *.
  destruct (Z.leb_spec 0 e) as [H0 | H0].
  - unfold F32.to_unsigned, F32.trunc, F32.mag_trunc.
    destruct (Z.leb_spec 0 e); [| lia].
    rewrite Z.shiftl_mul_pow2 by lia.
    assert (Hp : 0 < 2 ^ e <= 2).
    { split; [apply Z.pow_pos_nonneg; lia |].
      change 2 with (2 ^ 1) at 2. apply Z.pow_le_mono_r; lia. }
    exists (Zpos m * 2 ^ e).
    destruct (Z.leb_spec 0 (Zpos m * 2 ^ e)); [| nia].
    destruct (Z.ltb_spec (Zpos m * 2 ^ e) (2 ^ 64)); [| nia].
    split; [reflexivity |]. split; [nia |].
    rewrite Z.pow_add_r by lia. fold unit298.
    assert (0 < unit298) by reflexivity. nia.
  - assert (Hp : 0 < 2 ^ (- e)) by (apply Z.pow_pos_nonneg; lia).
    assert (HT : unit298 = 2 ^ (- e) * 2 ^ (e + 298)).
    { unfold unit298. rewrite <- Z.pow_add_r by lia. f_equal. lia. }
    assert (HP : 0 < 2 ^ (e + 298)) by (apply Z.pow_pos_nonneg; lia).
    rewrite Z.shiftr_div_pow2, Z.shiftl_mul_pow2 by lia.
    set (q := Zpos m / 2 ^ (- e)) in *.
    assert (Hq : 0 <= q < 16777216).
    { split; [apply Z.div_pos; lia |].
      apply Z.div_lt_upper_bound; [lia |]. nia. }
    assert (Hfl : q * 2 ^ (- e) <= Zpos m < (q + 1) * 2 ^ (- e)).
    { pose proof (Z.mul_div_le (Zpos m) (2 ^ (- e)) Hp) as G1.
      pose proof (Z.mul_succ_div_gt (Zpos m) (2 ^ (- e)) Hp) as G2.
      fold q in G1, G2. lia. }
    assert (Hval : q * unit298 <= Zpos m * 2 ^ (e + 298) < (q + 1) * unit298).
    { rewrite HT, !Z.mul_assoc. split.
      - apply Z.mul_le_mono_nonneg_r; lia.
      - apply Z.mul_lt_mono_pos_r; lia. }
    exists q.
    destruct (Z.eqb_spec (q * 2 ^ (- e)) (Zpos m)).
    + unfold F32.to_unsigned, F32.trunc, F32.mag_trunc.
      destruct (Z.leb_spec 0 e); [lia |].
      rewrite Z.shiftr_div_pow2 by lia. fold q.
      destruct (Z.leb_spec 0 q); [| lia].
      destruct (Z.ltb_spec q (2 ^ 64)); [| lia].
      split; [reflexivity |]. split; [lia | exact Hval].
    + destruct (Z.eqb_spec q 0) as [E0 | E0].
      * rewrite E0 in *. split; [reflexivity |]. split; [lia | exact Hval].
      * rewrite to_unsigned_of_Z by (change (2 ^ 24) with 16777216; lia).
        split; [reflexivity |]. split; [lia | exact Hval].
Qed.

(** The influence [x_map - x_lower] of a coordinate inside the map is a
    float between 0 and 1, up to one rounding. *)
Lemma influence_unit (x s w : Z) :
  0 <= x < 2 ^ 24 -> 0 < s < 2 ^ 24 -> 0 < w -> x / s < w ->
  let x_map := F32.div (F32.of_Z x) (F32.of_Z s) in
  exists k,
    F32.to_unsigned 64 (F32.floor x_map) = Some k /\ 0 <= k < 2 ^ 26 /\
    let a := F32.sub x_map (F32.of_Z (Z.min k (w - 1))) in
    fin a = true /\ - unit298 <= 8 * scaled a <= 9 * unit298.
Proof.
  intros Hx Hs Hw Hin x_map.
  destruct units_facts as (K & HK & HT & He1 & He2).
  destruct (Z.eq_dec x 0) as [-> | Hx0].
  { exists 0. subst x_map. rewrite (of_Z_canon s) by lia. unfold canon.
    set (ms := Z.to_pos _).
    change (F32.div (F32.of_Z 0) (S754_finite false ms (Zdigits2 s - 24)))
      with F32.pzero.
    split; [reflexivity |]. split; [change (2 ^ 26) with 67108864; lia |].
    replace (Z.min 0 (w - 1)) with 0 by lia.
    split; [reflexivity |].
    change (scaled (F32.sub F32.pzero (F32.of_Z 0))) with 0. lia. }
  destruct (div_of_Z_below x s ltac:(lia) Hs) as (m & e & Hv & Hm & He & Hbound).
  unfold x_map. rewrite Hv.
  destruct (floor_scaled m e Hm He) as (k & Hk & Hk26 & Hfl).
  exists k. split; [exact Hk |]. split; [exact Hk26 |].
  assert (HB : Zpos m * 2 ^ (e + 298) <= (x / s + 1) * unit298).
  { apply Hbound. pose proof (Z.mul_succ_div_gt x s ltac:(lia)). lia. }
  assert (Hq : 0 <= x / s <= x).
  { split; [apply Z.div_pos; lia | apply Z.div_le_upper_bound; nia]. }
  set (V := Zpos m * 2 ^ (e + 298)) in *.
  assert (HT0 : 0 < unit298) by lia.
  assert (Hk24 : k <= x / s + 1) by nia.
  set (k' := Z.min k (w - 1)).
  destruct (of_Z_scaled k') as [Fk Sk].
  { unfold k'. change (2 ^ 24) with 16777216 in *. lia. }
  assert (HD : 0 <= V - k' * unit298 <= unit298).
  { unfold k'. destruct (Z_le_gt_dec k (w - 1)) as [Hle | Hgt].
    - rewrite Z.min_l by lia. lia.
    - rewrite Z.min_r by lia. split; [nia |].
      assert ((x / s + 1) * unit298 <= w * unit298)
        by (apply Z.mul_le_mono_nonneg_r; lia).
      lia. }
  cbv zeta.
  destruct (sub4 (S754_finite false m e) (F32.of_Z k')) as [Fa Ea].
  - cbn [fin]. apply Z.leb_le. lia.
  - exact Fk.
  - rewrite Sk. change (scaled (S754_finite false m e)) with V. lia.
  - split; [exact Fa |].
    rewrite Sk in Ea. change (scaled (S754_finite false m e)) with V in Ea. lia.
Qed.

(** ** Uniform maps at any coordinates *)

Lemma mapUintToFloat_unit (c : byte) :
  let e := mapUintToFloat (Z.of_N (Byte.to_N c)) in
  fin e = true /\ - unit298 <= scaled e <= unit298.
Proof.
  intros e.
  assert (H : fin e && ((- unit298 <=? scaled e) && (scaled e <=? unit298)) = true)
    by (subst e; destruct c; vm_compute; reflexivity).
  apply andb_true_iff in H. destruct H as [H1 H2].
  apply andb_true_iff in H2. destruct H2 as [H2 H3].
  apply Z.leb_le in H2, H3. auto.
Qed.

(** The rational value of a float is its count of units of 2^-298. *)
Lemma value_scaled (x : f32) :
  fin x = true ->
  exists q, F32.value x = Some q /\ (q == scaled x # Z.to_pos unit298)%Q.
Proof.
  assert (HU : Zpos (Z.to_pos unit298) = unit298) by reflexivity.
  destruct x as [s | s | | s m e]; cbn [fin]; try discriminate; intros H.
  - exists 0%Q. split; [reflexivity |]. cbn [scaled]. reflexivity.
  - apply Z.leb_le in H. unfold F32.value. eexists. split; [reflexivity |].
    cbv zeta. unfold Qeq.
    assert (E : 2 ^ (e + 298) = 2 ^ (e + 149) * 2 ^ 149)
      by (rewrite <- Z.pow_add_r by lia; f_equal; lia).
    assert (E' : 2 ^ 298 = 2 ^ 149 * 2 ^ 149) by reflexivity.
    destruct (Z.leb_spec 0 e) as [He | He].
    + assert (E2 : 2 ^ (e + 149) = 2 ^ e * 2 ^ 149) by (apply Z.pow_add_r; lia).
      destruct s; cbn [Qnum Qden Qopp inject_Z scaled];
        rewrite HU; unfold unit298;
        rewrite Z.shiftl_mul_pow2 by lia; rewrite E, E', E2; ring.
    + assert (E2 : 2 ^ (e + 149) * Zpos (Z.to_pos (2 ^ (- e))) = 2 ^ 149).
      { rewrite Z2Pos.id by (apply Z.pow_pos_nonneg; lia).
        rewrite <- Z.pow_add_r by lia. f_equal. lia. }
      set (D := Z.to_pos (2 ^ (- e))) in *.
      destruct s; cbn [Qnum Qden Qopp scaled];
        rewrite HU; unfold unit298; rewrite E, E', <- E2; ring.
Qed.

Lemma near_Q (S E : Z) (q g : Q) :
  (q == S # Z.to_pos unit298)%Q -> (g == E # Z.to_pos unit298)%Q ->
  2 ^ 17 * Z.abs (S - 2 * E) <= unit298 ->
  (Qabs (q - 2 * g) <= 1 # 131072)%Q.
Proof.
  intros Hq Hg H. rewrite Hq, Hg.
  assert (HU : Zpos (Z.to_pos unit298) = unit298) by reflexivity.
  assert (HP : 0 < unit298) by reflexivity.
  set (D := Z.to_pos unit298) in *. clearbody D.
  apply Qabs_Qle_condition.
  unfold Qle, Qminus, Qplus, Qopp, Qmult. cbn [Qnum Qden].
  rewrite ?Pos2Z.inj_mul, ?HU.
  change (2 ^ 17) with 131072 in H.
  assert (H' : - unit298 <= 131072 * (S - 2 * E) <= unit298) by lia.
  set (U := unit298) in *. clearbody U.
  set (T := 131072 * (S - 2 * E)) in *.
  assert (G1 : U * - U <= U * T) by (apply Z.mul_le_mono_nonneg_l; lia).
  assert (G2 : U * T <= U * U) by (apply Z.mul_le_mono_nonneg_l; lia).
  replace ((S * (1 * U) + - (2 * E) * U) * 131072) with (U * T)
    by (unfold T; ring).
  split; [| lia].
  replace (- (1) * (U * (1 * U))) with (U * - U) by ring. exact G1.
Qed.

(** The on-grid case, exact. *)
Lemma sampleMap_uniform_grid_exact
    (map : jr_uncompressed_ptr) (c : byte) (map_scale_factor x y : Z) :
  0 < width map -> 0 < height map ->
  Z.of_nat (length (data map)) = width map * height map ->
  width map * height map < 2 ^ 64 ->
  Forall (eq c) (data map) ->
  0 < map_scale_factor < 2 ^ 24 -> 0 <= x < 2 ^ 24 -> 0 <= y < 2 ^ 24 ->
  (map_scale_factor | x) -> (map_scale_factor | y) ->
  x / map_scale_factor < width map -> y / map_scale_factor < height map ->
  sampleMap map map_scale_factor x y
    = Some (F32.mul F32.two (mapUintToFloat (Z.of_N (Byte.to_N c)))).
Proof.
  intros Hw Hh Hlen Hfit Hall Hs Hx Hy Dx Dy Hxw Hyh.
  assert (Hw64 : width map < 2 ^ 64) by nia.
  assert (Hh64 : height map < 2 ^ 64) by nia.
  rewrite sampleMap_on_grid by (assumption || lia). cbv zeta.
  assert (Hcx : 0 <= x / map_scale_factor) by (apply Z.div_pos; lia).
  assert (Hcy : 0 <= y / map_scale_factor) by (apply Z.div_pos; lia).
  rewrite !(map_cell_uniform map c) by (try assumption; lia).
  cbn [bind]. f_equal. apply uniform_sum.
Qed.

(** C2, amended.  On a gain map all of whose bytes equal [c], at any
    in-range coordinates (coordinates and scale factor below 2^24, so that
    they are exact in binary32), [sampleMap] returns a finite float within
    2^-17 of twice the decoded gain of [c]; at coordinates that the scale
    factor divides it returns exactly the float [2 * mapUintToFloat c]. *)
Theorem sampleMap_uniform_near_twice
    (map : jr_uncompressed_ptr) (c : byte) (map_scale_factor x y : Z) :
  0 < width map -> 0 < height map ->
  Z.of_nat (length (data map)) = width map * height map ->
  width map * height map < 2 ^ 64 ->
  Forall (eq c) (data map) ->
  0 < map_scale_factor < 2 ^ 24 -> 0 <= x < 2 ^ 24 -> 0 <= y < 2 ^ 24 ->
  x / map_scale_factor < width map -> y / map_scale_factor < height map ->
  let e := mapUintToFloat (Z.of_N (Byte.to_N c)) in
  exists S q g,
    sampleMap map map_scale_factor x y = Some S /\
    F32.value S = Some q /\ F32.value e = Some g /\
    (Qabs (q - 2 * g) <= 1 # 131072)%Q /\
    ((map_scale_factor | x) -> (map_scale_factor | y) ->
     S = F32.mul F32.two e).
Proof.
  intros Hw Hh Hlen Hfit Hall Hs Hx Hy Hxw Hyh e.
  assert (Hw64 : width map < 2 ^ 64) by nia.
  assert (Hh64 : height map < 2 ^ 64) by nia.
  destruct (influence_unit x map_scale_factor (width map) Hx Hs Hw Hxw)
    as (kx & Fx & Kx & Ax & Bx).
  destruct (influence_unit y map_scale_factor (height map) Hy Hs Hh Hyh)
    as (ky & Fy & Ky & Ay & By).
  destruct (mapUintToFloat_unit c) as [Fe Be]. fold e in Fe, Be.
  destruct (uniform_sample_near e _ _ Fe Be Ax Ay Bx By) as [FS BS].
  destruct (value_scaled _ FS) as (q & Vq & Eq).
  destruct (value_scaled _ Fe) as (g & Vg & Eg).
  assert (HS : sampleMap map map_scale_factor x y = Some
    (F32.add (F32.add (F32.add
       (F32.div (F32.mul e (F32.add
          (F32.sub (F32.div (F32.of_Z x) (F32.of_Z map_scale_factor))
                   (F32.of_Z (Z.min kx (width map - 1))))
          (F32.sub (F32.div (F32.of_Z y) (F32.of_Z map_scale_factor))
                   (F32.of_Z (Z.min ky (height map - 1)))))) F32.two)
       (F32.div (F32.mul e (F32.sub (F32.add
          (F32.sub (F32.div (F32.of_Z x) (F32.of_Z map_scale_factor))
                   (F32.of_Z (Z.min kx (width map - 1)))) F32.one)
          (F32.sub (F32.div (F32.of_Z y) (F32.of_Z map_scale_factor))
                   (F32.of_Z (Z.min ky (height map - 1)))))) F32.two))
       (F32.div (F32.mul e (F32.add (F32.sub F32.one
          (F32.sub (F32.div (F32.of_Z x) (F32.of_Z map_scale_factor))
                   (F32.of_Z (Z.min kx (width map - 1)))))
          (F32.sub (F32.div (F32.of_Z y) (F32.of_Z map_scale_factor))
                   (F32.of_Z (Z.min ky (height map - 1)))))) F32.two))
       (F32.div (F32.mul e (F32.sub (F32.add (F32.sub F32.one
          (F32.sub (F32.div (F32.of_Z x) (F32.of_Z map_scale_factor))
                   (F32.of_Z (Z.min kx (width map - 1))))) F32.one)
          (F32.sub (F32.div (F32.of_Z y) (F32.of_Z map_scale_factor))
                   (F32.of_Z (Z.min ky (height map - 1)))))) F32.two))).
  { unfold sampleMap. rewrite Fx, Fy. cbn [bind].
    rewrite !(size_t_small (_ + 1)), !(size_t_small (_ - 1)) by lia.
    rewrite !clamp_min by lia.
    rewrite !(map_cell_uniform map c) by (try assumption; lia).
    reflexivity. }
  eexists _, q, g. split; [exact HS |]. split; [exact Vq |].
  split; [exact Vg |]. split.
  - exact (near_Q _ _ q g Eq Eg BS).
  - intros Dx Dy.
    pose proof (sampleMap_uniform_grid_exact map c map_scale_factor x y
                  Hw Hh Hlen Hfit Hall Hs Hx Hy Dx Dy Hxw Hyh) as G.
    rewrite HS in G. injection G as G. exact G.
Qed.

Lemma sampleMap_uniform_near_twice_witness :
  exists S q g,
    sampleMap flat_map 2 0 1 = Some S /\
    F32.value S = Some q /\
    F32.value (mapUintToFloat (Z.of_N (Byte.to_N x01))) = Some g /\
    (Qabs (q - 2 * g) <= 1 # 131072)%Q /\
    ((2 | 0) -> (2 | 1) ->
     S = F32.mul F32.two (mapUintToFloat (Z.of_N (Byte.to_N x01)))).
Proof.
  apply (sampleMap_uniform_near_twice flat_map x01 2 0 1);
    cbn [flat_map data width height length].
  - lia.
  - lia.
  - reflexivity.
  - reflexivity.
  - repeat constructor.
  - split; reflexivity.
  - split; [discriminate | reflexivity].
  - split; [discriminate | reflexivity].
  - reflexivity.
  - reflexivity.
Defined.
